(** * Nexmo Client SDK: call status state machine and event routing

    A shallow embedding of the parts of the SDK that drive call status:
    [NXMCall] (modules/nxmCall.js), [Conversation._handleEvent]
    (conversation.js), [Member] (member.js), the mute and DTMF operations of
    [Media] (modules/media.js), the RTC and application event handlers
    (handlers/rtc_events.js, handlers/application_events.js) and
    [Application.callServer] (the Application class, second part of
    dist/user.js). [Utils] is the last part of dist/sdk.js.

    JavaScript objects that are shared by reference (calls, conversations)
    live in a store and are named by locations; methods are functions from
    store to store that also return a completion, so that the state a method
    leaves behind when it throws is part of the model. *)

From stdpp Require Import gmap strings list fin_maps.
From Stdlib Require Import ZArith.

(** ** JavaScript values and completions *)

Module JS.

(** The values a status-like field or argument can hold: the declared type
    is [string], and JavaScript lets [null] and [undefined] through. *)
Inductive jsval :=
| JNull
| JUndefined
| JStr (s : string).

#[global] Instance jsval_eq_dec : EqDecision jsval.
Proof. solve_decision. Defined.

(** [!!v]: of the values above only a non-empty string is truthy. *)
Definition truthy (v : jsval) : bool :=
  match v with
  | JStr s => negb (String.eqb s EmptyString)
  | _ => false
  end.

(** [String(v)] *)
Definition String_ (v : jsval) : string :=
  match v with
  | JNull => "null"
  | JUndefined => "undefined"
  | JStr s => s
  end.

(** [a === b] *)
Definition strict_eq (a b : jsval) : bool := bool_decide (a = b).

(** [s.toUpperCase()] for a string of ASCII characters: there it is
    JavaScript's mapping. Characters outside ASCII are left as they are,
    which is not what JavaScript does with every one of them; [ascii_only]
    names the values on which the two agree, and the statements below
    either take the status from [CALL_STATUS] or ask for it. *)
Definition upper_ascii (c : Ascii.ascii) : Ascii.ascii :=
  let n := Ascii.nat_of_ascii c in
  if (97 <=? n)%nat && (n <=? 122)%nat then Ascii.ascii_of_nat (n - 32) else c.

Fixpoint toUpperCase (s : string) : string :=
  match s with
  | EmptyString => EmptyString
  | String c rest => String (upper_ascii c) (toUpperCase rest)
  end.

(** The values on which [toUpperCase] above is JavaScript's. *)
Definition ascii_only (v : jsval) : bool :=
  match v with
  | JStr s => forallb (λ c, (Ascii.nat_of_ascii c <? 128)%nat) (String.list_ascii_of_string s)
  | _ => true
  end.

(** Numbers, as far as a counter or an id needs them: a double that holds
    an integer, [NaN], or an infinity. (The two zeros are one value here,
    and fractions, which neither a count of events nor a parsed integer is,
    are left out.) *)
Inductive jsnum :=
| JInt (n : Z)
| JNaN
| JInfinity (negative : bool).

#[global] Instance jsnum_eq_dec : EqDecision jsnum.
Proof. solve_decision. Defined.

(** The double nearest to the integer [z], ties to the even significand:
    exact up to 2^53 in magnitude, a multiple of the unit in the last place
    beyond. *)
Definition round_double (z : Z) : Z :=
  let a := Z.abs z in
  if (a <? 2 ^ 53)%Z then z
  else
    let e := (Z.log2 a - 52)%Z in
    let q := (a / 2 ^ e)%Z in
    let r := (a mod 2 ^ e)%Z in
    let half := (2 ^ (e - 1))%Z in
    let q' := if (r <? half)%Z then q
              else if (half <? r)%Z then (q + 1)%Z
              else if Z.even q then q else (q + 1)%Z in
    (Z.sgn z * (q' * 2 ^ e))%Z.

(** The number an integer becomes when it is stored in a double. *)
Definition to_double (z : Z) : jsnum :=
  if (2 ^ 1024 - 2 ^ 970 <=? Z.abs z)%Z then JInfinity (z <? 0)%Z
  else JInt (round_double z).

(** [x++] (also [x + 1]) on a number. *)
Definition js_incr (x : jsnum) : jsnum :=
  match x with
  | JInt n => to_double (n + 1)
  | JNaN => JNaN
  | JInfinity negative => JInfinity negative
  end.

(** The blanks [parseInt] skips, as far as they are ASCII. *)
Definition is_blank (c : Ascii.ascii) : bool :=
  let n := Ascii.nat_of_ascii c in
  ((9 <=? n)%nat && (n <=? 13)%nat) || (n =? 32)%nat.

Fixpoint skip_blanks (s : string) : string :=
  match s with
  | String c rest => if is_blank c then skip_blanks rest else s
  | EmptyString => s
  end.

Definition digit_value (radix : Z) (c : Ascii.ascii) : option Z :=
  let n := Z.of_nat (Ascii.nat_of_ascii c) in
  let v := if ((48 <=? n) && (n <=? 57))%Z then Some (n - 48)%Z
           else if ((97 <=? n) && (n <=? 122))%Z then Some (n - 87)%Z
           else if ((65 <=? n) && (n <=? 90))%Z then Some (n - 55)%Z
           else None in
  match v with
  | Some d => if (d <? radix)%Z then Some d else None
  | None => None
  end.

Fixpoint read_digits (radix : Z) (acc : option Z) (s : string) : option Z :=
  match s with
  | String c rest =>
      match digit_value radix c with
      | Some d => read_digits radix (Some (radix * default 0%Z acc + d)%Z) rest
      | None => acc
      end
  | EmptyString => acc
  end.

(** [parseInt(s)] without a radix: leading blanks are skipped (the ASCII
    ones here), then come an optional sign, an optional [0x] or [0X], and
    the longest run of digits of the radix; without a digit the result is
    [NaN]. The digits are read exactly (an implementation may read the
    digits after the twentieth of a decimal numeral as zeros). *)
Definition parseInt (s : string) : jsnum :=
  let s1 := skip_blanks s in
  let '(negative, s2) :=
    match s1 with
    | String c rest =>
        if (Ascii.nat_of_ascii c =? 45)%nat then (true, rest)
        else if (Ascii.nat_of_ascii c =? 43)%nat then (false, rest)
        else (false, s1)
    | EmptyString => (false, s1)
    end in
  let '(radix, s3) :=
    match s2 with
    | String c0 (String c1 rest) =>
        if (Ascii.nat_of_ascii c0 =? 48)%nat
           && ((Ascii.nat_of_ascii c1 =? 120)%nat || (Ascii.nat_of_ascii c1 =? 88)%nat)
        then (16%Z, rest) else (10%Z, s2)
    | _ => (10%Z, s2)
    end in
  match read_digits radix None s3 with
  | None => JNaN
  | Some v => to_double (if negative then - v else v)%Z
  end.

(** [s.startsWith(p)] *)
Definition startsWith (s p : string) : bool := String.prefix p s.

(** Errors that cross a method boundary. [NexmoClientError] keeps the string
    it was constructed from (which fields the table of
    nexmoClientErrorTypes.js, not among the sources, gives the object is not
    modelled); [NexmoApiError] keeps the error it wraps;
    [NetworkError] is the rejected response of a network request;
    [TypeError] is a property access on [null] or [undefined]. *)
Inductive error :=
| NexmoClientError (errorInput : string)
| NexmoApiError (cause : error)
| NetworkError (response_type : jsval)
| TypeError.

(** How a call ends: it returns (an async function: resolves), or it throws
    (rejects). *)
Inductive completion (A : Type) :=
| Normal (a : A)
| Abrupt (e : error).
Arguments Normal {A} a.
Arguments Abrupt {A} e.

Definition is_abrupt {A} (c : completion A) : bool :=
  match c with Abrupt _ => true | Normal _ => false end.

End JS.
Import JS.

(** ** Events as the transport delivers them *)

Module Events.

Record Leg := { leg_id : jsval; leg_status : jsval }.

Record Channel := {
  ch_type : jsval;
  ch_id : jsval;
  ch_knocking_id : jsval;
  ch_legs : option (list Leg)
}.

Record AudioSettings := { as_enabled : bool }.
Record UserMedia := { audio_settings : option AudioSettings }.

Record EventUser := {
  eu_user_id : jsval;
  eu_id : jsval;
  eu_name : jsval;
  eu_display_name : jsval;
  eu_media : option UserMedia
}.

(** [body.timestamp]: an absent key is [None] (what [hasOwnProperty] asks). *)
Record Timestamps := {
  ts_invited : option string;
  ts_joined : option string;
  ts_left : option string
}.

Record Reason := { sip_code : option Z; reason_text : jsval }.

(** The keys of [event.body] that the modelled code reads; a body here has
    these keys and no others (so no [type], [member_id], [from], [id],
    [user_id], [name], [display_name], [state], [callStatus] or
    [transferred_to] key). [b_audio] is the truthiness of [body.audio]; a
    [transferred_from] key, when the body has one, holds a non-empty string,
    and without the key [b_transferred_from] is the empty string. *)
Record Body := {
  b_channel : option Channel;
  b_audio : bool;
  b_invited_by : jsval;
  b_user : option EventUser;
  b_timestamp : option Timestamps;
  b_reason : option Reason;
  b_status : jsval;
  b_leg_id : jsval;
  b_media : option UserMedia;
  b_transferred_from : string;
  b_was_member : jsval;
  b_rtc_id : jsval;
  b_event_id : option (string + jsnum)
}.

(** A raw event [{type, cid, from, id, body, timestamp, client_ref}]; a
    constructed [NXMEvent] has the same shape. *)
Record Event := {
  type : string;
  cid : string;
  from : jsval;
  ev_id : jsval;
  ev_timestamp : jsval;
  client_ref : jsval;
  body : Body
}.

Definition empty_body : Body :=
  {| b_channel := None; b_audio := false; b_invited_by := JUndefined;
     b_user := None; b_timestamp := None; b_reason := None;
     b_status := JUndefined; b_leg_id := JUndefined; b_media := None;
     b_transferred_from := EmptyString; b_was_member := JUndefined;
     b_rtc_id := JUndefined; b_event_id := None |}.

Definition set_body (b : Body) (e : Event) : Event :=
  {| type := type e; cid := cid e; from := from e; ev_id := ev_id e;
     ev_timestamp := ev_timestamp e; client_ref := client_ref e; body := b |}.

Definition set_b_user (u : option EventUser) (b : Body) : Body :=
  {| b_channel := b_channel b; b_audio := b_audio b;
     b_invited_by := b_invited_by b; b_user := u;
     b_timestamp := b_timestamp b; b_reason := b_reason b;
     b_status := b_status b; b_leg_id := b_leg_id b; b_media := b_media b;
     b_transferred_from := b_transferred_from b;
     b_was_member := b_was_member b; b_rtc_id := b_rtc_id b;
     b_event_id := b_event_id b |}.

Definition set_b_event_id (i : option (string + jsnum)) (b : Body) : Body :=
  {| b_channel := b_channel b; b_audio := b_audio b;
     b_invited_by := b_invited_by b; b_user := b_user b;
     b_timestamp := b_timestamp b; b_reason := b_reason b;
     b_status := b_status b; b_leg_id := b_leg_id b; b_media := b_media b;
     b_transferred_from := b_transferred_from b;
     b_was_member := b_was_member b; b_rtc_id := b_rtc_id b;
     b_event_id := i |}.

(** [new NXMEvent(conversation, params)] (events/nxmEvent.js): copies the
    keys it knows (so no [client_ref]), strips a [custom:] prefix from the
    type, and renames [body.user.user_id] to [body.user.id]. (The body is
    the raw event's own object; of a raw event only [client_ref] is read once
    its [NXMEvent] exists. A body has no [digit] key here.) *)
Definition strip_custom (t : string) : string :=
  if startsWith t "custom:" then String.substring 7 (String.length t - 7) t else t.

Definition NXMEvent_user (u : EventUser) : EventUser :=
  if truthy (eu_user_id u)
  then {| eu_user_id := JUndefined; eu_id := eu_user_id u; eu_name := eu_name u;
          eu_display_name := eu_display_name u; eu_media := eu_media u |}
  else u.

Definition new_NXMEvent (params : Event) : Event :=
  {| type := strip_custom (type params);
     cid := cid params;
     from := from params;
     ev_id := ev_id params;
     ev_timestamp := ev_timestamp params;
     client_ref := JUndefined;
     body := set_b_user (NXMEvent_user <$> b_user (body params)) (body params) |}.

End Events.
Import Events.

(** ** Member (member.js) *)

Module Member.

(** [member.timestamp] is whatever the last params carried: the per-state
    map of a member payload, or the plain string of a raw event. *)
Inductive TimestampVal :=
| TsUndefined
| TsString (s : jsval)
| TsMap (t : Timestamps).

Record MemberUser := { user_id : jsval; user_name : jsval }.

(** What [member.transferred_from] holds once it is set: the conversation
    object that [_processRtcTransfer] puts there (its location, [None] for
    [undefined]), or the value of a [transferred_from] key that [_normalise]
    copied from an event body. *)
Inductive TransferredFrom :=
| from_conversation (c : option nat)
| from_body (conversation_id : string).

(** [transferred_to] holds a conversation object, here its location;
    [Some None] is the field set to [undefined]. *)
Record Member := {
  m_id : jsval;
  m_user : MemberUser;
  m_display_name : jsval;
  m_state : jsval;
  m_timestamp : TimestampVal;
  m_channel : Channel;
  m_invited_by : jsval;
  m_media : option UserMedia;
  callStatus : jsval;
  transferred_to : option (option nat);
  transferred_from : option TransferredFrom
}.

(** What [conversation.emit] is called with. *)
Inductive ConvEmission :=
| member_call_status (member : Member)
| rtc_passthrough (type : string) (event : Event)
| conv_event (type : string) (sender : option Member) (event : Event).

Definition set_callStatus (v : jsval) (m : Member) : Member :=
  {| m_id := m_id m; m_user := m_user m; m_display_name := m_display_name m;
     m_state := m_state m; m_timestamp := m_timestamp m;
     m_channel := m_channel m; m_invited_by := m_invited_by m;
     m_media := m_media m; callStatus := v;
     transferred_to := transferred_to m;
     transferred_from := transferred_from m |}.

Definition set_m_state (v : jsval) (m : Member) : Member :=
  {| m_id := m_id m; m_user := m_user m; m_display_name := m_display_name m;
     m_state := v; m_timestamp := m_timestamp m;
     m_channel := m_channel m; m_invited_by := m_invited_by m;
     m_media := m_media m; callStatus := callStatus m;
     transferred_to := transferred_to m;
     transferred_from := transferred_from m |}.

Definition set_m_media (v : option UserMedia) (m : Member) : Member :=
  {| m_id := m_id m; m_user := m_user m; m_display_name := m_display_name m;
     m_state := m_state m; m_timestamp := m_timestamp m;
     m_channel := m_channel m; m_invited_by := m_invited_by m;
     m_media := v; callStatus := callStatus m;
     transferred_to := transferred_to m;
     transferred_from := transferred_from m |}.

Definition set_m_channel (v : Channel) (m : Member) : Member :=
  {| m_id := m_id m; m_user := m_user m; m_display_name := m_display_name m;
     m_state := m_state m; m_timestamp := m_timestamp m;
     m_channel := v; m_invited_by := m_invited_by m;
     m_media := m_media m; callStatus := callStatus m;
     transferred_to := transferred_to m;
     transferred_from := transferred_from m |}.

Definition set_transferred_to (v : option nat) (m : Member) : Member :=
  {| m_id := m_id m; m_user := m_user m; m_display_name := m_display_name m;
     m_state := m_state m; m_timestamp := m_timestamp m;
     m_channel := m_channel m; m_invited_by := m_invited_by m;
     m_media := m_media m; callStatus := callStatus m;
     transferred_to := Some v;
     transferred_from := transferred_from m |}.

Definition set_transferred_from (v : option nat) (m : Member) : Member :=
  {| m_id := m_id m; m_user := m_user m; m_display_name := m_display_name m;
     m_state := m_state m; m_timestamp := m_timestamp m;
     m_channel := m_channel m; m_invited_by := m_invited_by m;
     m_media := m_media m; callStatus := callStatus m;
     transferred_to := transferred_to m;
     transferred_from := Some (from_conversation v) |}.

Definition app_channel : Channel :=
  {| ch_type := JStr "app"; ch_id := JUndefined; ch_knocking_id := JUndefined;
     ch_legs := None |}.

(** [a || b] on the values above. *)
Definition js_or (a b : jsval) : jsval := if truthy a then a else b.

(** [_normalise(event.body)] for the keys a body has here. [timestamp],
    [user] and [invited_by] have a case of their own; the [user] key also
    fills an empty [display_name]. Every other key goes through the default
    branch, which (a body has no [type]) copies it onto the member:
    [channel] (which without the key is [{type: 'app'}]), [media] and
    [transferred_from] land in the fields below, the rest ([audio],
    [reason], [status], [leg_id], [was_member], [rtc_id], [event_id]) become
    properties the model does not track. [callStatus] is not touched. *)
Definition _normalise (params : Body) (m : Member) : Member :=
  {| m_id := m_id m;
     m_user := match b_user params with
               | Some u => {| user_id := js_or (eu_user_id u) (eu_id u);
                              user_name := eu_name u |}
               | None => m_user m
               end;
     m_display_name := match b_user params with
                       | Some u => js_or (m_display_name m) (eu_display_name u)
                       | None => m_display_name m
                       end;
     m_state := m_state m;
     m_timestamp := match b_timestamp params with
                    | Some t => TsMap t
                    | None => m_timestamp m
                    end;
     m_channel := match b_channel params with
                  | Some c => c
                  | None => app_channel
                  end;
     m_invited_by := match b_invited_by params with
                     | JUndefined => m_invited_by m
                     | v => v
                     end;
     m_media := match b_media params with
                | Some x => Some x
                | None => m_media m
                end;
     callStatus := callStatus m;
     transferred_to := transferred_to m;
     transferred_from :=
       if String.eqb (b_transferred_from params) EmptyString
       then transferred_from m
       else Some (from_body (b_transferred_from params)) |}.

(** [new Member(conversation, event)] for a raw event with a non-empty type:
    the [from] key gives the id and the [timestamp] key the timestamp; since
    [params.type] is set, no other key is copied. (With an empty type the
    default branch would copy the event's other keys too.) *)
Definition new_Member_of_event (event : Event) : Member :=
  {| m_id := from event;
     m_user := {| user_id := JUndefined; user_name := JUndefined |};
     m_display_name := JUndefined;
     m_state := JUndefined;
     m_timestamp := match ev_timestamp event with
                    | JUndefined => TsUndefined
                    | v => TsString v
                    end;
     m_channel := app_channel;
     m_invited_by := JUndefined;
     m_media := None;
     callStatus := JNull;
     transferred_to := None;
     transferred_from := None |}.

(** [Utils.updateMemberLegs(legs, event)]: the leg with the event's [leg_id]
    gets the event's status (the [fill] call covers an empty range; the
    assignment in its argument is what updates the leg); an unknown leg is
    pushed. *)
Fixpoint update_first_leg (lid st : jsval) (legs : list Leg) : option (list Leg) :=
  match legs with
  | [] => None
  | l :: rest =>
      if strict_eq (leg_id l) lid
      then Some ({| leg_id := leg_id l; leg_status := st |} :: rest)
      else (λ r, l :: r) <$> update_first_leg lid st rest
  end.

Definition updateMemberLegs (legs : option (list Leg)) (event : Event) : list Leg :=
  let new_leg := {| leg_id := b_leg_id (body event); leg_status := b_status (body event) |} in
  match legs with
  | Some ls =>
      match update_first_leg (b_leg_id (body event)) (b_status (body event)) ls with
      | Some ls' => ls'
      | None => ls ++ [new_leg]
      end
  | None => [new_leg]
  end.

(** The state a member method runs on: the member and what its conversation
    has emitted so far. *)
Definition MemberState : Type := Member * list ConvEmission.

(** [_setCallStatusAndEmit(callStatus)] *)
Definition _setCallStatusAndEmit (v : jsval) (st : MemberState) : MemberState :=
  let '(this, emitted) := st in
  if negb (strict_eq (callStatus this) (JStr (String_ v)))
  then let this' := set_callStatus v this in
       (this', emitted ++ [member_call_status this'])
  else st.

Definition audio_enabled (u : EventUser) : bool :=
  match eu_media u with
  | Some md => match audio_settings md with
               | Some a => as_enabled a
               | None => false
               end
  | None => false
  end.

(** [_handleEvent(event)]. [this.timestamp] is, after [_normalise], the very
    object [event.body.timestamp], so the assignment into it changes nothing;
    reading [event.body.timestamp.invited] throws when the body has no
    timestamp. *)
Definition _handleEvent (event : Event) (st : MemberState) : completion unit * MemberState :=
  let '(this, emitted) := st in
  let b := body event in
  if String.eqb (type event) "member:invited" then
    let this1 := set_m_state (JStr "INVITED") (_normalise b this) in
    match b_timestamp b with
    | None => (Abrupt TypeError, (this1, emitted))
    | Some _ =>
        if negb (truthy (b_invited_by b)) then
          match b_user b with
          | None => (Abrupt TypeError, (this1, emitted))
          | Some u =>
              if audio_enabled u
              then (Normal tt, _setCallStatusAndEmit (JStr "started") (this1, emitted))
              else (Normal tt, (this1, emitted))
          end
        else (Normal tt, (this1, emitted))
    end
  else if String.eqb (type event) "member:joined" then
    let this1 := set_m_state (JStr "JOINED") (_normalise b this) in
    match b_timestamp b with
    | None => (Abrupt TypeError, (this1, emitted))
    | Some _ =>
        match b_channel b with
        | Some c =>
            if truthy (ch_knocking_id c)
            then (Normal tt, _setCallStatusAndEmit (JStr "started") (this1, emitted))
            else (Normal tt, (this1, emitted))
        | None => (Normal tt, (this1, emitted))
        end
    end
  else if String.eqb (type event) "member:left" then
    let this1 := set_m_state (JStr "LEFT") (_normalise b this) in
    match b_timestamp b with
    | None => (Abrupt TypeError, (this1, emitted))
    | Some _ =>
        match b_reason b with
        | Some r =>
            if truthy (reason_text r)
            then (Normal tt, _setCallStatusAndEmit (reason_text r) (this1, emitted))
            else (Normal tt, (this1, emitted))
        | None => (Normal tt, (this1, emitted))
        end
    end
  else if String.eqb (type event) "member:media" then
    (Normal tt, (set_m_media (b_media b) this, emitted))
  else if String.eqb (type event) "leg:status:update" then
    let ch := m_channel this in
    let ch' := {| ch_type := ch_type ch; ch_id := ch_id ch;
                  ch_knocking_id := ch_knocking_id ch;
                  ch_legs := Some (updateMemberLegs (ch_legs ch) event) |} in
    (Normal tt, _setCallStatusAndEmit (b_status b) (set_m_channel ch' this, emitted))
  else if String.eqb (type event) "audio:ringing:start" then
    if negb (truthy (callStatus this)) || strict_eq (callStatus this) (JStr "started")
    then (Normal tt, _setCallStatusAndEmit (JStr "ringing") st)
    else (Normal tt, st)
  else (Normal tt, st).

(** How many [member:call:status] notifications a log holds. *)
Fixpoint call_status_emissions (l : list ConvEmission) : nat :=
  match l with
  | [] => 0
  | member_call_status _ :: rest => S (call_status_emissions rest)
  | _ :: rest => call_status_emissions rest
  end.

End Member.
Import Member.

(** ** The session's network requests (sdk.js, [sendNetworkRequest]) *)

Module Session.

(** A request as [sendNetworkRequest] receives it; of [data] the model keeps
    the [type] (or [action]) field. *)
Record Request := {
  req_method : string;
  req_path : string;
  req_data_type : jsval
}.

(** [await sendNetworkRequest(params)]: the request goes out, and the
    service's answer (the [reply] given by the environment) comes back as the
    resolved response or as the thrown, rejected response. *)
Definition sendNetworkRequest {A} (params : Request) (reply : completion A)
    (sent : list Request) : completion A * list Request :=
  (reply, sent ++ [params]).

End Session.
Import Session.

(** ** Conversation (conversation.js) *)

Module Conversation.

Record MediaSession := {
  rtcObjects : gmap string nat;
  pc : option nat
}.

(** [members] and [events] are the two [Map]s; [events] keeps insertion
    order. [sequence_number] is the number the payload gave (an integer, as
    the service counts events, or what arithmetic makes of it). [me] is the
    local user's Member, held by the key under which the same object sits in
    [members]. [listeners] are the (event, group) pairs
    registered with [on]; [emitted] is what [emit] was called with. *)
Record Conversation := {
  c_id : string;
  c_display_name : jsval;
  members : gmap string Member;
  events : list (jsval * Event);
  sequence_number : jsnum;
  me : option string;
  media : MediaSession;
  listeners : list (string * string);
  emitted : list ConvEmission
}.

Definition set_members (v : gmap string Member) (c : Conversation) : Conversation :=
  {| c_id := c_id c; c_display_name := c_display_name c; members := v;
     events := events c; sequence_number := sequence_number c; me := me c;
     media := media c; listeners := listeners c; emitted := emitted c |}.

Definition set_events (v : list (jsval * Event)) (c : Conversation) : Conversation :=
  {| c_id := c_id c; c_display_name := c_display_name c; members := members c;
     events := v; sequence_number := sequence_number c; me := me c;
     media := media c; listeners := listeners c; emitted := emitted c |}.

Definition set_sequence_number (v : jsnum) (c : Conversation) : Conversation :=
  {| c_id := c_id c; c_display_name := c_display_name c; members := members c;
     events := events c; sequence_number := v; me := me c;
     media := media c; listeners := listeners c; emitted := emitted c |}.

Definition set_media (v : MediaSession) (c : Conversation) : Conversation :=
  {| c_id := c_id c; c_display_name := c_display_name c; members := members c;
     events := events c; sequence_number := sequence_number c; me := me c;
     media := v; listeners := listeners c; emitted := emitted c |}.

Definition set_listeners (v : list (string * string)) (c : Conversation) : Conversation :=
  {| c_id := c_id c; c_display_name := c_display_name c; members := members c;
     events := events c; sequence_number := sequence_number c; me := me c;
     media := media c; listeners := v; emitted := emitted c |}.

Definition emit (e : ConvEmission) (c : Conversation) : Conversation :=
  {| c_id := c_id c; c_display_name := c_display_name c; members := members c;
     events := events c; sequence_number := sequence_number c; me := me c;
     media := media c; listeners := listeners c; emitted := emitted c ++ [e] |}.

(** [map.get(k)] and [map.has(k)] for a key that may be nullish: the maps
    are keyed by strings only. *)
Definition get_by {A} (m : gmap string A) (k : jsval) : option A :=
  match k with
  | JStr s => m !! s
  | _ => None
  end.

(** [conversation.me], read through [members]. *)
Definition me_member (c : Conversation) : option Member :=
  me c ≫= λ k, members c !! k.

(** [events.set(id, event)] on a [Map]: an existing key keeps its place. *)
Fixpoint events_set (k : jsval) (v : Event) (l : list (jsval * Event)) : list (jsval * Event) :=
  match l with
  | [] => [(k, v)]
  | (k', v') :: rest =>
      if strict_eq k' k then (k, v) :: rest else (k', v') :: events_set k v rest
  end.

(** [releaseGroup(g)] and [on(event, g, listener)] of the emitter. *)
Definition releaseGroup (g : string) (c : Conversation) : Conversation :=
  set_listeners (filter (λ l, l.2 ≠ g) (listeners c)) c.

Definition on_ (ev g : string) (c : Conversation) : Conversation :=
  set_listeners (listeners c ++ [(ev, g)]) c.

Definition is_typing (t : string) : bool :=
  String.eqb t "text:typing:on" || String.eqb t "text:typing:off".

Section HandleEvent.

(** [conversationEventHandler.handleEvent] (handlers/conversation_events.js)
    is taken as given: it builds the typed event and may change the
    conversation on the way. [parseInt] reads the decimal event id. *)
Variable handleEvent : Event → Conversation → completion Event * Conversation.
Variable parseInt : string → jsnum.

(** "make sure the event_id is not a string" *)
Definition numeric_event_id (event : Event) : Event :=
  match b_event_id (body event) with
  | Some (inl s) =>
      if String.eqb s EmptyString then event
      else set_body (set_b_event_id (Some (inr (parseInt s))) (body event)) event
  | _ => event
  end.

(** [Conversation._handleEvent(event)]. The sender fetched before the
    handler runs is the same object afterwards, so it is emitted as the
    handler left it. *)
Definition _handleEvent (event : Event) (this : Conversation)
    : completion unit * Conversation :=
  if startsWith (type event) "rtc" then
    (Normal tt, emit (rtc_passthrough (type event) event) this)
  else
    let this1 := set_sequence_number (js_incr (sequence_number this)) this in
    let this2 :=
      match from event with
      | JStr f =>
          if truthy (from event) && negb (bool_decide (is_Some (members this1 !! f)))
          then set_members (<[f := new_Member_of_event event]> (members this1)) this1
          else this1
      | _ => this1
      end in
    let event1 := numeric_event_id event in
    match handleEvent event1 this2 with
    | (Abrupt e, this3) => (Abrupt e, this3)
    | (Normal constructed_event, this3) =>
        let sender := get_by (members this3) (from event) in
        let this4 :=
          if negb (is_typing (type event))
          then set_events (events_set (ev_id constructed_event) constructed_event
                             (events this3)) this3
          else this3 in
        if startsWith (type event) "custom:"
        then (Normal tt, emit (conv_event (type constructed_event) sender constructed_event) this4)
        else (Normal tt, emit (conv_event (type event) sender constructed_event) this4)
    end.

End HandleEvent.

(** Modelled from the spec: the conversation event handler
    (handlers/conversation_events.js is not among the sources) for an event
    type without a type-specific handler: it constructs the event object,
    [new NXMEvent(conversation, event)], and changes nothing else. *)
Definition plain_handleEvent (event : Event) (c : Conversation)
    : completion Event * Conversation :=
  (Normal (new_NXMEvent event), c).

Record InviteParams := {
  ip_id : jsval;
  ip_user_name : jsval;
  ip_media : option UserMedia
}.

(** [Conversation.invite(params)]. [reply] is the service's answer, given as
    the Member that [new Member(this, response)] builds from it. Reading
    [this.me.id] for the request happens inside the [try]. *)
Definition invite (params : option InviteParams) (reply : completion Member)
    (st : Conversation * list Request)
    : completion Member * (Conversation * list Request) :=
  let '(this, sent) := st in
  let missing :=
    match params with
    | None => true
    | Some p => negb (truthy (ip_id p)) && negb (truthy (ip_user_name p))
    end in
  if missing then (Abrupt (NexmoClientError "error:invite:missing:params"), st)
  else
    match me_member this with
    | None => (Abrupt (NexmoApiError TypeError), st)
    | Some _ =>
        let request := {| req_method := "POST";
                          req_path := "conversations/" +:+ c_id this +:+ "/members";
                          req_data_type := JStr "invite" |} in
        match sendNetworkRequest request reply sent with
        | (Normal member, sent') =>
            let this' :=
              match m_id member with
              | JStr k => set_members (<[k := member]> (members this)) this
              | _ => this
              end in
            (Normal member, (this', sent'))
        | (Abrupt error, sent') => (Abrupt (NexmoApiError error), (this, sent'))
        end
    end.

End Conversation.
Import Conversation.

(** ** Media: mute and DTMF (modules/media.js; Utils in dist/sdk.js) *)

Module Media.

Record MediaTrack := { track_id : nat; enabled : bool }.

(** [_enableMediaTracks(tracks, enabled)] *)
Definition _enableMediaTracks (tracks : list MediaTrack) (en : bool) : list MediaTrack :=
  (λ mediaTrack, {| track_id := track_id mediaTrack; enabled := en |}) <$> tracks.

(** [_setMediaTracksAndMute(rtc_id, tracks, mute, mediaType)]. [me_id] is
    [this.parentConversation.me.id] ([None] when [me] is null: the read
    throws inside the [try]); [reply] is the service's answer. The state is
    the tracks and the requests sent. *)
Definition _setMediaTracksAndMute (conversation_id : string) (me_id : option jsval)
    (rtc_id : jsval) (mute : bool) (mediaType : string) (reply : completion unit)
    (st : list MediaTrack * list Request)
    : completion unit * (list MediaTrack * list Request) :=
  let '(tracks, sent) := st in
  let tracks1 := _enableMediaTracks tracks (negb mute) in
  let attempt :=
    match me_id with
    | None => (Abrupt TypeError, sent)
    | Some _ =>
        sendNetworkRequest
          {| req_method := "POST";
             req_path := "conversations/" +:+ conversation_id +:+ "/events";
             req_data_type := JStr mediaType |} reply sent
    end in
  match attempt with
  | (Normal response, sent') => (Normal response, (tracks1, sent'))
  | (Abrupt error, sent') =>
      (Abrupt (NexmoApiError error), (_enableMediaTracks tracks1 mute, sent'))
  end.

(** [Utils.validateDTMF(digit)]: a string of 1 to 45 characters out of
    [0-9 a-d A-D # * p P]. *)
Definition dtmf_char (c : Ascii.ascii) : bool :=
  let n := Ascii.nat_of_ascii c in
  ((48 <=? n)%nat && (n <=? 57)%nat)
  || ((97 <=? n)%nat && (n <=? 100)%nat)
  || ((65 <=? n)%nat && (n <=? 68)%nat)
  || (n =? 35)%nat || (n =? 42)%nat || (n =? 112)%nat || (n =? 80)%nat.

Definition validateDTMF (digit : jsval) : bool :=
  match digit with
  | JStr s =>
      (1 <=? String.length s)%nat && (String.length s <=? 45)%nat
      && forallb dtmf_char (String.list_ascii_of_string s)
  | _ => false
  end.

(** [Media.sendDTMF(digit)] on the parent conversation and the requests
    sent; [reply] is the service's answer [{id, timestamp}]. The validation
    error is thrown inside the [try], so the [catch] wraps it. *)
Definition sendDTMF (digit : jsval) (reply : completion (jsval * jsval))
    (st : Conversation * list Request)
    : completion Event * (Conversation * list Request) :=
  let '(conv, sent) := st in
  if negb (validateDTMF digit)
  then (Abrupt (NexmoApiError (NexmoClientError "error:audio:dtmf:invalid-digit")), st)
  else
    match me_member conv with
    | None => (Abrupt (NexmoApiError TypeError), st)
    | Some me_ =>
        let request := {| req_method := "POST";
                          req_path := "conversations/" +:+ c_id conv +:+ "/events";
                          req_data_type := JStr "audio:dtmf" |} in
        match sendNetworkRequest request reply sent with
        | (Normal (id, timestamp), sent') =>
            let dtmfEvent :=
              new_NXMEvent {| type := "audio:dtmf"; cid := c_id conv;
                              from := m_id me_; ev_id := id;
                              ev_timestamp := timestamp;
                              client_ref := JUndefined; body := empty_body |} in
            (Normal dtmfEvent,
             (set_events (events_set id dtmfEvent (events conv)) conv, sent'))
        | (Abrupt error, sent') => (Abrupt (NexmoApiError error), (conv, sent'))
        end
    end.

End Media.
Import Media.

(** ** NXMCall: the call object (modules/nxmCall.js) *)

Module Call.

(** The keys of [CALL_STATUS]. *)
Inductive CALL_STATUS_key :=
| STARTED | RINGING | ANSWERED | COMPLETED | BUSY
| TIMEOUT | UNANSWERED | REJECTED | FAILED.

#[global] Instance CALL_STATUS_key_eq_dec : EqDecision CALL_STATUS_key.
Proof. solve_decision. Defined.

(** [this.CALL_STATUS]: the stable strings of the public contract. *)
Definition CALL_STATUS (k : CALL_STATUS_key) : string :=
  match k with
  | STARTED => "started"
  | RINGING => "ringing"
  | ANSWERED => "answered"
  | COMPLETED => "completed"
  | BUSY => "busy"
  | TIMEOUT => "timeout"
  | UNANSWERED => "unanswered"
  | REJECTED => "rejected"
  | FAILED => "failed"
  end.

Inductive CALL_DIRECTION := INBOUND | OUTBOUND.

#[global] Instance CALL_DIRECTION_eq_dec : EqDecision CALL_DIRECTION.
Proof. solve_decision. Defined.

(** [this.STATUS_PERMITTED_FLOW]: a [Map] from the upper-cased current status
    to the [Set] of statuses it may move to. *)
Definition STATUS_PERMITTED_FLOW : gmap string (gset string) :=
  list_to_map
    [ ("STARTED", list_to_set
         [CALL_STATUS RINGING; CALL_STATUS ANSWERED; CALL_STATUS FAILED;
          CALL_STATUS TIMEOUT; CALL_STATUS UNANSWERED; CALL_STATUS REJECTED;
          CALL_STATUS BUSY]);
      ("RINGING", list_to_set
         [CALL_STATUS ANSWERED; CALL_STATUS FAILED; CALL_STATUS TIMEOUT;
          CALL_STATUS UNANSWERED; CALL_STATUS REJECTED; CALL_STATUS BUSY]);
      ("ANSWERED", list_to_set
         [CALL_STATUS COMPLETED; CALL_STATUS FAILED]) ].

(** A call. [conversation] is the location of the conversation object;
    [from_] and [to] are the snapshots the constructor documents ("not a
    reference to the one in conversation.members"); an absent [id],
    [knocking_id] or [client_ref] is [JUndefined]. *)
Record NXMCall := {
  status : jsval;
  direction : CALL_DIRECTION;
  conversation : option nat;
  from_ : option Member;
  to : option (gmap string Member);
  id : jsval;
  knocking_id : jsval;
  call_client_ref : jsval;
  transferred : bool
}.

Definition set_status (v : jsval) (c : NXMCall) : NXMCall :=
  {| status := v; direction := direction c; conversation := conversation c;
     from_ := from_ c; to := to c; id := id c; knocking_id := knocking_id c;
     call_client_ref := call_client_ref c; transferred := transferred c |}.

Definition set_direction (v : CALL_DIRECTION) (c : NXMCall) : NXMCall :=
  {| status := status c; direction := v; conversation := conversation c;
     from_ := from_ c; to := to c; id := id c; knocking_id := knocking_id c;
     call_client_ref := call_client_ref c; transferred := transferred c |}.

Definition set_conversation (v : option nat) (c : NXMCall) : NXMCall :=
  {| status := status c; direction := direction c; conversation := v;
     from_ := from_ c; to := to c; id := id c; knocking_id := knocking_id c;
     call_client_ref := call_client_ref c; transferred := transferred c |}.

Definition set_from (v : option Member) (c : NXMCall) : NXMCall :=
  {| status := status c; direction := direction c; conversation := conversation c;
     from_ := v; to := to c; id := id c; knocking_id := knocking_id c;
     call_client_ref := call_client_ref c; transferred := transferred c |}.

Definition set_to (v : option (gmap string Member)) (c : NXMCall) : NXMCall :=
  {| status := status c; direction := direction c; conversation := conversation c;
     from_ := from_ c; to := v; id := id c; knocking_id := knocking_id c;
     call_client_ref := call_client_ref c; transferred := transferred c |}.

Definition set_id (v : jsval) (c : NXMCall) : NXMCall :=
  {| status := status c; direction := direction c; conversation := conversation c;
     from_ := from_ c; to := to c; id := v; knocking_id := knocking_id c;
     call_client_ref := call_client_ref c; transferred := transferred c |}.

Definition set_knocking_id (v : jsval) (c : NXMCall) : NXMCall :=
  {| status := status c; direction := direction c; conversation := conversation c;
     from_ := from_ c; to := to c; id := id c; knocking_id := v;
     call_client_ref := call_client_ref c; transferred := transferred c |}.

Definition set_client_ref (v : jsval) (c : NXMCall) : NXMCall :=
  {| status := status c; direction := direction c; conversation := conversation c;
     from_ := from_ c; to := to c; id := id c; knocking_id := knocking_id c;
     call_client_ref := v; transferred := transferred c |}.

Definition set_transferred (v : bool) (c : NXMCall) : NXMCall :=
  {| status := status c; direction := direction c; conversation := conversation c;
     from_ := from_ c; to := to c; id := id c; knocking_id := knocking_id c;
     call_client_ref := call_client_ref c; transferred := v |}.

(** [new NXMCall(application)]: no conversation and no caller yet. *)
Definition new_NXMCall : NXMCall :=
  {| status := JNull; direction := INBOUND; conversation := None;
     from_ := None; to := None; id := JUndefined; knocking_id := JUndefined;
     call_client_ref := JUndefined; transferred := false |}.

(** [_isValidStatusTransition(status)] *)
Definition _isValidStatusTransition (this : NXMCall) (status_ : jsval) : completion bool :=
  if negb (truthy status_) then
    Abrupt (NexmoClientError
              ("Provide the status to validate the transition from '"
               +:+ String_ (status this) +:+ "'"))
  else if negb (truthy (status this)) then Normal true
  else
    match status this with
    | JStr s =>
        let current_status := toUpperCase s in
        match STATUS_PERMITTED_FLOW !! current_status with
        | None => Normal false
        | Some permitted =>
            if strict_eq (status this) status_ then Normal false
            else Normal (bool_decide (String_ status_ ∈ permitted))
        end
    | _ => Abrupt TypeError
    end.

End Call.
Import Call.

(** ** The application's store (the Application class in dist/user.js) *)

Module Application.

(** What [application.emit] is called with; [call_status_changed] records
    the status the listener finds in the call object. *)
Inductive AppEmission :=
| call_status_changed (call : nat) (status_now : jsval)
| member_call (member : option Member) (call : nat).

Inductive LogEntry :=
| log_warn (msg : string)
| log_error (e : error).

(** [conversations], [calls] and [_call_draft_list] are the application's
    three [Map]s; their values are the objects at the given locations of
    [conv_heap] and [call_heap]. *)
Record Store := {
  conversations : gmap string nat;
  calls : gmap string nat;
  _call_draft_list : gmap string nat;
  conv_heap : gmap nat Conversation;
  call_heap : gmap nat NXMCall;
  app_emitted : list AppEmission;
  logged : list LogEntry;
  requests : list Request
}.

Definition set_calls (v : gmap string nat) (σ : Store) : Store :=
  {| conversations := conversations σ; calls := v;
     _call_draft_list := _call_draft_list σ; conv_heap := conv_heap σ;
     call_heap := call_heap σ; app_emitted := app_emitted σ;
     logged := logged σ; requests := requests σ |}.

Definition set_call_draft_list (v : gmap string nat) (σ : Store) : Store :=
  {| conversations := conversations σ; calls := calls σ;
     _call_draft_list := v; conv_heap := conv_heap σ;
     call_heap := call_heap σ; app_emitted := app_emitted σ;
     logged := logged σ; requests := requests σ |}.

Definition set_conv_heap (v : gmap nat Conversation) (σ : Store) : Store :=
  {| conversations := conversations σ; calls := calls σ;
     _call_draft_list := _call_draft_list σ; conv_heap := v;
     call_heap := call_heap σ; app_emitted := app_emitted σ;
     logged := logged σ; requests := requests σ |}.

Definition set_call_heap (v : gmap nat NXMCall) (σ : Store) : Store :=
  {| conversations := conversations σ; calls := calls σ;
     _call_draft_list := _call_draft_list σ; conv_heap := conv_heap σ;
     call_heap := v; app_emitted := app_emitted σ;
     logged := logged σ; requests := requests σ |}.

Definition set_requests (v : list Request) (σ : Store) : Store :=
  {| conversations := conversations σ; calls := calls σ;
     _call_draft_list := _call_draft_list σ; conv_heap := conv_heap σ;
     call_heap := call_heap σ; app_emitted := app_emitted σ;
     logged := logged σ; requests := v |}.

Definition app_emit (e : AppEmission) (σ : Store) : Store :=
  {| conversations := conversations σ; calls := calls σ;
     _call_draft_list := _call_draft_list σ; conv_heap := conv_heap σ;
     call_heap := call_heap σ; app_emitted := app_emitted σ ++ [e];
     logged := logged σ; requests := requests σ |}.

Definition log (e : LogEntry) (σ : Store) : Store :=
  {| conversations := conversations σ; calls := calls σ;
     _call_draft_list := _call_draft_list σ; conv_heap := conv_heap σ;
     call_heap := call_heap σ; app_emitted := app_emitted σ;
     logged := logged σ ++ [e]; requests := requests σ |}.

(** A write to a field of the call (or conversation) object at a location. *)
Definition update_call (r : nat) (c : NXMCall) (σ : Store) : Store :=
  set_call_heap (<[r := c]> (call_heap σ)) σ.

Definition update_conv (r : nat) (c : Conversation) (σ : Store) : Store :=
  set_conv_heap (<[r := c]> (conv_heap σ)) σ.

(** A promise: settled, or waiting at [await conversation.media.enable()]
    with the rest of the async function as its continuation [k]. What
    [enable] itself does once the microphone is there (its rtc request, the
    peer connection it stores in the conversation's media) and what other
    events do while the handler waits is not part of the handler: it is in
    the store that the caller of [k] resumes it on, together with the
    outcome of [enable]. *)
Inductive Promise (A : Type) :=
| Settled (c : completion A)
| AwaitingMedia (k : completion unit → Store → completion A * Store).
Arguments Settled {A} c.
Arguments AwaitingMedia {A} k.

(** No two keys of [application.calls] hold the same call object. *)
Definition calls_injective (σ : Store) : Prop :=
  ∀ k1 k2 r, calls σ !! k1 = Some r → calls σ !! k2 = Some r → k1 = k2.

End Application.
Import Application.

(** ** The methods of NXMCall, on the store *)

Module CallMethods.

(** [_setStatusAndEmit(status)] on the call at location [this]. *)
Definition _setStatusAndEmit (this : nat) (status_ : jsval) (σ : Store)
    : completion unit * Store :=
  match call_heap σ !! this with
  | None => (Abrupt TypeError, σ)
  | Some call =>
      match _isValidStatusTransition call status_ with
      | Abrupt e => (Abrupt e, σ)
      | Normal false =>
          (Normal tt,
           log (log_warn ("status attempt switch from " +:+ String_ (status call)
                          +:+ " to " +:+ String_ status_)) σ)
      | Normal true =>
          (Normal tt,
           app_emit (call_status_changed this status_)
             (update_call this (set_status status_ call) σ))
      end
  end.

(** [_attachCallListeners()]: the call's [member:media] listener replaces
    whatever the group [call_module] held on the conversation. *)
Definition _attachCallListeners (conv : Conversation) : Conversation :=
  on_ "member:media" "call_module" (releaseGroup "call_module" conv).

(** [_setupConversationObject(conversation)] *)
Definition _setupConversationObject (this : nat) (conversation_ : option nat) (σ : Store)
    : completion unit * Store :=
  match conversation_ with
  | None => (Normal tt, σ)
  | Some cr =>
      match call_heap σ !! this, conv_heap σ !! cr with
      | Some call, Some conv =>
          let call1 := set_conversation (Some cr) call in
          let '(call2, σ1) :=
            match me_member conv with
            | None => (call1, log (log_warn "missing own member object") σ)
            | Some _ =>
                let to0 := members conv in
                let to1 :=
                  match from_ call1 with
                  | Some f => match m_id f with
                              | JStr k => delete k to0
                              | _ => to0
                              end
                  | None => to0
                  end in
                (set_to (Some to1) call1, σ)
            end in
          (Normal tt,
           update_conv cr (_attachCallListeners conv) (update_call this call2 σ1))
      | _, _ => (Abrupt TypeError, σ)
      end
  end.

(** [_setFrom(from)] *)
Definition _setFrom (this : nat) (f : option Member) (σ : Store) : completion unit * Store :=
  match call_heap σ !! this with
  | None => (Abrupt TypeError, σ)
  | Some call => (Normal tt, update_call this (set_from f call) σ)
  end.

(** [_isEventFromMe] of [_handleStatusChange]: "for knocking case the
    conversation object is not yet set in the nxmCall. We know the action is
    initiated from us". Reading [me.id] of a conversation without [me]
    throws. *)
Definition _isEventFromMe (σ : Store) (call : NXMCall) (event : Event) : completion bool :=
  match conversation call with
  | None => Normal true
  | Some cr =>
      match conv_heap σ !! cr ≫= me_member with
      | Some m => Normal (strict_eq (m_id m) (from event))
      | None => Abrupt TypeError
      end
  end.

(** A handler that has finished by the time it returns. *)
Definition done_ (r : completion unit * Store) : completion (Promise unit) * Store :=
  match r with
  | (Normal _, σ) => (Normal (Settled (Normal tt)), σ)
  | (Abrupt e, σ) => (Abrupt e, σ)
  end.

(** The [catch] of the [member:joined] handler. *)
Definition joined_catch (this : nat) (error_ : error) (σ : Store) : completion unit * Store :=
  match _setStatusAndEmit this (JStr (CALL_STATUS FAILED)) σ with
  | (Abrupt e, σ1) => (Abrupt e, σ1)
  | (Normal _, σ1) => (Abrupt error_, log (log_error error_) σ1)
  end.

(** The part of the [member:joined] handler after [await media.enable()]. *)
Definition joined_resume (this : nat) (enabled_ : completion unit) (σ : Store)
    : completion unit * Store :=
  match enabled_ with
  | Normal _ =>
      match _setStatusAndEmit this (JStr (CALL_STATUS STARTED)) σ with
      | (Normal _, σ1) => (Normal tt, σ1)
      | (Abrupt e, σ1) => joined_catch this e σ1
      end
  | Abrupt e => joined_catch this e σ
  end.

(** The [member:joined] handler. With a knocking channel it stops at
    [await this.conversation.media.enable()]: the promise it returns is
    pending, and the store is as the handler found it: before its own first
    wait [enable] only takes a stream index and sets up its statistics,
    which the store does not hold; the peer connection and the requests come
    later. Without a conversation the read of
    [this.conversation.media] throws inside the [try]. *)
Definition on_member_joined (this : nat) (event : Event) (σ : Store)
    : completion (Promise unit) * Store :=
  match b_channel (body event) with
  | Some c =>
      if truthy (ch_knocking_id c) then
        match call_heap σ !! this ≫= conversation with
        | Some _ => (Normal (AwaitingMedia (joined_resume this)), σ)
        | None =>
            let '(r, σ1) := joined_catch this TypeError σ in
            (Normal (Settled r), σ1)
        end
      else (Normal (Settled (Normal tt)), σ)
  | None => (Normal (Settled (Normal tt)), σ)
  end.

Definition on_member_invited (this : nat) (event : Event) (σ : Store)
    : completion (Promise unit) * Store :=
  if strict_eq (b_invited_by (body event)) JNull then
    match b_user (body event) with
    | None => (Abrupt TypeError, σ)
    | Some u =>
        match eu_media u ≫= audio_settings with
        | Some _ => done_ (_setStatusAndEmit this (JStr (CALL_STATUS STARTED)) σ)
        | None => (Normal (Settled (Normal tt)), σ)
        end
    end
  else (Normal (Settled (Normal tt)), σ).

(** The choice both [rtc:hangup] and [member:left] make when the call was
    not answered. *)
Definition unanswered_or_rejected (_isEventFromMe _isOutbound : bool) : CALL_STATUS_key :=
  if (_isEventFromMe && _isOutbound) || (negb _isEventFromMe && negb _isOutbound)
  then UNANSWERED else REJECTED.

Definition on_rtc_hangup (this : nat) (call : NXMCall) (_isEventFromMe _isOutbound : bool)
    (σ : Store) : completion (Promise unit) * Store :=
  if strict_eq (status call) (JStr (CALL_STATUS ANSWERED))
  then done_ (_setStatusAndEmit this (JStr (CALL_STATUS COMPLETED)) σ)
  else done_ (_setStatusAndEmit this
                (JStr (CALL_STATUS (unanswered_or_rejected _isEventFromMe _isOutbound))) σ).

Definition on_member_left (this : nat) (call : NXMCall) (event : Event)
    (_isEventFromMe _isOutbound : bool) (σ : Store)
    : completion (Promise unit) * Store :=
  match b_timestamp (body event) with
  | None => (Abrupt TypeError, σ)
  | Some ts =>
      if negb (bool_decide (is_Some (ts_joined ts)))
         && negb (strict_eq (status call) (JStr (CALL_STATUS ANSWERED)))
      then done_ (_setStatusAndEmit this
                    (JStr (CALL_STATUS (unanswered_or_rejected _isEventFromMe _isOutbound))) σ)
      else (Normal (Settled (Normal tt)), σ)
  end.

Definition on_member_media (this : nat) (call : NXMCall) (event : Event)
    (_isEventFromMe _isOutbound : bool) (σ : Store)
    : completion (Promise unit) * Store :=
  if negb (strict_eq (status call) (JStr (CALL_STATUS ANSWERED))) && b_audio (body event)
  then
    let call1 :=
      match b_channel (body event) with
      | Some c => if _isEventFromMe then set_id (ch_id c) call else call
      | None => call
      end in
    let σ1 := update_call this call1 σ in
    if (negb _isEventFromMe || negb _isOutbound) && truthy (id call1)
    then done_ (_setStatusAndEmit this (JStr (CALL_STATUS ANSWERED)) σ1)
    else (Normal (Settled (Normal tt)), σ1)
  else (Normal (Settled (Normal tt)), σ).

Definition on_sip_ringing (this : nat) (call : NXMCall) (σ : Store)
    : completion (Promise unit) * Store :=
  if negb (strict_eq (status call) (JStr (CALL_STATUS RINGING)))
  then done_ (_setStatusAndEmit this (JStr (CALL_STATUS RINGING)) σ)
  else (Normal (Settled (Normal tt)), σ).

Definition on_sip_hangup (this : nat) (event : Event) (σ : Store)
    : completion (Promise unit) * Store :=
  match b_reason (body event) with
  | None => (Abrupt TypeError, σ)
  | Some r =>
      match sip_code r with
      | Some 486%Z => done_ (_setStatusAndEmit this (JStr (CALL_STATUS BUSY)) σ)
      | Some 487%Z => done_ (_setStatusAndEmit this (JStr (CALL_STATUS TIMEOUT)) σ)
      | Some 403%Z => done_ (_setStatusAndEmit this (JStr (CALL_STATUS FAILED)) σ)
      | _ => (Normal (Settled (Normal tt)), σ)
      end
  end.

Definition on_knocking_delete_success (this : nat) (σ : Store)
    : completion (Promise unit) * Store :=
  done_ (_setStatusAndEmit this (JStr (CALL_STATUS UNANSWERED)) σ).

(** [_handleStatusChange(event)]: the map from event type to handler. An
    event type without a handler returns [undefined], shown here as an
    already settled promise. *)
Definition _handleStatusChange (this : nat) (event : Event) (σ : Store)
    : completion (Promise unit) * Store :=
  match call_heap σ !! this with
  | None => (Abrupt TypeError, σ)
  | Some call =>
      match _isEventFromMe σ call event with
      | Abrupt e => (Abrupt e, σ)
      | Normal fromMe =>
          let _isOutbound := bool_decide (direction call = OUTBOUND) in
          let t := type event in
          if String.eqb t "member:joined" then on_member_joined this event σ
          else if String.eqb t "member:invited" then on_member_invited this event σ
          else if String.eqb t "rtc:hangup" then on_rtc_hangup this call fromMe _isOutbound σ
          else if String.eqb t "member:left" then on_member_left this call event fromMe _isOutbound σ
          else if String.eqb t "member:media" then on_member_media this call event fromMe _isOutbound σ
          else if String.eqb t "sip:ringing" then on_sip_ringing this call σ
          else if String.eqb t "sip:hangup" then on_sip_hangup this event σ
          else if String.eqb t "knocking:delete:success" then on_knocking_delete_success this σ
          else (Normal (Settled (Normal tt)), σ)
      end
  end.

(** [createServerCall(user, type)]: [uuid] is what [Utils.allocateUUID()]
    returns and [reply] the service's answer to the knocking request, given
    as the [id] of the response. *)
Definition createServerCall (this : nat) (user type_ : string) (uuid : string)
    (reply : completion jsval) (σ : Store) : completion jsval * Store :=
  match call_heap σ !! this with
  | None => (Abrupt TypeError, σ)
  | Some call =>
      let σ1 := update_call this (set_client_ref (JStr uuid) call) σ in
      let σ2 := set_call_draft_list (<[uuid := this]> (_call_draft_list σ1)) σ1 in
      let request := {| req_method := "POST"; req_path := "knocking";
                        req_data_type := JUndefined |} in
      match sendNetworkRequest request reply (requests σ2) with
      | (Normal response_id, sent) => (Normal response_id, set_requests sent σ2)
      | (Abrupt error_, sent) => (Abrupt (NexmoApiError error_), set_requests sent σ2)
      end
  end.

End CallMethods.
Import CallMethods.

(** ** RtcEventHandler (handlers/rtc_events.js) *)

Module RtcEventHandler.

(** [conv.members.get(key).field = v]: [None] when there is no such member
    (the assignment then throws). *)
Definition mark_member (key : jsval) (f : Member → Member) (conv : Conversation)
    : option Conversation :=
  match key with
  | JStr k =>
      match members conv !! k with
      | Some m => Some (set_members (<[k := f m]> (members conv)) conv)
      | None => None
      end
  | _ => None
  end.

(** [media._attachEndingEventHandlers()]: one more [rtc:hangup] listener,
    in no group. *)
Definition _attachEndingEventHandlers (conv : Conversation) : Conversation :=
  on_ "rtc:hangup" EmptyString conv.

(** The three "add to new conversation the missing rtcObject, pc or
    activeStream" steps. Both conversations belong to one application, so
    the test on [application.activeStreams] (empty and non-empty at once)
    never holds. *)
Definition adopt_media (old_media new_media : MediaSession) : MediaSession :=
  let objs :=
    if bool_decide (rtcObjects new_media = ∅) && negb (bool_decide (rtcObjects old_media = ∅))
    then rtcObjects old_media ∪ rtcObjects new_media
    else rtcObjects new_media in
  let pc_ :=
    match pc new_media, pc old_media with
    | None, Some p => Some p
    | cur, _ => cur
    end in
  {| rtcObjects := objs; pc := pc_ |}.

(** The block of [_processRtcTransfer] under "in case we joined in the
    middle of a transfer and we don't have the previous conversation in our
    list yet": it runs when the old conversation is known. *)
Definition adopt_old_conversation (old_r : nat) (new_conversation : option nat)
    (event : Event) (σ : Store) : completion unit * Store :=
  match new_conversation with
  | None => (Abrupt TypeError, σ)
  | Some new_r =>
      match conv_heap σ !! new_r
            ≫= mark_member (from event) (set_transferred_from (Some old_r)) with
      | None => (Abrupt TypeError, σ)
      | Some nconv =>
          let σ1 := update_conv new_r (_attachEndingEventHandlers nconv) σ in
          match conv_heap σ1 !! old_r, conv_heap σ1 !! new_r with
          | Some oconv, Some nconv' =>
              (Normal tt,
               update_conv new_r
                 (set_media (adopt_media (media oconv) (media nconv')) nconv') σ1)
          | _, _ => (Abrupt TypeError, σ1)
          end
      end
  end.

(** [_processRtcTransfer(event)] *)
Definition _processRtcTransfer (event : Event) (σ : Store) : completion unit * Store :=
  let transferred_from_ := b_transferred_from (body event) in
  let old_conversation := conversations σ !! transferred_from_ in
  let new_conversation := conversations σ !! cid event in
  match calls σ !! transferred_from_ with
  | None => (Normal tt, log (log_warn "NXMCall transfer for unknown nxmCall") σ)
  | Some nxmCall =>
      match call_heap σ !! nxmCall ≫= conversation with
      | None => (Abrupt TypeError, σ)
      | Some cr =>
          match conv_heap σ !! cr
                ≫= mark_member (b_was_member (body event))
                     (set_transferred_to new_conversation) with
          | None => (Abrupt TypeError, σ)
          | Some conv' =>
              let σ1 := update_conv cr conv' σ in
              match _setupConversationObject nxmCall new_conversation σ1 with
              | (Abrupt e, σ2) => (Abrupt e, σ2)
              | (Normal _, σ2) =>
                  let σ3 :=
                    match call_heap σ2 !! nxmCall with
                    | Some call => update_call nxmCall (set_transferred true call) σ2
                    | None => σ2
                    end in
                  let σ4 := set_calls (<[cid event := nxmCall]> (calls σ3)) σ3 in
                  let σ5 := set_calls (delete transferred_from_ (calls σ4)) σ4 in
                  match old_conversation with
                  | None => (Normal tt, σ5)
                  | Some old_r => adopt_old_conversation old_r new_conversation event σ5
                  end
              end
          end
      end
  end.

(** [_processRtcAnswer(event)] *)
Definition _processRtcAnswer (event : Event) (σ : Store) : completion unit * Store :=
  match calls σ !! cid event with
  | Some r =>
      match call_heap σ !! r with
      | Some call => (Normal tt, update_call r (set_id (b_rtc_id (body event)) call) σ)
      | None => (Abrupt TypeError, σ)
      end
  | None => (Normal tt, σ)
  end.

(** [_processRtcHangup(event)]: the promise of the state machine is not
    looked at. *)
Definition _processRtcHangup (event : Event) (σ : Store) : completion unit * Store :=
  match calls σ !! cid event with
  | Some r =>
      match _handleStatusChange r event σ with
      | (Normal _, σ') => (Normal tt, σ')
      | (Abrupt e, σ') => (Abrupt e, σ')
      end
  | None => (Normal tt, σ)
  end.

(** [_handleRtcEvent(event)] *)
Definition _handleRtcEvent (event : Event) (σ : Store) : completion unit * Store :=
  if String.eqb (type event) "rtc:transfer" then _processRtcTransfer event σ
  else if String.eqb (type event) "rtc:answer" then _processRtcAnswer event σ
  else if String.eqb (type event) "rtc:hangup" then _processRtcHangup event σ
  else (Normal tt, σ).

End RtcEventHandler.
Import RtcEventHandler.

(** ** ApplicationEventsHandler (handlers/application_events.js) and
       Application.callServer (dist/user.js) *)

Module ApplicationEventsHandler.

(** [_processMemberJoined(conversation, event, raw_event)]: "case: call to
    PSTN, after knocking event we receive joined". Next to the event it
    returns, the result shows the promise of the state machine, which the
    handler leaves running. *)
Definition _processMemberJoined (conversation_ : option nat) (event raw_event : Event)
    (σ : Store) : completion (Event * option (Promise unit)) * Store :=
  match b_channel (body event), client_ref raw_event with
  | Some _, JStr ref =>
      if truthy (client_ref raw_event) then
        match _call_draft_list σ !! ref with
        | Some nxmCall =>
            match conversation_ ≫= λ cr, conv_heap σ !! cr with
            | None => (Abrupt TypeError, σ)
            | Some conv =>
                match _setFrom nxmCall (me_member conv) σ with
                | (Abrupt e, σ1) => (Abrupt e, σ1)
                | (Normal _, σ1) =>
                    match _setupConversationObject nxmCall conversation_ σ1 with
                    | (Abrupt e, σ2) => (Abrupt e, σ2)
                    | (Normal _, σ2) =>
                        let σ3 := set_call_draft_list (delete ref (_call_draft_list σ2)) σ2 in
                        let σ4 :=
                          match call_heap σ3 !! nxmCall with
                          | Some call =>
                              update_call nxmCall
                                (set_knocking_id JUndefined (set_client_ref JUndefined call)) σ3
                          | None => σ3
                          end in
                        let σ5 := set_calls (<[c_id conv := nxmCall]> (calls σ4)) σ4 in
                        match _handleStatusChange nxmCall event σ5 with
                        | (Abrupt e, σ6) => (Abrupt e, σ6)
                        | (Normal promise, σ6) =>
                            match conversations σ6 !! cid event ≫= λ cr, conv_heap σ6 !! cr with
                            | None => (Abrupt TypeError, σ6)
                            | Some econv =>
                                (Normal (event, Some promise),
                                 app_emit (member_call (get_by (members econv) (from event)) nxmCall) σ6)
                            end
                        end
                    end
                end
            end
        | None => (Normal (event, None), σ)
        end
      else (Normal (event, None), σ)
  | _, _ => (Normal (event, None), σ)
  end.

(** [Application.callServer(user, type)]: the new call object gets a fresh
    location. The wait for the knocking response is one step here. *)
Definition callServer (user type_ : string) (uuid : string) (reply : completion jsval)
    (σ : Store) : completion nat * Store :=
  let nxmCall := fresh (dom (call_heap σ)) in
  let σ1 := update_call nxmCall (set_direction OUTBOUND new_NXMCall) σ in
  match createServerCall nxmCall user type_ uuid reply σ1 with
  | (Normal response_id, σ2) =>
      match call_heap σ2 !! nxmCall with
      | Some call => (Normal nxmCall, update_call nxmCall (set_knocking_id response_id call) σ2)
      | None => (Abrupt TypeError, σ2)
      end
  | (Abrupt e, σ2) => (Abrupt e, σ2)
  end.

End ApplicationEventsHandler.
Import ApplicationEventsHandler.

(** ** The permitted-flow table as the specification words it *)

Module Spec.

(** From (null/uninitialized): any status. From STARTED: RINGING, ANSWERED,
    FAILED, TIMEOUT, UNANSWERED, REJECTED, BUSY. From RINGING: ANSWERED,
    FAILED, TIMEOUT, UNANSWERED, REJECTED, BUSY. From ANSWERED: COMPLETED,
    FAILED. From the terminal statuses: none. *)
Definition permitted_flow_table (from_status : option CALL_STATUS_key)
    (to_status : CALL_STATUS_key) : bool :=
  match from_status with
  | None => true
  | Some STARTED =>
      match to_status with
      | RINGING | ANSWERED | FAILED | TIMEOUT | UNANSWERED | REJECTED | BUSY => true
      | _ => false
      end
  | Some RINGING =>
      match to_status with
      | ANSWERED | FAILED | TIMEOUT | UNANSWERED | REJECTED | BUSY => true
      | _ => false
      end
  | Some ANSWERED =>
      match to_status with
      | COMPLETED | FAILED => true
      | _ => false
      end
  | Some _ => false
  end.

Definition terminal (k : CALL_STATUS_key) : bool :=
  match k with
  | COMPLETED | BUSY | TIMEOUT | UNANSWERED | REJECTED | FAILED => true
  | _ => false
  end.

(** The value of [call.status] for a status of the table. *)
Definition status_value (s : option CALL_STATUS_key) : jsval :=
  match s with
  | None => JNull
  | Some k => JStr (CALL_STATUS k)
  end.

End Spec.
Import Spec.

(** ** Observations on a store *)

Definition status_of (σ : Store) (r : nat) : option jsval :=
  status <$> call_heap σ !! r.

Definition id_of (σ : Store) (r : nat) : option jsval :=
  id <$> call_heap σ !! r.

(** The leg id the [member:media] handler leaves in the call. *)
Definition captured_id (call : NXMCall) (event : Event) (fromMe : bool) : jsval :=
  match b_channel (body event) with
  | Some c => if fromMe then ch_id c else id call
  | None => id call
  end.

(** [params] names neither an id nor a user name. *)
Definition missing_invite_target (params : option InviteParams) : Prop :=
  match params with
  | None => True
  | Some p => truthy (ip_id p) = false ∧ truthy (ip_user_name p) = false
  end.

(** The member keyed [k] of the conversation at [cr] has its
    [transferred_to] field set to [v]. *)
Definition marked_transferred_to (σ : Store) (cr : nat) (k : string) (v : option nat) : Prop :=
  ∃ conv m, conv_heap σ !! cr = Some conv
            ∧ members conv !! k = Some m
            ∧ transferred_to m = Some v.

(** From [c] to [c'] the member keyed [k] keeps its [transferred_to]. *)
Definition keeps_mark (k : string) (c c' : Conversation) : Prop :=
  ∀ m, members c !! k = Some m →
       ∃ m', members c' !! k = Some m' ∧ transferred_to m' = transferred_to m.

(** A promise settling: a pending one is resumed with the outcome of
    [media.enable()] on [σ], the store as [enable] and whatever else ran
    meanwhile have left it. *)
Definition settle (p : option (Promise unit)) (enabled_ : completion unit) (σ : Store)
    : completion unit * Store :=
  match p with
  | Some (AwaitingMedia k) => k enabled_ σ
  | Some (Settled c) => (c, σ)
  | None => (Normal tt, σ)
  end.

(** ** Concrete objects *)

Module Examples.

Definition member_ (mid : string) : Member :=
  {| m_id := JStr mid;
     m_user := {| user_id := JStr ("USR-" +:+ mid); user_name := JStr mid |};
     m_display_name := JUndefined;
     m_state := JStr "JOINED";
     m_timestamp := TsUndefined;
     m_channel := app_channel;
     m_invited_by := JUndefined;
     m_media := None;
     callStatus := JNull;
     transferred_to := None;
     transferred_from := None |}.

Definition no_media : MediaSession := {| rtcObjects := ∅; pc := None |}.

(** A conversation joined by the local user ("alice") and by "bob". *)
Definition conv_ (cid_ : string) : Conversation :=
  {| c_id := cid_;
     c_display_name := JUndefined;
     members := {[ "alice" := member_ "alice"; "bob" := member_ "bob" ]};
     events := [];
     sequence_number := JInt 0;
     me := Some "alice";
     media := no_media;
     listeners := [];
     emitted := [] |}.

Definition call_ (st : jsval) (dir : CALL_DIRECTION) (conv : option nat) : NXMCall :=
  {| status := st; direction := dir; conversation := conv; from_ := None;
     to := None; id := JUndefined; knocking_id := JUndefined;
     call_client_ref := JUndefined; transferred := false |}.

(** An application that knows the conversations CON-1 (at location 1) and
    CON-2 (at location 2) and holds [call] for CON-1 at location 0. *)
Definition store_ (call : NXMCall) : Store :=
  {| conversations := {[ "CON-1" := 1; "CON-2" := 2 ]};
     calls := {[ "CON-1" := 0 ]};
     _call_draft_list := ∅;
     conv_heap := {[ 1 := conv_ "CON-1"; 2 := conv_ "CON-2" ]};
     call_heap := {[ 0 := call ]};
     app_emitted := [];
     logged := [];
     requests := [] |}.

(** An application with the two conversations and no call yet. *)
Definition store_idle : Store :=
  {| conversations := {[ "CON-1" := 1; "CON-2" := 2 ]};
     calls := ∅;
     _call_draft_list := ∅;
     conv_heap := {[ 1 := conv_ "CON-1"; 2 := conv_ "CON-2" ]};
     call_heap := ∅;
     app_emitted := [];
     logged := [];
     requests := [] |}.

Definition event_ (t cid_ : string) (sender : jsval) (b : Body) : Event :=
  {| type := t; cid := cid_; from := sender; ev_id := JStr "1";
     ev_timestamp := JStr "2020-01-01T00:00:00.000Z"; client_ref := JUndefined;
     body := b |}.

Definition leg_channel : Channel :=
  {| ch_type := JStr "app"; ch_id := JStr "leg-1"; ch_knocking_id := JUndefined;
     ch_legs := None |}.

Definition knocking_channel : Channel :=
  {| ch_type := JStr "app"; ch_id := JUndefined; ch_knocking_id := JStr "knock-1";
     ch_legs := None |}.

Definition hangup_event : Event := event_ "rtc:hangup" "CON-1" (JStr "alice") empty_body.

Definition media_body : Body :=
  {| b_channel := Some leg_channel; b_audio := true; b_invited_by := JUndefined;
     b_user := None; b_timestamp := None; b_reason := None;
     b_status := JUndefined; b_leg_id := JUndefined; b_media := None;
     b_transferred_from := EmptyString; b_was_member := JUndefined;
     b_rtc_id := JUndefined; b_event_id := None |}.

Definition media_event : Event := event_ "member:media" "CON-1" (JStr "alice") media_body.


Definition text_event : Event := event_ "text" "CON-1" (JStr "bob") empty_body.

Definition leg_status_body (st : jsval) : Body :=
  {| b_channel := None; b_audio := false; b_invited_by := JUndefined;
     b_user := None; b_timestamp := None; b_reason := None;
     b_status := st; b_leg_id := JStr "leg-1"; b_media := None;
     b_transferred_from := EmptyString; b_was_member := JUndefined;
     b_rtc_id := JUndefined; b_event_id := None |}.

Definition leg_status_event (st : jsval) : Event :=
  event_ "leg:status:update" "CON-1" (JStr "bob") (leg_status_body st).

Definition transfer_body : Body :=
  {| b_channel := None; b_audio := false; b_invited_by := JUndefined;
     b_user := None; b_timestamp := None; b_reason := None;
     b_status := JUndefined; b_leg_id := JUndefined; b_media := None;
     b_transferred_from := "CON-1"; b_was_member := JStr "alice";
     b_rtc_id := JUndefined; b_event_id := None |}.

Definition transfer_event : Event := event_ "rtc:transfer" "CON-2" (JStr "alice") transfer_body.

Definition joined_body : Body :=
  {| b_channel := Some knocking_channel; b_audio := false; b_invited_by := JUndefined;
     b_user := None;
     b_timestamp := Some {| ts_invited := None; ts_joined := Some "t1"; ts_left := None |};
     b_reason := None;
     b_status := JUndefined; b_leg_id := JUndefined; b_media := None;
     b_transferred_from := EmptyString; b_was_member := JUndefined;
     b_rtc_id := JUndefined; b_event_id := None |}.

(** The member:joined event that answers the knocking request [uuid]. *)
Definition joined_event (uuid : string) : Event :=
  {| type := "member:joined"; cid := "CON-1"; from := JStr "alice";
     ev_id := JStr "7"; ev_timestamp := JStr "2020-01-01T00:00:00.000Z";
     client_ref := JStr uuid; body := joined_body |}.

(** The scenario of a server call: [callServer] with the knocking request
    answered, then the member:joined event of the knocking. *)
Definition scenario_called : completion nat * Store :=
  callServer "+15550000" "phone" "uuid-1" (Normal (JStr "knock-1")) store_idle.

Definition scenario_joined : completion (Event * option (Promise unit)) * Store :=
  _processMemberJoined (Some 1) (new_NXMEvent (joined_event "uuid-1"))
    (joined_event "uuid-1") scenario_called.2.

Definition scenario_promise : option (Promise unit) :=
  match scenario_joined.1 with
  | Normal (_, p) => p
  | Abrupt _ => None
  end.

End Examples.

(** ** SipEventHandler (second part of handlers/rtc_events.js) *)

Module SipEventHandler.

(** [_processSipHangup(event_call, event)] and
    [_processSipRinging(event_call, event)]: both hand the event to the call
    and return nothing. *)
Definition _processSipHangup (event_call : nat) (event : Event) (σ : Store)
    : completion unit * Store :=
  match _handleStatusChange event_call event σ with
  | (Normal _, σ') => (Normal tt, σ')
  | (Abrupt e, σ') => (Abrupt e, σ')
  end.

Definition _processSipRinging (event_call : nat) (event : Event) (σ : Store)
    : completion unit * Store :=
  match _handleStatusChange event_call event σ with
  | (Normal _, σ') => (Normal tt, σ')
  | (Abrupt e, σ') => (Abrupt e, σ')
  end.

(** [_handleSipCallEvent(event)] *)
Definition _handleSipCallEvent (event : Event) (σ : Store) : completion unit * Store :=
  match calls σ !! cid event with
  | None =>
      (Normal tt, log (log_warn "There is no call object for this Conversation id.") σ)
  | Some event_call =>
      if String.eqb (type event) "sip:hangup" then _processSipHangup event_call event σ
      else if String.eqb (type event) "sip:ringing" then _processSipRinging event_call event σ
      else (Normal tt, σ)
  end.

End SipEventHandler.
Import SipEventHandler.

(** ** Leaving and hanging up (Member.kick in member.js, Conversation.leave
       in conversation.js, NXMCall.hangUp and NXMCall.reject in
       modules/nxmCall.js) *)

Module HangUp.

(** The path with the query string of [reason] appended: [reason] is given
    as what [URLSearchParams.toString()] renders for the object. *)
Definition with_reason (path : string) (reason : option string) : string :=
  match reason with
  | Some params => path +:+ "?" +:+ params
  | None => path
  end.

(** [Member.kick(reason)] for a member of the conversation [conversation_id]. *)
Definition kick (conversation_id : string) (this : Member) (reason : option string)
    (reply : completion jsval) (sent : list Request) : completion jsval * list Request :=
  let path := with_reason ("conversations/" +:+ conversation_id +:+ "/members/"
                           +:+ String_ (m_id this)) reason in
  match sendNetworkRequest {| req_method := "DELETE"; req_path := path;
                              req_data_type := JUndefined |} reply sent with
  | (Normal response, sent') => (Normal response, sent')
  | (Abrupt error_, sent') => (Abrupt (NexmoApiError error_), sent')
  end.

(** [Conversation.leave(reason)]: [this.me.kick(reason)]. *)
Definition leave (cr : nat) (reason : option string) (reply : completion jsval)
    (σ : Store) : completion jsval * Store :=
  match conv_heap σ !! cr with
  | None => (Abrupt TypeError, σ)
  | Some conv =>
      match me_member conv with
      | None => (Abrupt TypeError, σ)
      | Some me_ =>
          let '(r, sent) := kick (c_id conv) me_ reason reply (requests σ) in
          (r, set_requests sent σ)
      end
  end.

(** [NXMCall.reject(reason)] *)
Definition reject (this : nat) (reason : option string) (reply : completion jsval)
    (σ : Store) : completion jsval * Store :=
  match call_heap σ !! this with
  | None => (Abrupt TypeError, σ)
  | Some call =>
      match conversation call with
      | Some cr => leave cr reason reply σ
      | None => (Abrupt (NexmoClientError "error:call:reject"), σ)
      end
  end.

(** What the promise of [hangUp] resolves to: the response of the leave
    request, the response of the knocking delete (with the promise of the
    state machine, which is left running), or [undefined]. *)
Inductive HangUpResult :=
| left_conversation (response : jsval)
| knocking_deleted (response : Event) (promise : Promise unit)
| nothing_done.

Definition left_ (r : completion jsval * Store) : completion HangUpResult * Store :=
  match r with
  | (Normal response, σ) => (Normal (left_conversation response), σ)
  | (Abrupt e, σ) => (Abrupt e, σ)
  end.

(** The [catch] of the knocking delete: "Don't switch yet to fail status, it
    could be an expected race between knocking:delete and
    conversation.leave". The debug line of the first branch is not
    recorded. *)
Definition hangUp_catch (this : nat) (reason : option string)
    (leave_reply : completion jsval) (error_ : error) (σ : Store)
    : completion HangUpResult * Store :=
  match call_heap σ !! this with
  | None => (Abrupt TypeError, σ)
  | Some call =>
      match conversation call with
      | None => (Normal nothing_done, σ)
      | Some cr =>
          left_ (leave cr reason leave_reply (log (log_error (NexmoApiError error_)) σ))
      end
  end.

(** The [else] branch of [hangUp]: the knocking delete. The wait for its
    response is one step. *)
Definition hangUp_knocking (this : nat) (call : NXMCall) (reason : option string)
    (knocking_reply : completion Event) (leave_reply : completion jsval) (σ : Store)
    : completion HangUpResult * Store :=
  let path := with_reason ("knocking/" +:+ String_ (knocking_id call)) reason in
  match sendNetworkRequest {| req_method := "DELETE"; req_path := path;
                              req_data_type := JUndefined |}
          knocking_reply (requests σ) with
  | (Abrupt error_, sent) => hangUp_catch this reason leave_reply error_ (set_requests sent σ)
  | (Normal response, sent) =>
      let σ2 := set_requests sent σ in
      match get_by (_call_draft_list σ2) (call_client_ref call) with
      | None => hangUp_catch this reason leave_reply TypeError σ2
      | Some nxmCall =>
          match _handleStatusChange nxmCall response σ2 with
          | (Abrupt e, σ3) => hangUp_catch this reason leave_reply e σ3
          | (Normal promise, σ3) =>
              let σ4 :=
                match call_client_ref <$> call_heap σ3 !! this with
                | Some (JStr ref) =>
                    set_call_draft_list (delete ref (_call_draft_list σ3)) σ3
                | _ => σ3
                end in
              (Normal (knocking_deleted response promise), σ4)
          end
      end
  end.

Section HangUp.

(** [conversation.media.disable()] is taken as given: it may send requests
    and change the store, and its promise resolves or rejects. *)
Variable media_disable : nat → Store → completion unit * Store.

(** [NXMCall.hangUp(reason)]: the [return] inside [finally] is what the
    promise settles with, whatever [Promise.all(disable_promise)] did.
    [knocking_reply] and [leave_reply] are the service's answers to the two
    requests the method may send. *)
Definition hangUp (this : nat) (reason : option string)
    (knocking_reply : completion Event) (leave_reply : completion jsval) (σ : Store)
    : completion HangUpResult * Store :=
  match call_heap σ !! this with
  | None => (Abrupt TypeError, σ)
  | Some call0 =>
      let σ1 :=
        match conversation call0 with
        | Some cr => (media_disable cr σ).2
        | None => σ
        end in
      match call_heap σ1 !! this with
      | None => (Abrupt TypeError, σ1)
      | Some call =>
          match conversation call with
          | Some cr =>
              if negb (truthy (knocking_id call))
              then left_ (leave cr reason leave_reply σ1)
              else hangUp_knocking this call reason knocking_reply leave_reply σ1
          | None => hangUp_knocking this call reason knocking_reply leave_reply σ1
          end
      end
  end.

End HangUp.

End HangUp.
Import HangUp.

(** ** Sending a custom event (Conversation.sendCustomEvent in
       conversation.js) *)

Module ConversationSend.

(** The request that carries an event of the given type to the conversation. *)
Definition event_request (conv : Conversation) (data_type : string) : Request :=
  {| req_method := "POST";
     req_path := "conversations/" +:+ c_id conv +:+ "/events";
     req_data_type := JStr data_type |}.

(** [sendCustomEvent({ type, body })]: both checks are made inside the
    [try], so the [catch] wraps their errors. [reply] is the service's
    answer [{id, timestamp}]. *)
Definition sendCustomEvent (type_ : jsval) (body_ : Body)
    (reply : completion (jsval * jsval)) (st : Conversation * list Request)
    : completion Event * (Conversation * list Request) :=
  let '(this, sent) := st in
  match me_member this with
  | None => (Abrupt (NexmoApiError (NexmoClientError "error:self")), st)
  | Some me_ =>
      match type_ with
      | JStr t =>
          if negb (truthy type_)
          then (Abrupt (NexmoApiError (NexmoClientError "error:custom-event:invalid")), st)
          else
            let data_type := "custom:" +:+ t in
            match sendNetworkRequest (event_request this data_type) reply sent with
            | (Normal (id, timestamp), sent') =>
                (Normal (new_NXMEvent {| type := data_type; cid := c_id this;
                                         from := m_id me_; ev_id := id;
                                         ev_timestamp := timestamp;
                                         client_ref := JUndefined; body := body_ |}),
                 (this, sent'))
            | (Abrupt error_, sent') => (Abrupt (NexmoApiError error_), (this, sent'))
            end
      | _ => (Abrupt (NexmoApiError (NexmoClientError "error:custom-event:invalid")), st)
      end
  end.

End ConversationSend.
Import ConversationSend.

(** ** Receipts (NXMEvent.delivered and NXMEvent.seen in events/nxmEvent.js) *)

Module Receipts.

(** [event.state]: who the event was delivered to and seen by, keyed by
    member id. *)
Record EventState := {
  delivered_to : option (gmap string jsval);
  seen_by : option (gmap string jsval)
}.

Definition set_type (t : string) (e : Event) : Event :=
  {| type := t; cid := cid e; from := from e; ev_id := ev_id e;
     ev_timestamp := ev_timestamp e; client_ref := client_ref e; body := body e |}.

(** The first statement of both methods: an event that is neither a text
    nor an image becomes an 'event'. *)
Definition receipt_type (this : Event) : Event :=
  if negb (String.eqb (type this) "text") && negb (String.eqb (type this) "image")
  then set_type "event" this
  else this.

(** [receipts && receipts[me.id]] *)
Definition has_receipt (receipts : option (gmap string jsval)) (me_id : jsval) : bool :=
  match receipts with
  | Some by_member =>
      match by_member !! String_ me_id with
      | Some v => truthy v
      | None => false
      end
  | None => false
  end.

(** [delivered()] and [seen()] on an event of the conversation [conv] and
    the requests sent. The two errors of the checks are thrown outside the
    [try]. Of the request the model keeps the type, not the event id in its
    body. *)
Definition delivered (conv : Conversation) (state : option EventState)
    (reply : completion unit) (st : Event * list Request)
    : completion unit * (Event * list Request) :=
  let '(this0, sent) := st in
  let this := receipt_type this0 in
  match me_member conv with
  | None => (Abrupt TypeError, (this, sent))
  | Some me_ =>
      if strict_eq (m_id me_) (from this)
      then (Abrupt (NexmoClientError "error:delivered:own-message"), (this, sent))
      else if has_receipt (state ≫= delivered_to) (m_id me_)
      then (Abrupt (NexmoClientError "error:already-delivered"), (this, sent))
      else
        match sendNetworkRequest (event_request conv (type this +:+ ":delivered"))
                reply sent with
        | (Normal _, sent') => (Normal tt, (this, sent'))
        | (Abrupt error_, sent') => (Abrupt (NexmoApiError error_), (this, sent'))
        end
  end.

Definition seen (conv : Conversation) (state : option EventState)
    (reply : completion unit) (st : Event * list Request)
    : completion unit * (Event * list Request) :=
  let '(this0, sent) := st in
  let this := receipt_type this0 in
  match me_member conv with
  | None => (Abrupt TypeError, (this, sent))
  | Some me_ =>
      if strict_eq (m_id me_) (from this)
      then (Abrupt (NexmoClientError "error:seen:own-message"), (this, sent))
      else if has_receipt (state ≫= seen_by) (m_id me_)
      then (Abrupt (NexmoClientError "error:already-seen"), (this, sent))
      else
        match sendNetworkRequest (event_request conv (type this +:+ ":seen"))
                reply sent with
        | (Normal _, sent') => (Normal tt, (this, sent'))
        | (Abrupt error_, sent') => (Abrupt (NexmoApiError error_), (this, sent'))
        end
  end.

End Receipts.
Import Receipts.

(** ** Further observations *)

(** [legs.find((leg) => leg.leg_id === id)] *)
Fixpoint find_leg (lid : jsval) (legs : list Leg) : option Leg :=
  match legs with
  | [] => None
  | l :: rest => if strict_eq (leg_id l) lid then Some l else find_leg lid rest
  end.

(** How far a status is along the permitted flow: uninitialized, then the
    statuses that still have outgoing transitions (the flow map is keyed by
    the upper-cased status), then everything else. *)
Definition status_rank (v : jsval) : nat :=
  match v with
  | JStr s =>
      if String.eqb s EmptyString then 0
      else if String.eqb (toUpperCase s) "STARTED" then 1
      else if String.eqb (toUpperCase s) "RINGING" then 2
      else if String.eqb (toUpperCase s) "ANSWERED" then 3
      else 4
  | _ => 0
  end.

(** A caller that sets one status after the other on the same call,
    carrying on after a call that threw. *)
Definition setStatus_each (this : nat) (args : list jsval) (σ : Store) : Store :=
  foldl (λ s a, (_setStatusAndEmit this a s).2) σ args.

(** Between two stores the status of the call at [this] stayed, with
    nothing emitted, or moved up in rank to one of the statuses of
    [CALL_STATUS], with exactly one call:status:changed emitted for it. *)
Definition status_step (this : nat) (σ σ' : Store) : Prop :=
  (status_of σ' this = status_of σ this ∧ app_emitted σ' = app_emitted σ)
  ∨ (∃ old k, status_of σ this = Some old
              ∧ status_of σ' this = Some (JStr (CALL_STATUS k))
              ∧ status_rank old < status_rank (JStr (CALL_STATUS k))
              ∧ app_emitted σ'
                = app_emitted σ ++ [call_status_changed this (JStr (CALL_STATUS k))]).

(** Between two stores nothing but the call at [this] and the log changed. *)
Definition same_elsewhere (this : nat) (σ σ' : Store) : Prop :=
  calls σ' = calls σ
  ∧ _call_draft_list σ' = _call_draft_list σ
  ∧ conversations σ' = conversations σ
  ∧ conv_heap σ' = conv_heap σ
  ∧ requests σ' = requests σ
  ∧ ∀ r, r ≠ this → call_heap σ' !! r = call_heap σ !! r.

(** How many call:status:changed notifications for the call at [this] a
    log of the application's emissions holds. *)
Fixpoint status_changes (this : nat) (l : list AppEmission) : nat :=
  match l with
  | [] => 0
  | call_status_changed r _ :: rest =>
      if bool_decide (r = this) then S (status_changes this rest)
      else status_changes this rest
  | _ :: rest => status_changes this rest
  end.

(** What can happen to the store over the life of the call at [this]: the
    call handles an event ([_handleStatusChange], also when [hangUp] calls
    it with the response of the knocking delete); the rest of a
    [member:joined] handler is resumed when the enabling of the media has
    ended; [answer] or [createCall] catch a failure and set FAILED; or other
    code runs (the enabling itself, other calls, the conversations), which
    neither sets this call's status nor announces a status change for it:
    the places named before are the only ones in nxmCall.js that call
    [_setStatusAndEmit], and [_setStatusAndEmit] is the only place that
    assigns a status after the constructor or emits call:status:changed.
    Events, waits and other code interleave in any order. *)
Inductive call_run (this : nat) : Store → Store → Prop :=
| run_end (σ : Store) : call_run this σ σ
| run_event (event : Event) (σ σ' : Store) :
    call_run this (_handleStatusChange this event σ).2 σ' → call_run this σ σ'
| run_resume (outcome : completion unit) (σ σ' : Store) :
    call_run this (joined_resume this outcome σ).2 σ' → call_run this σ σ'
| run_failed (σ σ' : Store) :
    call_run this (_setStatusAndEmit this (JStr (CALL_STATUS FAILED)) σ).2 σ' →
    call_run this σ σ'
| run_other (σ σ1 σ' : Store) :
    status_of σ1 this = status_of σ this →
    status_changes this (app_emitted σ1) = status_changes this (app_emitted σ) →
    call_run this σ1 σ' → call_run this σ σ'.

(** The status a [sip:hangup] with the given reason code asks for. *)
Definition sip_code_status (code : Z) : option CALL_STATUS_key :=
  if (code =? 486)%Z then Some BUSY
  else if (code =? 487)%Z then Some TIMEOUT
  else if (code =? 403)%Z then Some FAILED
  else None.

(** [events.get(k)] on the [Map] kept as a list. *)
Fixpoint events_get (k : jsval) (l : list (jsval * Event)) : option Event :=
  match l with
  | [] => None
  | (k', v) :: rest => if strict_eq k' k then Some v else events_get k rest
  end.

(** The request [sendDTMF] sends for the conversation [conv]. *)
Definition dtmf_request (conv : Conversation) : Request :=
  {| req_method := "POST";
     req_path := "conversations/" +:+ c_id conv +:+ "/events";
     req_data_type := JStr "audio:dtmf" |}.

(** The listeners of a group, in order. *)
Definition group_listeners (g : string) (c : Conversation) : list (string * string) :=
  filter (λ l, l.2 = g) (listeners c).

(** ** Further concrete objects *)

Definition sip_hangup_busy_event : Event :=
  Examples.event_ "sip:hangup" "CON-1" (JStr "bob")
    {| b_channel := None; b_audio := false; b_invited_by := JUndefined;
       b_user := None; b_timestamp := None;
       b_reason := Some {| sip_code := Some 486%Z; reason_text := JUndefined |};
       b_status := JUndefined; b_leg_id := JUndefined; b_media := None;
       b_transferred_from := EmptyString; b_was_member := JUndefined;
       b_rtc_id := JUndefined; b_event_id := None |}.

Definition sip_ringing_event : Event :=
  Examples.event_ "sip:ringing" "CON-1" (JStr "bob") empty_body.

(** A member:left event of a member that never joined. *)
Definition left_event : Event :=
  Examples.event_ "member:left" "CON-1" (JStr "bob")
    {| b_channel := None; b_audio := false; b_invited_by := JUndefined;
       b_user := None;
       b_timestamp := Some {| ts_invited := Some "t0"; ts_joined := None;
                              ts_left := Some "t2" |};
       b_reason := None;
       b_status := JUndefined; b_leg_id := JUndefined; b_media := None;
       b_transferred_from := EmptyString; b_was_member := JUndefined;
       b_rtc_id := JUndefined; b_event_id := None |}.

(** A member:invited event of an inbound call: nobody invited, the user
    comes with audio settings that are not enabled. *)
Definition invited_event : Event :=
  Examples.event_ "member:invited" "CON-1" (JStr "bob")
    {| b_channel := None; b_audio := false; b_invited_by := JNull;
       b_user := Some {| eu_user_id := JUndefined; eu_id := JStr "USR-bob";
                         eu_name := JStr "bob"; eu_display_name := JUndefined;
                         eu_media := Some {| audio_settings :=
                                               Some {| as_enabled := false |} |} |};
       b_timestamp := Some {| ts_invited := Some "t0"; ts_joined := None;
                              ts_left := None |};
       b_reason := None;
       b_status := JUndefined; b_leg_id := JUndefined; b_media := None;
       b_transferred_from := EmptyString; b_was_member := JUndefined;
       b_rtc_id := JUndefined; b_event_id := None |}.

(** The event types the call's state machine has a handler for. *)
Definition status_event_types : list string :=
  ["member:joined"; "member:invited"; "rtc:hangup"; "member:left"; "member:media";
   "sip:ringing"; "sip:hangup"; "knocking:delete:success"].

(** An rtc:answer event carrying the id of the answered leg. *)
Definition answer_event : Event :=
  Examples.event_ "rtc:answer" "CON-1" (JStr "alice")
    {| b_channel := None; b_audio := false; b_invited_by := JUndefined;
       b_user := None; b_timestamp := None; b_reason := None;
       b_status := JUndefined; b_leg_id := JUndefined; b_media := None;
       b_transferred_from := EmptyString; b_was_member := JUndefined;
       b_rtc_id := JStr "rtc-1"; b_event_id := None |}.

(** The member:media event of the other party, with audio. *)
Definition remote_media_event : Event :=
  Examples.event_ "member:media" "CON-1" (JStr "bob") Examples.media_body.

(** A server call still in the draft list: its knocking request was
    answered with the id knock-1, its conversation is not known yet. *)
Definition draft_call : NXMCall :=
  set_knocking_id (JStr "knock-1")
    (set_client_ref (JStr "uuid-1") (set_direction OUTBOUND new_NXMCall)).

Definition store_draft : Store :=
  {| conversations := {[ "CON-1" := 1; "CON-2" := 2 ]};
     calls := ∅;
     _call_draft_list := {[ "uuid-1" := 0 ]};
     conv_heap := {[ 1 := Examples.conv_ "CON-1"; 2 := Examples.conv_ "CON-2" ]};
     call_heap := {[ 0 := draft_call ]};
     app_emitted := [];
     logged := [];
     requests := [] |}.

(** The response of the service to a knocking delete. *)
Definition knocking_deleted_event : Event :=
  Examples.event_ "knocking:delete:success" "CON-1" JUndefined empty_body.

(** A store whose conversation CON-1 has its media enabled: a peer
    connection and one leg. *)
Definition store_with_media (call : NXMCall) : Store :=
  set_conv_heap
    (<[1 := set_media {| rtcObjects := {[ "leg-1" := 7 ]}; pc := Some 7 |}
              (Examples.conv_ "CON-1")]> (conv_heap (Examples.store_ call)))
    (Examples.store_ call).

(** A run of [disable] for the examples: the peer connection is dropped,
    the DELETE of each leg is sent (its query string left out) and refused,
    so that the leg stays and the promise rejects. *)
Definition disable_refused (cr : nat) (σ : Store) : completion unit * Store :=
  match conv_heap σ !! cr with
  | None => (Abrupt TypeError, σ)
  | Some conv =>
      (Abrupt (NexmoApiError (NetworkError (JStr "system:error"))),
       set_requests
         (requests σ
          ++ ((λ leg, {| req_method := "DELETE";
                         req_path := "conversations/" +:+ c_id conv +:+ "/rtc/" +:+ leg.1;
                         req_data_type := JUndefined |})
              <$> map_to_list (rtcObjects (media conv))))
         (set_conv_heap
            (<[cr := set_media {| rtcObjects := rtcObjects (media conv); pc := None |} conv]>
               (conv_heap σ)) σ))
  end.

(** * Properties *)

(** ** The call status state machine *)

Lemma truthy_status (k : CALL_STATUS_key) : truthy (JStr (CALL_STATUS k)) = true.
Proof. by destruct k. Qed.

(** The validation agrees with the table of the specification on every
    pair of statuses. *)
Lemma isValidStatusTransition_table (call : NXMCall) from_status to_status :
  status call = status_value from_status →
  _isValidStatusTransition call (JStr (CALL_STATUS to_status))
  = Normal (permitted_flow_table from_status to_status).
Proof.
  intros Hst. unfold _isValidStatusTransition. rewrite Hst.
  destruct from_status as [[]|], to_status; vm_compute; reflexivity.
Qed.

(** With a truthy argument the validation answers; it does not throw. *)
Lemma isValidStatusTransition_total (call : NXMCall) (status_ : jsval) :
  truthy status_ = true →
  ∃ b, _isValidStatusTransition call status_ = Normal b.
Proof.
  intros Ht. unfold _isValidStatusTransition. rewrite Ht. simpl.
  destruct (truthy (status call)) eqn:Hc; simpl; [|eauto].
  destruct (status call) as [| |s]; try discriminate.
  destruct (STATUS_PERMITTED_FLOW !! toUpperCase s); [|eauto].
  destruct (strict_eq _ _); eauto.
Qed.

Lemma setStatusAndEmit_accepted σ this call status_ :
  call_heap σ !! this = Some call →
  _isValidStatusTransition call status_ = Normal true →
  _setStatusAndEmit this status_ σ
  = (Normal tt, app_emit (call_status_changed this status_)
                  (update_call this (set_status status_ call) σ)).
Proof. intros Hc Hv. unfold _setStatusAndEmit. by rewrite Hc, Hv. Qed.

Lemma setStatusAndEmit_refused σ this call status_ :
  call_heap σ !! this = Some call →
  _isValidStatusTransition call status_ = Normal false →
  _setStatusAndEmit this status_ σ
  = (Normal tt, log (log_warn ("status attempt switch from " +:+ String_ (status call)
                               +:+ " to " +:+ String_ status_)) σ).
Proof. intros Hc Hv. unfold _setStatusAndEmit. by rewrite Hc, Hv. Qed.

Lemma status_of_accepted σ this call status_ :
  status_of (app_emit (call_status_changed this status_)
               (update_call this (set_status status_ call) σ)) this = Some status_.
Proof. unfold status_of. simpl. by rewrite lookup_insert_eq. Qed.

(** C1: setting the status from [from_status] to [to_status] follows the
    permitted-flow table. For a pair of the table the new status is assigned
    and exactly one call:status:changed event is emitted; for a pair outside
    the table (in particular when the target is the current status, or the
    current status is terminal) the call objects are unchanged and nothing is
    emitted. *)
Theorem setStatusAndEmit_obeys_permitted_flow
    (σ : Store) (this : nat) (call : NXMCall)
    (from_status : option CALL_STATUS_key) (to_status : CALL_STATUS_key) :
  call_heap σ !! this = Some call →
  status call = status_value from_status →
  ∃ σ', _setStatusAndEmit this (JStr (CALL_STATUS to_status)) σ = (Normal tt, σ')
    ∧ (permitted_flow_table from_status to_status = true →
         status_of σ' this = Some (JStr (CALL_STATUS to_status))
         ∧ app_emitted σ'
           = app_emitted σ ++ [call_status_changed this (JStr (CALL_STATUS to_status))])
    ∧ (permitted_flow_table from_status to_status = false →
         call_heap σ' = call_heap σ ∧ app_emitted σ' = app_emitted σ)
    ∧ (from_status = Some to_status → permitted_flow_table from_status to_status = false)
    ∧ (∀ k, from_status = Some k → terminal k = true →
         permitted_flow_table from_status to_status = false).
Proof.
  intros Hc Hst.
  pose proof (isValidStatusTransition_table call from_status to_status Hst) as Hv.
  destruct (permitted_flow_table from_status to_status) eqn:Hp.
  - eexists. split; [by apply setStatusAndEmit_accepted|].
    split; [intros _; split; [apply status_of_accepted | reflexivity]|].
    split; [discriminate|].
    split.
    + intros ->. by destruct to_status.
    + intros k -> Hk. by destruct k.
  - eexists. split; [by apply setStatusAndEmit_refused|].
    split; [discriminate|]. by repeat split.
Qed.

Lemma setStatusAndEmit_by_table σ this call from_status to_status :
  call_heap σ !! this = Some call →
  status call = status_value from_status →
  _setStatusAndEmit this (JStr (CALL_STATUS to_status)) σ
  = if permitted_flow_table from_status to_status
    then (Normal tt, app_emit (call_status_changed this (JStr (CALL_STATUS to_status)))
                       (update_call this (set_status (JStr (CALL_STATUS to_status)) call) σ))
    else (Normal tt, log (log_warn ("status attempt switch from " +:+ String_ (status call)
                                    +:+ " to " +:+ CALL_STATUS to_status)) σ).
Proof.
  intros Hc Hst.
  pose proof (isValidStatusTransition_table call from_status to_status Hst) as Hv.
  destruct (permitted_flow_table from_status to_status).
  - by apply setStatusAndEmit_accepted.
  - by apply setStatusAndEmit_refused.
Qed.

Lemma strict_eq_status (s : option CALL_STATUS_key) (k : CALL_STATUS_key) :
  strict_eq (status_value s) (JStr (CALL_STATUS k)) = bool_decide (s = Some k).
Proof. destruct s as [[]|], k; vm_compute; reflexivity. Qed.

Lemma handleStatusChange_rtc_hangup σ this call event fromMe :
  call_heap σ !! this = Some call →
  type event = "rtc:hangup" →
  _isEventFromMe σ call event = Normal fromMe →
  _handleStatusChange this event σ
  = on_rtc_hangup this call fromMe (bool_decide (direction call = OUTBOUND)) σ.
Proof.
  intros Hc Ht Hme. unfold _handleStatusChange. by rewrite Hc, Hme, Ht.
Qed.

Lemma handleStatusChange_member_media σ this call event fromMe :
  call_heap σ !! this = Some call →
  type event = "member:media" →
  _isEventFromMe σ call event = Normal fromMe →
  _handleStatusChange this event σ
  = on_member_media this call event fromMe (bool_decide (direction call = OUTBOUND)) σ.
Proof.
  intros Hc Ht Hme. unfold _handleStatusChange. by rewrite Hc, Hme, Ht.
Qed.

Lemma isEventFromMe_without_conversation σ call event :
  conversation call = None → _isEventFromMe σ call event = Normal true.
Proof. intros H. unfold _isEventFromMe. by rewrite H. Qed.

(** C7 (as the code has it): a status argument that is a non-empty string
    never makes the operation throw; when its validation fails the call
    objects are unchanged, nothing is emitted and one warning is logged. A
    null, undefined or empty argument makes the validation throw a client
    error, which leaves the operation with the store untouched. *)
Theorem setStatusAndEmit_validation_failure
    (σ : Store) (this : nat) (call : NXMCall) (status_ : jsval) :
  call_heap σ !! this = Some call →
  (truthy status_ = true →
     ∃ σ', _setStatusAndEmit this status_ σ = (Normal tt, σ')
       ∧ (_isValidStatusTransition call status_ = Normal false →
            call_heap σ' = call_heap σ
            ∧ app_emitted σ' = app_emitted σ
            ∧ ∃ msg, logged σ' = logged σ ++ [log_warn msg]))
  ∧ (truthy status_ = false →
       ∃ msg, _setStatusAndEmit this status_ σ = (Abrupt (NexmoClientError msg), σ)).
Proof.
  intros Hc. split; intros Ht.
  - destruct (isValidStatusTransition_total call status_ Ht) as [[] Hv].
    + eexists. split; [by apply setStatusAndEmit_accepted|].
      rewrite Hv. discriminate.
    + eexists. split; [by apply setStatusAndEmit_refused|].
      intros _. simpl. eauto.
  - unfold _setStatusAndEmit, _isValidStatusTransition. rewrite Hc, Ht. simpl. eauto.
Qed.

(** C2 (as the code has it): an rtc:hangup event on a call whose
    conversation, if any, knows the local member. From ANSWERED the status
    becomes COMPLETED whatever the direction and the origin. From the
    uninitialized status, STARTED or RINGING it becomes UNANSWERED when the
    event is local and the call outbound or the event remote and the call
    inbound, and REJECTED otherwise. From a terminal status the transition
    is refused: the call objects are unchanged and nothing is emitted. A call
    without a conversation takes the event as its own. *)
Theorem rtc_hangup_status
    (σ : Store) (this : nat) (call : NXMCall) (event : Event) (fromMe : bool)
    (from_status : option CALL_STATUS_key) :
  call_heap σ !! this = Some call →
  type event = "rtc:hangup" →
  _isEventFromMe σ call event = Normal fromMe →
  status call = status_value from_status →
  let outbound := bool_decide (direction call = OUTBOUND) in
  (conversation call = None → fromMe = true)
  ∧ ∃ σ', _handleStatusChange this event σ = (Normal (Settled (Normal tt)), σ')
      ∧ (from_status = Some ANSWERED →
           status_of σ' this = Some (JStr (CALL_STATUS COMPLETED)))
      ∧ (from_status = None ∨ from_status = Some STARTED ∨ from_status = Some RINGING →
           status_of σ' this
           = Some (JStr (CALL_STATUS
                           (if (fromMe && outbound) || (negb fromMe && negb outbound)
                            then UNANSWERED else REJECTED))))
      ∧ (∀ k, from_status = Some k → terminal k = true →
           call_heap σ' = call_heap σ ∧ app_emitted σ' = app_emitted σ).
Proof.
  intros Hc Ht Hme Hst outbound. split.
  { intros Hnone. rewrite (isEventFromMe_without_conversation σ call event Hnone) in Hme.
    by injection Hme. }
  rewrite (handleStatusChange_rtc_hangup σ this call event fromMe Hc Ht Hme).
  unfold on_rtc_hangup. fold outbound. rewrite Hst, strict_eq_status.
  case_bool_decide as Hans.
  - rewrite (setStatusAndEmit_by_table σ this call from_status COMPLETED Hc Hst).
    subst from_status. simpl. eexists. split; [reflexivity|].
    split; [intros _; apply status_of_accepted|].
    split; [intros [|[|]]; discriminate|].
    intros k [= <-]. discriminate.
  - rewrite (setStatusAndEmit_by_table σ this call from_status
               (unanswered_or_rejected fromMe outbound) Hc Hst).
    unfold unanswered_or_rejected.
    destruct ((fromMe && outbound) || (negb fromMe && negb outbound));
      destruct from_status as [[]|]; simpl; try done;
      (eexists; split; [reflexivity|]);
      (split; [done|]);
      (split; [intros [|[|]]; try discriminate; apply status_of_accepted|]);
      try (intros k [= <-]; try discriminate; intros _; by split);
      intros k; discriminate.
Qed.

Lemma call_heap_update_call σ r c : call_heap (update_call r c σ) !! r = Some c.
Proof. simpl. apply lookup_insert_eq. Qed.

(** C6 (as the code has it): a member:media event on a call whose
    conversation, if any, knows the local member. With audio indicated and
    the status not ANSWERED, the call's id becomes the id of the event's
    channel exactly when the event is local (and carries a channel); from the
    uninitialized status, STARTED or RINGING the status becomes ANSWERED
    exactly when the id is then known and the event is not both local and on
    an outbound call; from a terminal status the id is captured all the same
    but the transition is refused, the status stays and nothing is emitted.
    When the status is ANSWERED or the event has no audio, nothing changes. *)
Theorem member_media_status
    (σ : Store) (this : nat) (call : NXMCall) (event : Event) (fromMe : bool)
    (from_status : option CALL_STATUS_key) :
  call_heap σ !! this = Some call →
  type event = "member:media" →
  _isEventFromMe σ call event = Normal fromMe →
  status call = status_value from_status →
  let outbound := bool_decide (direction call = OUTBOUND) in
  let leg := captured_id call event fromMe in
  (from_status ≠ Some ANSWERED → b_audio (body event) = true →
     ∃ σ', _handleStatusChange this event σ = (Normal (Settled (Normal tt)), σ')
       ∧ id_of σ' this = Some leg
       ∧ (from_status = None ∨ from_status = Some STARTED ∨ from_status = Some RINGING →
            status_of σ' this
            = Some (if negb (fromMe && outbound) && truthy leg
                    then JStr (CALL_STATUS ANSWERED) else status call))
       ∧ (∀ k, from_status = Some k → terminal k = true →
            status_of σ' this = Some (status call) ∧ app_emitted σ' = app_emitted σ))
  ∧ (from_status = Some ANSWERED ∨ b_audio (body event) = false →
       _handleStatusChange this event σ = (Normal (Settled (Normal tt)), σ)).
Proof.
  intros Hc Ht Hme Hst outbound leg.
  rewrite (handleStatusChange_member_media σ this call event fromMe Hc Ht Hme).
  unfold on_member_media. fold outbound. rewrite Hst, strict_eq_status.
  split.
  - intros Hna Haudio. rewrite Haudio. rewrite bool_decide_eq_false_2 by done. simpl.
    set (call1 := match b_channel (body event) with
                  | Some c => if fromMe then set_id (ch_id c) call else call
                  | None => call
                  end).
    assert (Hid : id call1 = leg).
    { unfold call1, leg, captured_id. destruct (b_channel (body event)); [|done].
      by destruct fromMe. }
    assert (Hst1 : status call1 = status_value from_status).
    { unfold call1. destruct (b_channel (body event)); [|done]. by destruct fromMe. }
    rewrite Hid.
    replace (negb fromMe || negb outbound) with (negb (fromMe && outbound))
      by (by destruct fromMe, outbound).
    destruct (negb (fromMe && outbound) && truthy leg) eqn:Hgo.
    + change "answered" with (CALL_STATUS ANSWERED).
      rewrite (setStatusAndEmit_by_table (update_call this call1 σ) this call1
                 from_status ANSWERED (call_heap_update_call σ this call1) Hst1).
      destruct (permitted_flow_table from_status ANSWERED) eqn:Hp; simpl.
      * eexists. split; [reflexivity|]. unfold id_of, status_of. simpl.
        rewrite !lookup_insert_eq. simpl. rewrite Hid.
        split; [done|]. split; [done|].
        intros k -> Hk. by destruct k.
      * eexists. split; [reflexivity|]. unfold id_of, status_of. simpl.
        rewrite !lookup_insert_eq. simpl. rewrite Hid, Hst1.
        split; [done|].
        split; [intros [Hx|[Hx|Hx]]; rewrite Hx in Hp; discriminate|]. done.
    + eexists. split; [reflexivity|]. unfold id_of, status_of. simpl.
      rewrite !lookup_insert_eq. simpl. rewrite Hid, Hst1. done.
  - intros [->|Haudio].
    + by rewrite bool_decide_eq_true_2.
    + rewrite Haudio. by rewrite andb_false_r.
Qed.

(** ** Witnesses and counterexamples for the state machine *)

Lemma setStatusAndEmit_obeys_permitted_flow_witness :
  ∃ σ', _setStatusAndEmit 0 (JStr (CALL_STATUS RINGING))
          (Examples.store_ (Examples.call_ (JStr "started") OUTBOUND (Some 1)))
        = (Normal tt, σ')
    ∧ status_of σ' 0 = Some (JStr "ringing")
    ∧ app_emitted σ' = [call_status_changed 0 (JStr "ringing")].
Proof.
  destruct (setStatusAndEmit_obeys_permitted_flow
              (Examples.store_ (Examples.call_ (JStr "started") OUTBOUND (Some 1)))
              0 (Examples.call_ (JStr "started") OUTBOUND (Some 1))
              (Some STARTED) RINGING eq_refl eq_refl)
    as (σ' & Hrun & Hok & _).
  exists σ'. split; [exact Hrun|]. exact (Hok eq_refl).
Defined.

Lemma setStatusAndEmit_validation_failure_witness :
  ∃ σ', _setStatusAndEmit 0 (JStr "started")
          (Examples.store_ (Examples.call_ (JStr "completed") OUTBOUND (Some 1)))
        = (Normal tt, σ').
Proof.
  destruct (setStatusAndEmit_validation_failure
              (Examples.store_ (Examples.call_ (JStr "completed") OUTBOUND (Some 1)))
              0 (Examples.call_ (JStr "completed") OUTBOUND (Some 1))
              (JStr "started") eq_refl)
    as [Hok _].
  destruct (Hok eq_refl) as (σ' & Hrun & _). by exists σ'.
Defined.

(** C7, against the claim as stated: with the status argument [null],
    [undefined] or the empty string the operation throws (a client error). *)
Lemma setStatusAndEmit_null_throws :
  is_abrupt (_setStatusAndEmit 0 JNull
               (Examples.store_ (Examples.call_ (JStr "started") OUTBOUND (Some 1)))).1
  = true
  ∧ is_abrupt (_setStatusAndEmit 0 JUndefined
                 (Examples.store_ (Examples.call_ (JStr "started") OUTBOUND (Some 1)))).1
    = true
  ∧ is_abrupt (_setStatusAndEmit 0 (JStr EmptyString)
                 (Examples.store_ (Examples.call_ (JStr "started") OUTBOUND (Some 1)))).1
    = true.
Proof. repeat split; vm_compute; reflexivity. Qed.

Lemma rtc_hangup_status_witness :
  ∃ σ', _handleStatusChange 0 Examples.hangup_event
          (Examples.store_ (Examples.call_ (JStr "started") OUTBOUND (Some 1)))
        = (Normal (Settled (Normal tt)), σ')
    ∧ status_of σ' 0 = Some (JStr "unanswered").
Proof.
  destruct (rtc_hangup_status
              (Examples.store_ (Examples.call_ (JStr "started") OUTBOUND (Some 1)))
              0 (Examples.call_ (JStr "started") OUTBOUND (Some 1))
              Examples.hangup_event true (Some STARTED)
              eq_refl eq_refl eq_refl eq_refl)
    as (_ & σ' & Hrun & _ & Hok & _).
  exists σ'. split; [exact Hrun|]. apply Hok. right. by left.
Defined.

(** C2, against the claim as stated: a local rtc:hangup on an outbound call
    that is already COMPLETED (so not in ANSWERED) does not produce
    UNANSWERED; the call stays COMPLETED. *)
Lemma rtc_hangup_on_completed_call :
  status (Examples.call_ (JStr "completed") OUTBOUND (Some 1)) ≠ JStr (CALL_STATUS ANSWERED)
  ∧ _isEventFromMe (Examples.store_ (Examples.call_ (JStr "completed") OUTBOUND (Some 1)))
      (Examples.call_ (JStr "completed") OUTBOUND (Some 1)) Examples.hangup_event
    = Normal true
  ∧ status_of (_handleStatusChange 0 Examples.hangup_event
                 (Examples.store_ (Examples.call_ (JStr "completed") OUTBOUND (Some 1)))).2 0
    ≠ Some (JStr (CALL_STATUS UNANSWERED)).
Proof. split; [discriminate|]. split; [vm_compute; reflexivity|]. vm_compute. discriminate. Qed.

Lemma member_media_status_witness :
  ∃ σ', _handleStatusChange 0 Examples.media_event
          (Examples.store_ (Examples.call_ (JStr "started") INBOUND (Some 1)))
        = (Normal (Settled (Normal tt)), σ')
    ∧ id_of σ' 0 = Some (JStr "leg-1")
    ∧ status_of σ' 0 = Some (JStr "answered").
Proof.
  destruct (member_media_status
              (Examples.store_ (Examples.call_ (JStr "started") INBOUND (Some 1)))
              0 (Examples.call_ (JStr "started") INBOUND (Some 1))
              Examples.media_event true (Some STARTED)
              eq_refl eq_refl eq_refl eq_refl)
    as [Hon _].
  destruct (Hon ltac:(discriminate) eq_refl) as (σ' & Hrun & Hid & Hok & _).
  exists σ'. split; [exact Hrun|]. split; [exact Hid|]. apply Hok. right. by left.
Defined.

(** C6, against the claim as stated: a local member:media event with audio
    on an inbound call that is already COMPLETED (so not in ANSWERED) leaves
    the leg id known, and still the call does not become ANSWERED. *)
Lemma member_media_on_completed_call :
  status (Examples.call_ (JStr "completed") INBOUND (Some 1)) ≠ JStr (CALL_STATUS ANSWERED)
  ∧ b_audio (body Examples.media_event) = true
  ∧ (truthy <$> id_of (_handleStatusChange 0 Examples.media_event
                         (Examples.store_ (Examples.call_ (JStr "completed") INBOUND (Some 1)))).2 0)
    = Some true
  ∧ status_of (_handleStatusChange 0 Examples.media_event
                 (Examples.store_ (Examples.call_ (JStr "completed") INBOUND (Some 1)))).2 0
    ≠ Some (JStr (CALL_STATUS ANSWERED)).
Proof.
  split; [discriminate|]. split; [reflexivity|]. split; [vm_compute; reflexivity|].
  vm_compute. discriminate.
Qed.

(** ** The conversation's sequence number *)


Lemma events_get_set_eq k v l : events_get k (events_set k v l) = Some v.
Proof.
  induction l as [|[k' v'] l IH]; simpl.
  - unfold strict_eq. by rewrite bool_decide_eq_true_2.
  - destruct (strict_eq k' k) eqn:Hk; simpl.
    + unfold strict_eq. by rewrite bool_decide_eq_true_2.
    + by rewrite Hk.
Qed.







(** From 2^53 on the counter no longer goes up by one: there [++] gives
    back the number it was given. *)
Lemma sequence_number_stops_at_2_53 :
  sequence_number
    (Conversation._handleEvent plain_handleEvent parseInt Examples.text_event
       (set_sequence_number (JInt (2 ^ 53)) (Examples.conv_ "CON-1"))).2
  = JInt (2 ^ 53).
Proof. by vm_compute. Qed.

(** ** Member call status *)

Arguments _setCallStatusAndEmit : simpl never.

Lemma setCallStatusAndEmit_eq (v : jsval) (m : Member) (l : list ConvEmission) :
  _setCallStatusAndEmit v (m, l)
  = if strict_eq (callStatus m) (JStr (String_ v))
    then (m, l)
    else (set_callStatus v m, l ++ [member_call_status (set_callStatus v m)]).
Proof. unfold _setCallStatusAndEmit. by destruct (strict_eq _ _). Qed.

Lemma call_status_emissions_snoc (l : list ConvEmission) (m : Member) :
  call_status_emissions (l ++ [member_call_status m]) = S (call_status_emissions l).
Proof. induction l as [|[] l IH]; simpl; congruence. Qed.

Lemma setCallStatusAndEmit_le (v : jsval) (m : Member) (l : list ConvEmission) :
  call_status_emissions (_setCallStatusAndEmit v (m, l)).2 ≤ S (call_status_emissions l).
Proof.
  rewrite setCallStatusAndEmit_eq. destruct (strict_eq _ _); simpl; [lia|].
  rewrite call_status_emissions_snoc. lia.
Qed.

(** After a string status has been set, the member holds that string. *)
Lemma setCallStatusAndEmit_holds (s : string) (m : Member) (l : list ConvEmission) :
  callStatus (_setCallStatusAndEmit (JStr s) (m, l)).1 = JStr s.
Proof.
  rewrite setCallStatusAndEmit_eq. unfold strict_eq. simpl.
  case_bool_decide; simpl; done.
Qed.

(** Setting the string the member already holds changes nothing. *)
Lemma setCallStatusAndEmit_same (s : string) (m : Member) (l : list ConvEmission) :
  callStatus m = JStr s → _setCallStatusAndEmit (JStr s) (m, l) = (m, l).
Proof.
  intros H. rewrite setCallStatusAndEmit_eq, H. unfold strict_eq. simpl.
  by rewrite bool_decide_eq_true_2.
Qed.

(** Setting a string status a second time, on a member that kept the call
    status of the first time, emits nothing. *)
Lemma setCallStatusAndEmit_again (s : string) (m m2 : Member) (l : list ConvEmission) :
  callStatus m2 = callStatus (_setCallStatusAndEmit (JStr s) (m, l)).1 →
  (_setCallStatusAndEmit (JStr s) (m2, (_setCallStatusAndEmit (JStr s) (m, l)).2)).2
  = (_setCallStatusAndEmit (JStr s) (m, l)).2.
Proof.
  intros H. rewrite setCallStatusAndEmit_holds in H.
  by rewrite (setCallStatusAndEmit_same s m2 _ H).
Qed.

Lemma truthy_is_string (v : jsval) : truthy v = true → ∃ s, v = JStr s.
Proof. destruct v; try discriminate. eauto. Qed.

(** The same event handled twice in a row: the second time nothing is
    emitted, as long as a leg:status:update carries a string status. *)
Lemma member_handleEvent_twice (event : Event) (m : Member) (l : list ConvEmission) :
  (type event = "leg:status:update" → ∃ s, b_status (body event) = JStr s) →
  (Member._handleEvent event (Member._handleEvent event (m, l)).2).2.2
  = (Member._handleEvent event (m, l)).2.2
  ∧ call_status_emissions (Member._handleEvent event (m, l)).2.2
    ≤ S (call_status_emissions l).
Proof.
  intros Hleg. unfold Member._handleEvent.
  destruct (String.eqb (type event) "member:invited").
  { destruct (b_timestamp (body event)); simpl; [|split; [done|lia]].
    destruct (negb (truthy (b_invited_by (body event)))); simpl; [|split; [done|lia]].
    destruct (b_user (body event)) as [u|]; simpl; [|split; [done|lia]].
    destruct (audio_enabled u); simpl; [|split; [done|lia]].
    split; [|apply setCallStatusAndEmit_le].
    destruct (_setCallStatusAndEmit (JStr "started") _) as [m1 l1] eqn:H1. simpl.
    pose proof (setCallStatusAndEmit_holds "started"
                  (set_m_state (JStr "INVITED") (_normalise (body event) m)) l) as Hh.
    rewrite H1 in Hh. simpl in Hh.
    by rewrite setCallStatusAndEmit_same. }
  destruct (String.eqb (type event) "member:joined").
  { destruct (b_timestamp (body event)); simpl; [|split; [done|lia]].
    destruct (b_channel (body event)) as [c|]; simpl; [|split; [done|lia]].
    destruct (truthy (ch_knocking_id c)); simpl; [|split; [done|lia]].
    split; [|apply setCallStatusAndEmit_le].
    destruct (_setCallStatusAndEmit (JStr "started") _) as [m1 l1] eqn:H1. simpl.
    pose proof (setCallStatusAndEmit_holds "started"
                  (set_m_state (JStr "JOINED") (_normalise (body event) m)) l) as Hh.
    rewrite H1 in Hh. simpl in Hh.
    by rewrite setCallStatusAndEmit_same. }
  destruct (String.eqb (type event) "member:left").
  { destruct (b_timestamp (body event)); simpl; [|split; [done|lia]].
    destruct (b_reason (body event)) as [r|]; simpl; [|split; [done|lia]].
    destruct (truthy (reason_text r)) eqn:Ht; simpl; [|split; [done|lia]].
    destruct (truthy_is_string _ Ht) as [s Hs]. rewrite Hs.
    split; [|apply setCallStatusAndEmit_le].
    destruct (_setCallStatusAndEmit (JStr s) _) as [m1 l1] eqn:H1. simpl.
    pose proof (setCallStatusAndEmit_holds s
                  (set_m_state (JStr "LEFT") (_normalise (body event) m)) l) as Hh.
    rewrite H1 in Hh. simpl in Hh.
    by rewrite setCallStatusAndEmit_same. }
  destruct (String.eqb (type event) "member:media"); [simpl; split; [done|lia]|].
  destruct (String.eqb (type event) "leg:status:update") eqn:Hty.
  { apply String.eqb_eq in Hty. destruct (Hleg Hty) as [s Hs]. rewrite Hs.
    split; [|apply setCallStatusAndEmit_le].
    destruct (_setCallStatusAndEmit (JStr s) _) as [m1 l1] eqn:H1. simpl.
    match type of H1 with
    | _setCallStatusAndEmit _ (?m0, _) = _ =>
        pose proof (setCallStatusAndEmit_holds s m0 l) as Hh
    end.
    rewrite H1 in Hh. simpl in Hh.
    by rewrite setCallStatusAndEmit_same. }
  destruct (String.eqb (type event) "audio:ringing:start"); [|simpl; split; [done|lia]].
  destruct (negb (truthy (callStatus m)) || strict_eq (callStatus m) (JStr "started")) eqn:Hc.
  - split; [|apply setCallStatusAndEmit_le].
    destruct (_setCallStatusAndEmit (JStr "ringing") (m, l)) as [m1 l1] eqn:H1. simpl.
    pose proof (setCallStatusAndEmit_holds "ringing" m l) as Hh.
    rewrite H1 in Hh. simpl in Hh. rewrite Hh. reflexivity.
  - simpl. rewrite Hc. split; [done|lia].
Qed.

(** C10 (as the code has it): setting a call status that, as a string, is
    the member's current one changes nothing and emits nothing; any other
    value is stored and one member:call:status event is emitted. Hence the
    same driving event handled twice in a row emits nothing the second time
    (so at most one notification in all), provided that the status a
    leg:status:update carries is a string. *)
Theorem member_call_status_change_detecting
    (m : Member) (v : jsval) (l : list ConvEmission) (event : Event) :
  (type event = "leg:status:update" → ∃ s, b_status (body event) = JStr s) →
  (callStatus m = JStr (String_ v) → _setCallStatusAndEmit v (m, l) = (m, l))
  ∧ (callStatus m ≠ JStr (String_ v) →
       _setCallStatusAndEmit v (m, l)
       = (set_callStatus v m, l ++ [member_call_status (set_callStatus v m)]))
  ∧ (Member._handleEvent event (Member._handleEvent event (m, l)).2).2.2
    = (Member._handleEvent event (m, l)).2.2
  ∧ call_status_emissions
      (Member._handleEvent event (Member._handleEvent event (m, l)).2).2.2
    ≤ S (call_status_emissions l).
Proof.
  intros Hleg.
  destruct (member_handleEvent_twice event m l Hleg) as [Hsame Hle].
  split; [|split; [|split]].
  - intros H. rewrite setCallStatusAndEmit_eq. unfold strict_eq.
    by rewrite bool_decide_eq_true_2.
  - intros H. rewrite setCallStatusAndEmit_eq. unfold strict_eq.
    by rewrite bool_decide_eq_false_2.
  - exact Hsame.
  - by rewrite Hsame.
Qed.

Lemma member_call_status_change_detecting_witness :
  call_status_emissions
    (Member._handleEvent (Examples.leg_status_event (JStr "ringing"))
       (Member._handleEvent (Examples.leg_status_event (JStr "ringing"))
          (Examples.member_ "bob", [])).2).2.2 ≤ 1.
Proof.
  exact (proj2 (proj2 (proj2
    (member_call_status_change_detecting (Examples.member_ "bob") (JStr "ringing") []
       (Examples.leg_status_event (JStr "ringing"))
       (λ _, ex_intro _ "ringing" eq_refl))))).
Defined.

(** C10, against the claim as stated: a leg:status:update whose status is
    [null], handled twice in a row, emits the notification twice. *)
Lemma duplicate_null_leg_status_emits_twice :
  call_status_emissions
    (Member._handleEvent (Examples.leg_status_event JNull)
       (Member._handleEvent (Examples.leg_status_event JNull)
          (Examples.member_ "bob", [])).2).2.2 = 2.
Proof. vm_compute. reflexivity. Qed.

(** ** Mute: optimistic toggle and rollback *)

Lemma enableMediaTracks_twice (tracks : list MediaTrack) (a b : bool) :
  _enableMediaTracks (_enableMediaTracks tracks a) b = _enableMediaTracks tracks b.
Proof.
  unfold _enableMediaTracks. rewrite <- list_fmap_compose.
  by apply list_fmap_ext.
Qed.

(** When the send fails, every track ends up with [enabled = mute]. *)
Lemma setMediaTracksAndMute_failure conversation_id me_id rtc_id mute mediaType error_
    (tracks : list MediaTrack) (sent : list Request) :
  (_setMediaTracksAndMute conversation_id (Some me_id) rtc_id mute mediaType
     (Abrupt error_) (tracks, sent)).1 = Abrupt (NexmoApiError error_)
  ∧ (_setMediaTracksAndMute conversation_id (Some me_id) rtc_id mute mediaType
       (Abrupt error_) (tracks, sent)).2.1 = _enableMediaTracks tracks mute.
Proof.
  unfold _setMediaTracksAndMute, sendNetworkRequest. simpl.
  split; [reflexivity|]. apply enableMediaTracks_twice.
Qed.

(** That is the state before the call when the request really toggled the
    tracks, that is when they all had [enabled = mute]. *)
Lemma setMediaTracksAndMute_failure_restores_toggled
    conversation_id me_id rtc_id mute mediaType error_
    (tracks : list MediaTrack) (sent : list Request) :
  Forall (λ t, enabled t = mute) tracks →
  (_setMediaTracksAndMute conversation_id (Some me_id) rtc_id mute mediaType
     (Abrupt error_) (tracks, sent)).2.1 = tracks.
Proof.
  intros Hall.
  rewrite (proj2 (setMediaTracksAndMute_failure conversation_id me_id rtc_id mute
                    mediaType error_ tracks sent)).
  induction Hall as [|[i e] ts He _ IH]; [done|].
  simpl in *. by rewrite He, IH.
Qed.

(** C8, the failing input: [mute(false)] (the default argument) on a track
    that is enabled, with the notification rejected by the service. The
    catch sets [enabled] to [mute], and the track that was enabled before the
    call is left disabled. *)
Theorem setMediaTracksAndMute_failed_unmute_disables_track :
  enabled <$> (_setMediaTracksAndMute "CON-1" (Some (JStr "alice")) (JStr "leg-1")
                 false "audio:mute:off" (Abrupt (NetworkError (JStr "system:error")))
                 ([{| track_id := 0; enabled := true |}], [])).2.1
  = [false]
  ∧ (_setMediaTracksAndMute "CON-1" (Some (JStr "alice")) (JStr "leg-1")
       false "audio:mute:off" (Abrupt (NetworkError (JStr "system:error")))
       ([{| track_id := 0; enabled := true |}], [])).1
    = Abrupt (NexmoApiError (NetworkError (JStr "system:error"))).
Proof. split; reflexivity. Qed.

(** ** Client validation errors *)

(** C9: an invite whose params are missing, or name neither an id nor a
    user name, is rejected with the client error constructed from
    error:invite:missing:params, and a DTMF send with an invalid digit is
    rejected with the client error constructed from
    error:audio:dtmf:invalid-digit, which the catch of [sendDTMF] wraps in a
    NexmoApiError. In both cases the conversation is untouched and no
    network request is sent, whatever the service would have answered and
    whether or not the conversation knows the local member. *)
Theorem client_validation_errors_send_nothing
    (params : option InviteParams) (invite_reply : completion Member)
    (digit : jsval) (dtmf_reply : completion (jsval * jsval))
    (conv : Conversation) (sent : list Request) :
  (missing_invite_target params →
     invite params invite_reply (conv, sent)
     = (Abrupt (NexmoClientError "error:invite:missing:params"), (conv, sent)))
  ∧ (validateDTMF digit = false →
       sendDTMF digit dtmf_reply (conv, sent)
       = (Abrupt (NexmoApiError (NexmoClientError "error:audio:dtmf:invalid-digit")),
          (conv, sent))).
Proof.
  split.
  - intros Hmissing. unfold invite. destruct params as [p|]; [|done].
    destruct Hmissing as [Hid Hname]. by rewrite Hid, Hname.
  - intros Hbad. unfold sendDTMF. by rewrite Hbad.
Qed.

Lemma client_validation_errors_send_nothing_witness :
  invite (Some {| ip_id := JUndefined; ip_user_name := JStr EmptyString; ip_media := None |})
    (Normal (Examples.member_ "carol")) (Examples.conv_ "CON-1", [])
  = (Abrupt (NexmoClientError "error:invite:missing:params"), (Examples.conv_ "CON-1", []))
  ∧ sendDTMF (JStr "12x") (Normal (JStr "9", JStr "t")) (Examples.conv_ "CON-1", [])
    = (Abrupt (NexmoApiError (NexmoClientError "error:audio:dtmf:invalid-digit")),
       (Examples.conv_ "CON-1", [])).
Proof.
  destruct (client_validation_errors_send_nothing
              (Some {| ip_id := JUndefined; ip_user_name := JStr EmptyString; ip_media := None |})
              (Normal (Examples.member_ "carol"))
              (JStr "12x") (Normal (JStr "9", JStr "t"))
              (Examples.conv_ "CON-1") [])
    as [Hinvite Hdtmf].
  split.
  - exact (Hinvite (conj eq_refl eq_refl)).
  - exact (Hdtmf eq_refl).
Defined.

(** ** Transfer of a call *)

Arguments adopt_old_conversation : simpl never.

Lemma setupConversationObject_calls this c σ :
  calls (_setupConversationObject this c σ).2 = calls σ.
Proof.
  unfold _setupConversationObject. destruct c as [cr|]; [|done].
  destruct (call_heap σ !! this) as [call|]; [|done].
  destruct (conv_heap σ !! cr) as [conv|]; [|done].
  by destruct (me_member conv).
Qed.

(** What [_setupConversationObject] does when both objects exist: the call
    points at the conversation, whose listeners are renewed. *)
Lemma setupConversationObject_some σ this call cr conv :
  call_heap σ !! this = Some call →
  conv_heap σ !! cr = Some conv →
  ∃ call2 σa,
    _setupConversationObject this (Some cr) σ
    = (Normal tt, update_conv cr (_attachCallListeners conv) (update_call this call2 σa))
    ∧ conversation call2 = Some cr
    ∧ status call2 = status call
    ∧ direction call2 = direction call
    ∧ conv_heap σa = conv_heap σ
    ∧ call_heap σa = call_heap σ
    ∧ calls σa = calls σ
    ∧ conversations σa = conversations σ
    ∧ _call_draft_list σa = _call_draft_list σ
    ∧ app_emitted σa = app_emitted σ.
Proof.
  intros Hc Hv. unfold _setupConversationObject. rewrite Hc, Hv.
  destruct (me_member conv); eexists _, _; (split; [reflexivity|]); done.
Qed.

Lemma calls_injective_relocate (m : gmap string nat) (old new : string) (r : nat) :
  (∀ k1 k2 x, m !! k1 = Some x → m !! k2 = Some x → k1 = k2) →
  m !! old = Some r →
  ∀ k1 k2 x,
    delete old (<[new := r]> m) !! k1 = Some x →
    delete old (<[new := r]> m) !! k2 = Some x → k1 = k2.
Proof.
  intros Hinj Hold k1 k2 x H1 H2.
  apply lookup_delete_Some in H1 as [Hk1 H1]. apply lookup_delete_Some in H2 as [Hk2 H2].
  apply lookup_insert_Some in H1 as [[<- <-]|[Hn1 H1]];
    apply lookup_insert_Some in H2 as [[<- E2]|[Hn2 H2]]; try done.
  - subst. exfalso. apply Hk2. by apply (Hinj old k2 r).
  - subst. exfalso. apply Hk1. by apply (Hinj old k1 x).
  - by apply (Hinj k1 k2 x).
Qed.

Lemma adopt_old_conversation_frame old_r new_conversation event σ :
  calls (adopt_old_conversation old_r new_conversation event σ).2 = calls σ
  ∧ call_heap (adopt_old_conversation old_r new_conversation event σ).2 = call_heap σ.
Proof.
  unfold adopt_old_conversation.
  destruct new_conversation as [new_r|]; [|done].
  destruct (conv_heap σ !! new_r ≫= _) as [nconv|]; [|done].
  destruct (conv_heap (update_conv new_r _ σ) !! old_r); [|done].
  by destruct (conv_heap (update_conv new_r _ σ) !! new_r).
Qed.

(** Whatever the event, and whether the handler returns or throws, it leaves
    [application.calls] either untouched or with the call moved from the old
    key to the new one. *)
Lemma processRtcTransfer_calls (event : Event) (σ : Store) :
  calls (_processRtcTransfer event σ).2 = calls σ
  ∨ ∃ r, calls σ !! b_transferred_from (body event) = Some r
         ∧ calls (_processRtcTransfer event σ).2
           = delete (b_transferred_from (body event)) (<[cid event := r]> (calls σ)).
Proof.
  unfold _processRtcTransfer.
  destruct (calls σ !! b_transferred_from (body event)) as [r|] eqn:Hr; [|by left].
  destruct (call_heap σ !! r ≫= conversation) as [cr|]; [|by left].
  destruct (conv_heap σ !! cr ≫= _) as [conv'|]; [|by left].
  pose proof (setupConversationObject_calls r (conversations σ !! cid event)
                (update_conv cr conv' σ)) as Hs.
  destruct (_setupConversationObject r _ _) as [[[]|e] σ2]; simpl in Hs; [|by left].
  right. exists r. split; [done|].
  destruct (conversations σ !! b_transferred_from (body event)) as [old_r|].
  - rewrite (proj1 (adopt_old_conversation_frame _ _ _ _)).
    destruct (call_heap σ2 !! r); simpl; by rewrite Hs.
  - destruct (call_heap σ2 !! r); simpl; by rewrite Hs.
Qed.

Lemma processRtcTransfer_keeps_calls_injective (event : Event) (σ : Store) :
  calls_injective σ → calls_injective (_processRtcTransfer event σ).2.
Proof.
  intros Hinj. unfold calls_injective.
  destruct (processRtcTransfer_calls event σ) as [->|(r & Hr & ->)]; [exact Hinj|].
  by apply calls_injective_relocate.
Qed.

Lemma marked_update_conv σ cr k v r' c c' :
  conv_heap σ !! r' = Some c →
  keeps_mark k c c' →
  marked_transferred_to σ cr k v →
  marked_transferred_to (update_conv r' c' σ) cr k v.
Proof.
  intros Hc Hkeep (conv & m & Hconv & Hm & Hv). unfold marked_transferred_to. simpl.
  destruct (decide (r' = cr)) as [->|Hne].
  - rewrite lookup_insert_eq. simplify_eq.
    destruct (Hkeep m Hm) as (m' & Hm' & Ht). exists c', m'. by rewrite Ht.
  - rewrite lookup_insert_ne by done. by exists conv, m.
Qed.

Lemma keeps_mark_same_members k c c' : members c' = members c → keeps_mark k c c'.
Proof. intros H m Hm. exists m. by rewrite H. Qed.

Lemma keeps_mark_mark_from k key old_r c c' :
  mark_member key (set_transferred_from old_r) c = Some c' → keeps_mark k c c'.
Proof.
  unfold mark_member. destruct key as [| |f]; try discriminate.
  destruct (members c !! f) as [mf|] eqn:Hf; [|discriminate].
  intros [= <-] m Hm. simpl.
  destruct (decide (f = k)) as [->|Hne].
  - rewrite lookup_insert_eq. simplify_eq. by eexists.
  - rewrite lookup_insert_ne by done. by exists m.
Qed.

Lemma keeps_mark_trans k c1 c2 c3 :
  keeps_mark k c1 c2 → keeps_mark k c2 c3 → keeps_mark k c1 c3.
Proof.
  intros H12 H23 m Hm. destruct (H12 m Hm) as (m2 & Hm2 & Ht2).
  destruct (H23 m2 Hm2) as (m3 & Hm3 & Ht3). exists m3. split; [done|congruence].
Qed.

Lemma adopt_old_conversation_keeps_mark old_r new_conversation event σ cr k v :
  marked_transferred_to σ cr k v →
  marked_transferred_to (adopt_old_conversation old_r new_conversation event σ).2 cr k v.
Proof.
  intros Hmark. unfold adopt_old_conversation.
  destruct new_conversation as [new_r|]; [|done].
  destruct (conv_heap σ !! new_r) as [c0|] eqn:Hc0; [|done]. simpl.
  destruct (mark_member (from event) _ c0) as [nconv|] eqn:Hmk; [|done].
  assert (Hm1 : marked_transferred_to
                  (update_conv new_r (_attachEndingEventHandlers nconv) σ) cr k v).
  { apply (marked_update_conv σ cr k v new_r c0); [done| |done].
    eapply keeps_mark_trans; [by eapply keeps_mark_mark_from|].
    by apply keeps_mark_same_members. }
  destruct (<[new_r := _attachEndingEventHandlers nconv]> (conv_heap σ) !! old_r); [|done].
  destruct (<[new_r := _attachEndingEventHandlers nconv]> (conv_heap σ) !! new_r)
    as [c1|] eqn:Hc1; [|done].
  simpl. apply (marked_update_conv _ cr k v new_r c1); [done| |done].
  by apply keeps_mark_same_members.
Qed.

(** The store the handler leaves for a known call whose conversation has
    the transferred member, when the new conversation is known. *)
Lemma processRtcTransfer_known_call (event : Event) (σ σf : Store)
    (r cr new_r : nat) (call : NXMCall) (conv nconv : Conversation)
    (k : string) (m : Member) :
  calls σ !! b_transferred_from (body event) = Some r →
  call_heap σ !! r = Some call →
  conversation call = Some cr →
  conv_heap σ !! cr = Some conv →
  b_was_member (body event) = JStr k →
  members conv !! k = Some m →
  conversations σ !! cid event = Some new_r →
  conv_heap σ !! new_r = Some nconv →
  (_processRtcTransfer event σ).2 = σf →
  calls σf = delete (b_transferred_from (body event)) (<[cid event := r]> (calls σ))
  ∧ (conversation <$> call_heap σf !! r) = Some (Some new_r)
  ∧ marked_transferred_to σf cr k (Some new_r).
Proof.
  intros Hr Hcall Hcr Hconv Hwas Hm Hnew Hnconv Hres.
  unfold _processRtcTransfer in Hres.
  rewrite Hr, Hcall in Hres. simpl in Hres. rewrite Hcr, Hconv in Hres. simpl in Hres.
  rewrite Hwas in Hres. unfold mark_member at 1 in Hres.
  rewrite Hm, Hnew in Hres.
  set (conv' := set_members _ conv) in Hres.
  set (σ1 := update_conv cr conv' σ) in Hres.
  assert (Hmark1 : marked_transferred_to σ1 cr k (Some new_r)).
  { exists conv', (set_transferred_to (Some new_r) m). simpl.
    rewrite !lookup_insert_eq. done. }
  assert (∃ n1, conv_heap σ1 !! new_r = Some n1) as [n1 Hn1].
  { simpl. destruct (decide (cr = new_r)) as [->|Hd].
    - rewrite lookup_insert_eq. eauto.
    - rewrite lookup_insert_ne by done. eauto. }
  destruct (setupConversationObject_some σ1 r call new_r n1 Hcall Hn1)
    as (call2 & σa & Hsetup & Hc2 & _ & _ & Hha & Hca & Hcalls & _).
  rewrite Hsetup in Hres. simpl in Hres. rewrite lookup_insert_eq in Hres.
  set (σ5 := set_calls _ _) in Hres.
  assert (Hcalls5 : calls σ5
            = delete (b_transferred_from (body event)) (<[cid event := r]> (calls σ))).
  { simpl. by rewrite Hcalls. }
  assert (Hheap5 : (conversation <$> call_heap σ5 !! r) = Some (Some new_r)).
  { simpl. rewrite lookup_insert_eq. simpl. by rewrite Hc2. }
  assert (Hmark5 : marked_transferred_to σ5 cr k (Some new_r)).
  { assert (Hma : marked_transferred_to σa cr k (Some new_r)).
    { destruct Hmark1 as (c & mm & H1 & H2 & H3). exists c, mm. by rewrite Hha. }
    assert (Hn1a : conv_heap σa !! new_r = Some n1) by (by rewrite Hha).
    pose proof (marked_update_conv σa cr k (Some new_r) new_r n1
                  (_attachCallListeners n1) Hn1a
                  (keeps_mark_same_members k n1 _ eq_refl) Hma) as Hmb.
    destruct Hmb as (c & mm & H1 & H2 & H3). exists c, mm. done. }
  destruct (conversations σ !! b_transferred_from (body event)) as [old_r|].
  - subst σf.
    destruct (adopt_old_conversation_frame old_r (Some new_r) event σ5) as [-> ->].
    split; [done|]. split; [done|].
    by apply adopt_old_conversation_keeps_mark.
  - by subst σf.
Qed.

(** C4: an rtc:transfer event for a known call, from the conversation key
    the call is held under to a different, known conversation. Whether the
    handler then returns or throws, the call is in [application.calls] under
    the new conversation id and under no other key (a [Map] holds one call
    per key), the old key is gone, the call points at the new conversation,
    and the transferred member of the conversation the call leaves has
    [transferred_to] set to the new conversation. What a handler leaves
    behind is all that other code can see: for every event, known call or
    not, return or throw, the calls map is left either untouched or with the
    call moved from the old key to the new one, and a calls map in which no
    two keys hold the same call stays so. *)
Theorem processRtcTransfer_relocates_call (event : Event) (σ : Store) :
  (calls (_processRtcTransfer event σ).2 = calls σ
   ∨ ∃ r, calls σ !! b_transferred_from (body event) = Some r
          ∧ calls (_processRtcTransfer event σ).2
            = delete (b_transferred_from (body event)) (<[cid event := r]> (calls σ)))
  ∧ (calls_injective σ → calls_injective (_processRtcTransfer event σ).2)
  ∧ ∀ (r cr new_r : nat) (call : NXMCall) (conv nconv : Conversation)
      (k : string) (m : Member),
      calls σ !! b_transferred_from (body event) = Some r →
      call_heap σ !! r = Some call →
      conversation call = Some cr →
      conv_heap σ !! cr = Some conv →
      b_was_member (body event) = JStr k →
      members conv !! k = Some m →
      conversations σ !! cid event = Some new_r →
      conv_heap σ !! new_r = Some nconv →
      cid event ≠ b_transferred_from (body event) →
      calls_injective σ →
      calls (_processRtcTransfer event σ).2 !! cid event = Some r
      ∧ calls (_processRtcTransfer event σ).2 !! b_transferred_from (body event) = None
      ∧ (∀ k', calls (_processRtcTransfer event σ).2 !! k' = Some r → k' = cid event)
      ∧ (conversation <$> call_heap (_processRtcTransfer event σ).2 !! r) = Some (Some new_r)
      ∧ marked_transferred_to (_processRtcTransfer event σ).2 cr k (Some new_r).
Proof.
  split; [apply processRtcTransfer_calls|].
  split; [apply processRtcTransfer_keeps_calls_injective|].
  intros r cr new_r call conv nconv k m Hr Hcall Hcr Hconv Hwas Hm Hnew Hnconv Hne Hinj.
  destruct (processRtcTransfer_known_call event σ _ r cr new_r call conv nconv k m
              Hr Hcall Hcr Hconv Hwas Hm Hnew Hnconv eq_refl)
    as (Hcalls & Hheap & Hmark).
  assert (Hat : calls (_processRtcTransfer event σ).2 !! cid event = Some r).
  { rewrite Hcalls. rewrite lookup_delete_ne by done. apply lookup_insert_eq. }
  split; [exact Hat|].
  split; [rewrite Hcalls; apply lookup_delete_eq|].
  split; [|by split].
  intros k' Hk'. rewrite Hcalls in Hk', Hat.
  exact (calls_injective_relocate (calls σ) _ (cid event) r Hinj Hr
           k' (cid event) r Hk' Hat).
Qed.

Lemma processRtcTransfer_relocates_call_witness :
  calls (_processRtcTransfer Examples.transfer_event
           (Examples.store_ (Examples.call_ (JStr "answered") OUTBOUND (Some 1)))).2
    !! "CON-2" = Some 0
  ∧ calls (_processRtcTransfer Examples.transfer_event
             (Examples.store_ (Examples.call_ (JStr "answered") OUTBOUND (Some 1)))).2
      !! "CON-1" = None.
Proof.
  assert (Hinj : calls_injective
                   (Examples.store_ (Examples.call_ (JStr "answered") OUTBOUND (Some 1)))).
  { intros k1 k2 r H1 H2. simpl in H1, H2.
    apply lookup_singleton_Some in H1 as [<- _].
    by apply lookup_singleton_Some in H2 as [<- _]. }
  destruct (processRtcTransfer_relocates_call Examples.transfer_event
              (Examples.store_ (Examples.call_ (JStr "answered") OUTBOUND (Some 1))))
    as (_ & _ & Hknown).
  destruct (Hknown 0 1 2 (Examples.call_ (JStr "answered") OUTBOUND (Some 1))
              (Examples.conv_ "CON-1") (Examples.conv_ "CON-2") "alice"
              (Examples.member_ "alice")
              eq_refl eq_refl eq_refl eq_refl eq_refl eq_refl eq_refl eq_refl
              ltac:(discriminate) Hinj)
    as (Hnew & Hold & _).
  split; [exact Hnew | exact Hold].
Defined.

(** ** Server call: from the draft list to the live calls *)

Arguments _handleStatusChange : simpl never.
Arguments _setupConversationObject : simpl never.

(** [callServer] with the knocking request answered. *)
Lemma callServer_resolved σ user type_ uuid kid :
  let r := fresh (dom (call_heap σ)) in
  let call := set_knocking_id kid
                (set_client_ref (JStr uuid) (set_direction OUTBOUND new_NXMCall)) in
  ∃ σ1, callServer user type_ uuid (Normal kid) σ = (Normal r, σ1)
    ∧ call_heap σ1 = <[r := call]> (call_heap σ)
    ∧ _call_draft_list σ1 = <[uuid := r]> (_call_draft_list σ)
    ∧ calls σ1 = calls σ
    ∧ conversations σ1 = conversations σ
    ∧ conv_heap σ1 = conv_heap σ
    ∧ app_emitted σ1 = app_emitted σ.
Proof.
  intros r call. unfold callServer, createServerCall. fold r. simpl.
  rewrite lookup_insert_eq. simpl. rewrite lookup_insert_eq.
  eexists. split; [reflexivity|]. simpl.
  rewrite !insert_insert_eq. done.
Qed.

Lemma me_member_attachCallListeners conv :
  me_member (_attachCallListeners conv) = me_member conv.
Proof. reflexivity. Qed.

(** [_processMemberJoined] for an event that answers a pending draft. *)
Lemma processMemberJoined_draft σ raw uuid r call cr conv c me_m :
  type raw = "member:joined" →
  client_ref raw = JStr uuid →
  uuid ≠ EmptyString →
  b_channel (body raw) = Some c →
  truthy (ch_knocking_id c) = true →
  _call_draft_list σ !! uuid = Some r →
  call_heap σ !! r = Some call →
  conversations σ !! cid raw = Some cr →
  conv_heap σ !! cr = Some conv →
  me_member conv = Some me_m →
  ∃ σ2 call2,
    _processMemberJoined (Some cr) (new_NXMEvent raw) raw σ
    = (Normal (new_NXMEvent raw, Some (AwaitingMedia (joined_resume r))), σ2)
    ∧ calls σ2 !! c_id conv = Some r
    ∧ _call_draft_list σ2 !! uuid = None
    ∧ call_heap σ2 !! r = Some call2
    ∧ conversation call2 = Some cr
    ∧ status call2 = status call
    ∧ knocking_id call2 = JUndefined
    ∧ app_emitted σ2
      = app_emitted σ ++ [member_call (get_by (members conv) (from raw)) r].
Proof.
  intros Hty Href Huuid Hch Hk Hdraft Hcall Hconvs Hconv Hme.
  unfold _processMemberJoined. simpl. rewrite Hch, Href, Hdraft. simpl.
  replace (negb (String.eqb uuid EmptyString)) with true
    by (symmetry; apply negb_true_iff, String.eqb_neq, Huuid).
  rewrite Hconv. unfold _setFrom. rewrite Hcall, Hme.
  set (σa := update_call r (set_from (Some me_m) call) σ).
  destruct (setupConversationObject_some σa r (set_from (Some me_m) call) cr conv)
    as (call2 & σb & Hsetup & Hc2 & Hs2 & Hd2 & Hhb & Hcb & Hcallsb & Hconvsb & Hdb & Heb).
  { simpl. apply lookup_insert_eq. }
  { done. }
  rewrite Hsetup. simpl. rewrite lookup_insert_eq.
  set (call3 := set_knocking_id JUndefined (set_client_ref JUndefined call2)).
  set (σ5 := set_calls _ _).
  assert (H5 : call_heap σ5 !! r = Some call3).
  { simpl. apply lookup_insert_eq. }
  assert (Hc5 : conv_heap σ5 !! cr = Some (_attachCallListeners conv)).
  { simpl. apply lookup_insert_eq. }
  assert (Hcv : conversations σ5 !! cid raw = Some cr).
  { simpl. by rewrite Hconvsb. }
  assert (Hcalls5 : calls σ5 !! c_id conv = Some r).
  { simpl. apply lookup_insert_eq. }
  assert (Hd5 : _call_draft_list σ5 !! uuid = None).
  { simpl. apply lookup_delete_eq. }
  assert (He5 : app_emitted σ5 = app_emitted σ).
  { simpl. by rewrite Heb. }
  clearbody σ5.
  assert (Hrun : _handleStatusChange r (new_NXMEvent raw) σ5
                 = (Normal (AwaitingMedia (joined_resume r)), σ5)).
  { unfold _handleStatusChange, _isEventFromMe. rewrite H5. simpl.
    rewrite Hc2. rewrite Hc5. simpl. rewrite me_member_attachCallListeners, Hme.
    rewrite Hty. simpl. unfold on_member_joined. simpl. rewrite Hch, Hk, H5. simpl.
    by rewrite Hc2. }
  rewrite Hrun. simpl. rewrite Hcv. simpl. rewrite Hc5. simpl.
  eexists _, call3. split; [reflexivity|]. simpl.
  rewrite He5. repeat split; try done.
Qed.

(** The rest of the handler after [media.enable()], on the store it is
    resumed on: STARTED is asked for when the media came up, FAILED (and the
    error logged and rethrown) when it did not, and the permitted flow
    decides from the status the call has by then. *)
Lemma joined_resume_by_table σ r s :
  status_of σ r = Some (status_value s) →
  (∃ σ', joined_resume r (Normal tt) σ = (Normal tt, σ')
     ∧ match s with
       | None =>
           status_of σ' r = Some (JStr (CALL_STATUS STARTED))
           ∧ app_emitted σ'
             = app_emitted σ ++ [call_status_changed r (JStr (CALL_STATUS STARTED))]
       | Some _ => call_heap σ' = call_heap σ ∧ app_emitted σ' = app_emitted σ
       end)
  ∧ (∀ e, ∃ σ', joined_resume r (Abrupt e) σ = (Abrupt e, σ')
       ∧ if permitted_flow_table s FAILED
         then status_of σ' r = Some (JStr (CALL_STATUS FAILED))
              ∧ app_emitted σ'
                = app_emitted σ ++ [call_status_changed r (JStr (CALL_STATUS FAILED))]
         else call_heap σ' = call_heap σ ∧ app_emitted σ' = app_emitted σ).
Proof.
  unfold status_of. intros Hst.
  destruct (call_heap σ !! r) as [call|] eqn:Hc; [|discriminate].
  simpl in Hst. injection Hst as Hst.
  unfold joined_resume, joined_catch.
  rewrite (setStatusAndEmit_by_table σ r call s STARTED Hc Hst).
  rewrite (setStatusAndEmit_by_table σ r call s FAILED Hc Hst).
  split.
  - destruct s as [k|].
    + replace (permitted_flow_table (Some k) STARTED) with false by (by destruct k).
      eexists. split; [reflexivity|]. done.
    + simpl. eexists. split; [reflexivity|]. simpl. rewrite lookup_insert_eq. done.
  - intros e. destruct (permitted_flow_table s FAILED); simpl.
    + eexists. split; [reflexivity|]. simpl. rewrite lookup_insert_eq. done.
    + eexists. split; [reflexivity|]. done.
Qed.

(** C5 (as the code has it): [callServer], its knocking request answered
    with an id, returns a new call whose [knocking_id] is that id and which
    waits in the draft list under its correlation id. A member:joined event
    that carries a knocking channel and that correlation id, for a known
    conversation that knows the local member, binds the call to the
    conversation, puts it into [application.calls] under the conversation id,
    removes the correlation id from the draft list and hands the event to the
    state machine, which waits for the media to be enabled: until then the
    status is still uninitialized. When the enabling ends, on whatever store
    it and the events handled meanwhile have produced, the call becomes
    STARTED (with one call:status:changed event) if the enabling succeeded
    and the call still has no status; a status set meanwhile stays. If the
    enabling failed the error is rethrown, and the call becomes FAILED where
    the permitted flow allows that from the status it has by then. *)
Theorem server_call_draft_migration
    (σ : Store) (user type_ uuid : string) (kid : jsval) (raw : Event)
    (cr : nat) (conv : Conversation) (c : Channel) (me_m : Member) :
  uuid ≠ EmptyString →
  type raw = "member:joined" →
  client_ref raw = JStr uuid →
  b_channel (body raw) = Some c →
  truthy (ch_knocking_id c) = true →
  conversations σ !! cid raw = Some cr →
  conv_heap σ !! cr = Some conv →
  me_member conv = Some me_m →
  ∃ r σ1 promise σ2,
    callServer user type_ uuid (Normal kid) σ = (Normal r, σ1)
    ∧ (knocking_id <$> call_heap σ1 !! r) = Some kid
    ∧ _call_draft_list σ1 !! uuid = Some r
    ∧ _processMemberJoined (Some cr) (new_NXMEvent raw) raw σ1
      = (Normal (new_NXMEvent raw, Some promise), σ2)
    ∧ (conversation <$> call_heap σ2 !! r) = Some (Some cr)
    ∧ calls σ2 !! c_id conv = Some r
    ∧ _call_draft_list σ2 !! uuid = None
    ∧ status_of σ2 r = Some JNull
    ∧ ∀ σ3 s, status_of σ3 r = Some (status_value s) →
        (∃ σ4, settle (Some promise) (Normal tt) σ3 = (Normal tt, σ4)
           ∧ match s with
             | None =>
                 status_of σ4 r = Some (JStr (CALL_STATUS STARTED))
                 ∧ app_emitted σ4
                   = app_emitted σ3 ++ [call_status_changed r (JStr (CALL_STATUS STARTED))]
             | Some _ => call_heap σ4 = call_heap σ3 ∧ app_emitted σ4 = app_emitted σ3
             end)
        ∧ (∀ e, ∃ σ4, settle (Some promise) (Abrupt e) σ3 = (Abrupt e, σ4)
             ∧ if permitted_flow_table s FAILED
               then status_of σ4 r = Some (JStr (CALL_STATUS FAILED))
                    ∧ app_emitted σ4
                      = app_emitted σ3 ++ [call_status_changed r (JStr (CALL_STATUS FAILED))]
               else call_heap σ4 = call_heap σ3 ∧ app_emitted σ4 = app_emitted σ3).
Proof.
  intros Huuid Hty Href Hch Hk Hconvs Hconv Hme.
  destruct (callServer_resolved σ user type_ uuid kid)
    as (σ1 & Hcall & Hheap1 & Hdraft1 & _ & Hconvs1 & Hconvh1 & _).
  set (r := fresh (dom (call_heap σ))) in *.
  set (call := set_knocking_id kid _) in *.
  assert (Hr1 : call_heap σ1 !! r = Some call) by (rewrite Hheap1; apply lookup_insert_eq).
  assert (Hd1 : _call_draft_list σ1 !! uuid = Some r)
    by (rewrite Hdraft1; apply lookup_insert_eq).
  destruct (processMemberJoined_draft σ1 raw uuid r call cr conv c me_m)
    as (σ2 & call2 & Hjoin & Hcalls2 & Hd2 & Hr2 & Hconv2 & Hst2 & _); try done.
  { by rewrite Hconvs1. }
  { by rewrite Hconvh1. }
  exists r, σ1, (AwaitingMedia (joined_resume r)), σ2.
  split; [exact Hcall|]. split; [by rewrite Hr1|]. split; [exact Hd1|].
  split; [exact Hjoin|]. split; [by rewrite Hr2; simpl; rewrite Hconv2|].
  split; [exact Hcalls2|]. split; [exact Hd2|].
  split; [unfold status_of; by rewrite Hr2; simpl; rewrite Hst2|].
  intros σ3 s Hs3. exact (joined_resume_by_table σ3 r s Hs3).
Qed.

Lemma server_call_draft_migration_witness :
  ∃ r σ1 promise σ2 σ4,
    callServer "+15550000" "phone" "uuid-1" (Normal (JStr "knock-1")) Examples.store_idle
    = (Normal r, σ1)
    ∧ _processMemberJoined (Some 1) (new_NXMEvent (Examples.joined_event "uuid-1"))
        (Examples.joined_event "uuid-1") σ1
      = (Normal (new_NXMEvent (Examples.joined_event "uuid-1"), Some promise), σ2)
    ∧ calls σ2 !! "CON-1" = Some r
    ∧ settle (Some promise) (Normal tt) σ2 = (Normal tt, σ4)
    ∧ status_of σ4 r = Some (JStr "started").
Proof.
  destruct (server_call_draft_migration Examples.store_idle "+15550000" "phone" "uuid-1"
              (JStr "knock-1") (Examples.joined_event "uuid-1") 1
              (Examples.conv_ "CON-1") Examples.knocking_channel (Examples.member_ "alice")
              ltac:(discriminate) eq_refl eq_refl eq_refl eq_refl eq_refl eq_refl eq_refl)
    as (r & σ1 & promise & σ2 & Hcall & _ & _ & Hjoin & _ & Hcalls & _ & Hnull & Hresume).
  destruct (proj1 (Hresume σ2 None Hnull)) as (σ4 & Hrun & Hstarted & _).
  exists r, σ1, promise, σ2, σ4. done.
Defined.

(** C5, against the claim as stated: the same scenario (a server call to
    +15550000, then the member:joined event with the knocking channel and the
    call's correlation id) with media enabling rejected: the call is
    migrated, and its status becomes FAILED, not STARTED. *)
Lemma server_call_fails_when_media_fails :
  Examples.scenario_called.1 = Normal 0
  ∧ calls Examples.scenario_joined.2 !! "CON-1" = Some 0
  ∧ _call_draft_list Examples.scenario_joined.2 !! "uuid-1" = None
  ∧ status_of (settle Examples.scenario_promise
                 (Abrupt (NexmoClientError "Permission denied"))
                 Examples.scenario_joined.2).2 0
    = Some (JStr (CALL_STATUS FAILED))
  ∧ status_of (settle Examples.scenario_promise
                 (Abrupt (NexmoClientError "Permission denied"))
                 Examples.scenario_joined.2).2 0
    ≠ Some (JStr (CALL_STATUS STARTED)).
Proof.
  split; [vm_compute; reflexivity|]. split; [vm_compute; reflexivity|].
  split; [vm_compute; reflexivity|]. split; [vm_compute; reflexivity|].
  vm_compute. discriminate.
Qed.

(** * Further properties of the code *)

(** ** Utils.updateMemberLegs *)

Lemma update_first_leg_None lid st legs :
  update_first_leg lid st legs = None ↔ find_leg lid legs = None.
Proof.
  induction legs as [|l rest IH]; simpl; [done|].
  destruct (strict_eq (leg_id l) lid); [done|].
  destruct (update_first_leg lid st rest); simpl; [|tauto].
  split; [discriminate|]. intros H. apply IH in H. discriminate.
Qed.

Lemma strict_eq_true a b : strict_eq a b = true ↔ a = b.
Proof. unfold strict_eq. apply bool_decide_eq_true. Qed.

Lemma strict_eq_refl a : strict_eq a a = true.
Proof. by apply strict_eq_true. Qed.

Lemma find_leg_update_first lid st legs legs' :
  update_first_leg lid st legs = Some legs' →
  find_leg lid legs' = Some {| leg_id := lid; leg_status := st |}.
Proof.
  revert legs'. induction legs as [|l rest IH]; simpl; [discriminate|].
  intros legs'. destruct (strict_eq (leg_id l) lid) eqn:He.
  - intros [= <-]. simpl. rewrite He. apply strict_eq_true in He. by rewrite He.
  - destruct (update_first_leg lid st rest) as [r|]; simpl; [|discriminate].
    intros [= <-]. simpl. rewrite He. by apply IH.
Qed.

Lemma find_leg_app_miss lid legs l :
  find_leg lid legs = None → find_leg lid (legs ++ [l]) = find_leg lid [l].
Proof.
  induction legs as [|x rest IH]; simpl; [done|].
  destruct (strict_eq (leg_id x) lid); [discriminate|]. exact IH.
Qed.

(** X1: after [updateMemberLegs], looking the event's leg up finds it with
    the event's status, whether the member had legs, that leg, or none. *)
Theorem updateMemberLegs_lookup (legs : option (list Leg)) (event : Event) :
  find_leg (b_leg_id (body event)) (updateMemberLegs legs event)
  = Some {| leg_id := b_leg_id (body event); leg_status := b_status (body event) |}.
Proof.
  unfold updateMemberLegs. destruct legs as [ls|]; simpl.
  - destruct (update_first_leg _ _ ls) as [ls'|] eqn:Hu.
    + by apply (find_leg_update_first _ _ ls).
    + apply update_first_leg_None in Hu. rewrite (find_leg_app_miss _ _ _ Hu).
      simpl. by rewrite strict_eq_refl.
  - by rewrite strict_eq_refl.
Qed.

Lemma update_first_leg_other lid st lid' legs legs' :
  lid' ≠ lid →
  update_first_leg lid st legs = Some legs' →
  find_leg lid' legs' = find_leg lid' legs ∧ length legs' = length legs.
Proof.
  intros Hne. revert legs'. induction legs as [|l rest IH]; simpl; [discriminate|].
  intros legs'. destruct (strict_eq (leg_id l) lid) eqn:He.
  - intros [= <-]. simpl. apply strict_eq_true in He.
    destruct (strict_eq (leg_id l) lid') eqn:He'; [|done].
    apply strict_eq_true in He'. congruence.
  - destruct (update_first_leg lid st rest) as [r|]; simpl; [|discriminate].
    intros [= <-]. simpl. destruct (IH r eq_refl) as [Hf Hl].
    split; [|by rewrite Hl]. by destruct (strict_eq (leg_id l) lid').
Qed.

Lemma find_leg_app_other lid' legs l :
  strict_eq (leg_id l) lid' = false →
  find_leg lid' (legs ++ [l]) = find_leg lid' legs.
Proof.
  intros Hl. induction legs as [|x rest IH]; simpl; [by rewrite Hl|].
  by destruct (strict_eq (leg_id x) lid').
Qed.

(** X2: [updateMemberLegs] leaves every leg with another id as it was, and
    the array grows by one exactly when the member had no leg with the
    event's id. *)
Theorem updateMemberLegs_other_legs (legs : list Leg) (event : Event) (lid' : jsval) :
  lid' ≠ b_leg_id (body event) →
  find_leg lid' (updateMemberLegs (Some legs) event) = find_leg lid' legs
  ∧ length (updateMemberLegs (Some legs) event)
    = match find_leg (b_leg_id (body event)) legs with
      | Some _ => length legs
      | None => S (length legs)
      end.
Proof.
  intros Hne. unfold updateMemberLegs.
  destruct (update_first_leg _ _ legs) as [ls'|] eqn:Hu.
  - destruct (update_first_leg_other _ _ lid' legs ls' Hne Hu) as [Hf Hl].
    split; [exact Hf|].
    destruct (find_leg (b_leg_id (body event)) legs) eqn:Hfind; [exact Hl|].
    apply (update_first_leg_None _ (b_status (body event))) in Hfind. congruence.
  - apply update_first_leg_None in Hu. rewrite Hu. split.
    + apply find_leg_app_other. simpl. apply not_true_is_false.
      intros H%strict_eq_true. congruence.
    + rewrite length_app. simpl. lia.
Qed.

Lemma updateMemberLegs_other_legs_witness :
  find_leg (JStr "leg-2")
    (updateMemberLegs
       (Some [{| leg_id := JStr "leg-2"; leg_status := JStr "answered" |}])
       (Examples.leg_status_event (JStr "ringing")))
  = Some {| leg_id := JStr "leg-2"; leg_status := JStr "answered" |}.
Proof.
  exact (proj1 (updateMemberLegs_other_legs
                  [{| leg_id := JStr "leg-2"; leg_status := JStr "answered" |}]
                  (Examples.leg_status_event (JStr "ringing")) (JStr "leg-2")
                  ltac:(discriminate))).
Defined.

Lemma update_first_leg_again lid st legs legs' :
  update_first_leg lid st legs = Some legs' →
  update_first_leg lid st legs' = Some legs'.
Proof.
  revert legs'. induction legs as [|l rest IH]; simpl; [discriminate|].
  intros legs'. destruct (strict_eq (leg_id l) lid) eqn:He.
  - intros [= <-]. simpl. by rewrite He.
  - destruct (update_first_leg lid st rest) as [r|]; simpl; [|discriminate].
    intros [= <-]. simpl. rewrite He. by rewrite (IH r eq_refl).
Qed.

Lemma update_first_leg_pushed lid st legs :
  update_first_leg lid st legs = None →
  update_first_leg lid st (legs ++ [{| leg_id := lid; leg_status := st |}])
  = Some (legs ++ [{| leg_id := lid; leg_status := st |}]).
Proof.
  induction legs as [|l rest IH]; simpl.
  - intros _. by rewrite strict_eq_refl.
  - destruct (strict_eq (leg_id l) lid); [discriminate|].
    destruct (update_first_leg lid st rest) as [r|]; simpl; [discriminate|].
    intros _. by rewrite IH.
Qed.

(** X3: a leg status update delivered twice changes the legs no further:
    [updateMemberLegs] is idempotent. *)
Theorem updateMemberLegs_idempotent (legs : option (list Leg)) (event : Event) :
  updateMemberLegs (Some (updateMemberLegs legs event)) event
  = updateMemberLegs legs event.
Proof.
  unfold updateMemberLegs. destruct legs as [ls|].
  - destruct (update_first_leg _ _ ls) as [ls'|] eqn:Hu.
    + by rewrite (update_first_leg_again _ _ ls ls' Hu).
    + by rewrite (update_first_leg_pushed _ _ ls Hu).
  - simpl. by rewrite strict_eq_refl.
Qed.

(** ** The status only moves forward *)

(** The flow map has three keys, and its sets hold lower-case statuses. *)
Lemma flow_lookup_Some (k : string) (permitted : gset string) (t : string) :
  STATUS_PERMITTED_FLOW !! k = Some permitted →
  t ∈ permitted →
  (k = "STARTED" ∧ t ∈ ["ringing"; "answered"; "failed"; "timeout"; "unanswered";
                         "rejected"; "busy"])
  ∨ (k = "RINGING" ∧ t ∈ ["answered"; "failed"; "timeout"; "unanswered";
                           "rejected"; "busy"])
  ∨ (k = "ANSWERED" ∧ t ∈ ["completed"; "failed"]).
Proof.
  unfold STATUS_PERMITTED_FLOW. rewrite !list_to_map_cons, list_to_map_nil.
  intros Hk Ht.
  apply lookup_insert_Some in Hk as [[<- <-]|[_ Hk]].
  { left. split; [done|]. by apply elem_of_list_to_set in Ht. }
  apply lookup_insert_Some in Hk as [[<- <-]|[_ Hk]].
  { right. left. split; [done|]. by apply elem_of_list_to_set in Ht. }
  apply lookup_insert_Some in Hk as [[<- <-]|[_ Hk]].
  { right. right. split; [done|]. by apply elem_of_list_to_set in Ht. }
  by rewrite lookup_empty in Hk.
Qed.

Lemma status_rank_le (v : jsval) : status_rank v ≤ 4.
Proof.
  unfold status_rank. destruct v as [| |s]; try lia.
  repeat (case_match; try lia).
Qed.

Lemma status_rank_falsy (v : jsval) : truthy v = false → status_rank v = 0.
Proof.
  destruct v as [| |s]; try done. simpl. intros H%negb_false_iff.
  by rewrite H.
Qed.

Lemma status_rank_truthy (v : jsval) : truthy v = true → 1 ≤ status_rank v.
Proof.
  destruct v as [| |s]; try done. simpl. intros H%negb_true_iff.
  rewrite H. repeat (case_match; try lia).
Qed.

(** An accepted transition goes to a status of strictly higher rank. *)
Lemma accepted_transition_rank (call : NXMCall) (a : jsval) :
  _isValidStatusTransition call a = Normal true →
  truthy a = true ∧ status_rank (status call) < status_rank a.
Proof.
  unfold _isValidStatusTransition.
  destruct (truthy a) eqn:Ha; simpl; [|discriminate].
  intros Hv. split; [done|].
  destruct (truthy (status call)) eqn:Hs; simpl in Hv.
  - destruct (status call) as [| |s] eqn:Hst; try discriminate.
    destruct (STATUS_PERMITTED_FLOW !! toUpperCase s) as [permitted|] eqn:Hk;
      [|discriminate].
    destruct (strict_eq (JStr s) a); [discriminate|].
    injection Hv as Hin. apply bool_decide_eq_true in Hin.
    destruct a as [| |t]; try discriminate. simpl in Hin.
    simpl in Hs. apply negb_true_iff in Hs.
    unfold status_rank at 1. rewrite Hs.
    destruct (flow_lookup_Some _ _ _ Hk Hin) as [[-> Ht]|[[-> Ht]|[-> Ht]]];
      simpl String.eqb; cbv iota;
      repeat (apply elem_of_cons in Ht as [->|Ht]; [vm_compute; lia|]);
      by apply elem_of_nil in Ht.
  - rewrite (status_rank_falsy _ Hs). by apply status_rank_truthy.
Qed.

Lemma setStatusAndEmit_forward (σ : Store) (this : nat) (call : NXMCall) (a : jsval) :
  call_heap σ !! this = Some call →
  (call_heap (_setStatusAndEmit this a σ).2 = call_heap σ
   ∧ app_emitted (_setStatusAndEmit this a σ).2 = app_emitted σ)
  ∨ (status_rank (status call) < status_rank a
     ∧ call_heap (_setStatusAndEmit this a σ).2
       = <[this := set_status a call]> (call_heap σ)
     ∧ app_emitted (_setStatusAndEmit this a σ).2
       = app_emitted σ ++ [call_status_changed this a]).
Proof.
  intros Hc. unfold _setStatusAndEmit. rewrite Hc.
  destruct (_isValidStatusTransition call a) as [[]|e] eqn:Hv; simpl.
  - right. by destruct (accepted_transition_rank call a Hv).
  - by left.
  - by left.
Qed.

(** X4: for a call whose status is written in ASCII characters (where
    [toUpperCase] here is JavaScript's), and whatever the argument, one
    set-status call either leaves the call objects and the emissions alone,
    or stores the argument, a status of strictly higher rank (so never the
    current one), and emits exactly one call:status:changed for it. *)
Theorem setStatusAndEmit_moves_forward
    (σ : Store) (this : nat) (call : NXMCall) (a : jsval) :
  call_heap σ !! this = Some call →
  ascii_only (status call) = true →
  (call_heap (_setStatusAndEmit this a σ).2 = call_heap σ
   ∧ app_emitted (_setStatusAndEmit this a σ).2 = app_emitted σ)
  ∨ (status_rank (status call) < status_rank a
     ∧ call_heap (_setStatusAndEmit this a σ).2
       = <[this := set_status a call]> (call_heap σ)
     ∧ app_emitted (_setStatusAndEmit this a σ).2
       = app_emitted σ ++ [call_status_changed this a]).
Proof.
  intros Hc _. unfold _setStatusAndEmit. rewrite Hc.
  destruct (_isValidStatusTransition call a) as [[]|e] eqn:Hv; simpl.
  - right. destruct (accepted_transition_rank call a Hv) as [_ Hrank].
    split; [exact Hrank|]. by split.
  - left. by split.
  - left. by split.
Qed.

Lemma setStatusAndEmit_moves_forward_witness :
  call_heap (_setStatusAndEmit 0 (JStr "answered")
               (Examples.store_ (Examples.call_ (JStr "ringing") INBOUND (Some 1)))).2
  = <[0 := set_status (JStr "answered") (Examples.call_ (JStr "ringing") INBOUND (Some 1))]>
      (call_heap (Examples.store_ (Examples.call_ (JStr "ringing") INBOUND (Some 1)))).
Proof.
  destruct (setStatusAndEmit_moves_forward
              (Examples.store_ (Examples.call_ (JStr "ringing") INBOUND (Some 1)))
              0 (Examples.call_ (JStr "ringing") INBOUND (Some 1)) (JStr "answered")
              eq_refl eq_refl) as [[_ He]|(_ & Hh & _)].
  - discriminate He.
  - exact Hh.
Defined.

Lemma setStatusAndEmit_keeps_call σ this call a :
  call_heap σ !! this = Some call →
  ascii_only (status call) = true →
  ascii_only a = true →
  ∃ call', call_heap (_setStatusAndEmit this a σ).2 !! this = Some call'
    ∧ ascii_only (status call') = true
    ∧ length (app_emitted (_setStatusAndEmit this a σ).2) + status_rank (status call)
      ≤ length (app_emitted σ) + status_rank (status call').
Proof.
  intros Hc Hascii Ha.
  destruct (setStatusAndEmit_forward σ this call a Hc)
    as [[Hh He]|(Hr & Hh & He)].
  - exists call. rewrite Hh, He. split; [done|]. split; [done|lia].
  - exists (set_status a call). rewrite Hh, He, lookup_insert_eq.
    split; [done|]. split; [exact Ha|]. rewrite length_app. simpl. lia.
Qed.

(** X5: however many statuses are set on a call, in whatever order, the
    application gets at most four call:status:changed events for it, and
    fewer the further along the call already is. The statuses, the one the
    call has and the ones that are set, are any values written in ASCII
    characters, null, undefined and the empty string (which make the call
    throw) included. *)
Theorem setStatus_each_emits_at_most_four
    (args : list jsval) (σ : Store) (this : nat) (call : NXMCall) :
  call_heap σ !! this = Some call →
  ascii_only (status call) = true →
  Forall (λ a, ascii_only a = true) args →
  length (app_emitted (setStatus_each this args σ)) + status_rank (status call)
  ≤ length (app_emitted σ) + 4.
Proof.
  revert σ call. induction args as [|a args IH]; intros σ call Hc Hascii Hargs.
  - pose proof (status_rank_le (status call)). simpl. lia.
  - change (setStatus_each this (a :: args) σ)
      with (setStatus_each this args (_setStatusAndEmit this a σ).2).
    apply Forall_cons in Hargs as [Ha Hargs].
    destruct (setStatusAndEmit_keeps_call σ this call a Hc Hascii Ha)
      as (call' & Hc' & Hascii' & Hle).
    specialize (IH _ call' Hc' Hascii' Hargs). lia.
Qed.

Lemma setStatus_each_emits_at_most_four_witness :
  length (app_emitted
            (setStatus_each 0
               [JStr "ringing"; JNull; JStr "started"; JStr "answered"; JStr "ringing";
                JStr "completed"; JStr "failed"]
               (Examples.store_ (Examples.call_ (JStr "started") OUTBOUND (Some 1)))))
  + status_rank (JStr "started") ≤ 0 + 4.
Proof.
  apply (setStatus_each_emits_at_most_four
           [JStr "ringing"; JNull; JStr "started"; JStr "answered"; JStr "ringing";
            JStr "completed"; JStr "failed"]
           (Examples.store_ (Examples.call_ (JStr "started") OUTBOUND (Some 1)))
           0 (Examples.call_ (JStr "started") OUTBOUND (Some 1)) eq_refl eq_refl).
  by apply Forall_forall; intros a Ha; repeat (apply elem_of_cons in Ha as [->|Ha]; [done|]);
     apply elem_of_nil in Ha.
Defined.

(** ** What handling an event can do to a call *)

Lemma status_step_refl this σ : status_step this σ σ.
Proof. by left. Qed.

Lemma same_elsewhere_refl this σ : same_elsewhere this σ σ.
Proof. by repeat split. Qed.

Lemma same_elsewhere_trans this σ1 σ2 σ3 :
  same_elsewhere this σ1 σ2 → same_elsewhere this σ2 σ3 → same_elsewhere this σ1 σ3.
Proof.
  intros (A1 & A2 & A3 & A4 & A5 & A6) (B1 & B2 & B3 & B4 & B5 & B6).
  repeat split; try congruence. intros r Hr. rewrite B6, A6; done.
Qed.

(** Steps that leave status and emissions alone compose with any step. *)
Lemma status_step_after_keep this σ1 σ2 σ3 :
  status_of σ2 this = status_of σ1 this → app_emitted σ2 = app_emitted σ1 →
  status_step this σ2 σ3 → status_step this σ1 σ3.
Proof.
  intros Hs He [[Hs' He']|(old & k & H1 & H2 & H3 & H4)].
  - left. split; congruence.
  - right. exists old, k. repeat split; congruence.
Qed.

Lemma status_step_then_keep this σ1 σ2 σ3 :
  status_step this σ1 σ2 →
  status_of σ3 this = status_of σ2 this → app_emitted σ3 = app_emitted σ2 →
  status_step this σ1 σ3.
Proof.
  intros [[Hs' He']|(old & k & H1 & H2 & H3 & H4)] Hs He.
  - left. split; congruence.
  - right. exists old, k. repeat split; congruence.
Qed.

Lemma setStatusAndEmit_abrupt this a σ e σ' :
  _setStatusAndEmit this a σ = (Abrupt e, σ') → σ' = σ.
Proof.
  unfold _setStatusAndEmit. destruct (call_heap σ !! this) as [call|]; [|congruence].
  destruct (_isValidStatusTransition call a) as [[]|]; congruence.
Qed.

Lemma setStatusAndEmit_step this (k : CALL_STATUS_key) σ :
  status_step this σ (_setStatusAndEmit this (JStr (CALL_STATUS k)) σ).2
  ∧ same_elsewhere this σ (_setStatusAndEmit this (JStr (CALL_STATUS k)) σ).2.
Proof.
  destruct (call_heap σ !! this) as [call|] eqn:Hc.
  - split.
    + destruct (setStatusAndEmit_forward σ this call (JStr (CALL_STATUS k)) Hc)
        as [[Hh He]|(Hr & Hh & He)].
      * left. unfold status_of. by rewrite Hh, He.
      * right. exists (status call), k. unfold status_of.
        rewrite Hh, Hc, lookup_insert_eq. done.
    + unfold _setStatusAndEmit. rewrite Hc.
      destruct (_isValidStatusTransition call (JStr (CALL_STATUS k))) as [[]|]; simpl;
        repeat split; try done.
      intros r Hr. simpl. by rewrite lookup_insert_ne.
  - unfold _setStatusAndEmit. rewrite Hc. simpl.
    split; [apply status_step_refl | apply same_elsewhere_refl].
Qed.

Lemma done_snd r : (done_ r).2 = r.2.
Proof. by destruct r as [[]]. Qed.

Lemma log_step this e σ :
  status_of (log e σ) this = status_of σ this
  ∧ app_emitted (log e σ) = app_emitted σ
  ∧ same_elsewhere this σ (log e σ).
Proof. repeat split. Qed.

Lemma joined_catch_step this e σ :
  status_step this σ (joined_catch this e σ).2
  ∧ same_elsewhere this σ (joined_catch this e σ).2.
Proof.
  unfold joined_catch.
  pose proof (setStatusAndEmit_step this FAILED σ) as [Hs Hf].
  destruct (_setStatusAndEmit this (JStr (CALL_STATUS FAILED)) σ) as [[[]|e'] σ1];
    simpl in *; [|done].
  split.
  - by apply (status_step_then_keep this σ σ1).
  - apply (same_elsewhere_trans this σ σ1); [done|].
    apply (log_step this).
Qed.

Lemma joined_resume_step this outcome σ :
  status_step this σ (joined_resume this outcome σ).2
  ∧ same_elsewhere this σ (joined_resume this outcome σ).2.
Proof.
  unfold joined_resume. destruct outcome as [[]|e]; [|apply joined_catch_step].
  pose proof (setStatusAndEmit_step this STARTED σ) as [Hs Hf].
  destruct (_setStatusAndEmit this (JStr (CALL_STATUS STARTED)) σ) as [[[]|e'] σ1] eqn:Hr;
    simpl in *; [done|].
  apply setStatusAndEmit_abrupt in Hr as ->. apply joined_catch_step.
Qed.

Lemma update_id_step this call v σ :
  call_heap σ !! this = Some call →
  status_of (update_call this (set_id v call) σ) this = status_of σ this
  ∧ app_emitted (update_call this (set_id v call) σ) = app_emitted σ
  ∧ same_elsewhere this σ (update_call this (set_id v call) σ).
Proof.
  intros Hc. unfold status_of. simpl. rewrite lookup_insert_eq, Hc.
  repeat split; try done. intros r Hr. simpl. by rewrite lookup_insert_ne.
Qed.

Lemma update_same_step this call σ :
  call_heap σ !! this = Some call →
  status_of (update_call this call σ) this = status_of σ this
  ∧ app_emitted (update_call this call σ) = app_emitted σ
  ∧ same_elsewhere this σ (update_call this call σ).
Proof.
  intros Hc. unfold status_of. simpl. rewrite lookup_insert_eq, Hc.
  repeat split; try done. intros r Hr. simpl. by rewrite lookup_insert_ne.
Qed.

(** The part of an event handler that runs before it returns. *)
Lemma handleStatusChange_sync_step this event σ :
  status_step this σ (_handleStatusChange this event σ).2
  ∧ same_elsewhere this σ (_handleStatusChange this event σ).2.
Proof.
  assert (Hrefl : status_step this σ σ ∧ same_elsewhere this σ σ)
    by (split; [apply status_step_refl | apply same_elsewhere_refl]).
  assert (Hset : ∀ k,
            status_step this σ (done_ (_setStatusAndEmit this (JStr (CALL_STATUS k)) σ)).2
            ∧ same_elsewhere this σ
                (done_ (_setStatusAndEmit this (JStr (CALL_STATUS k)) σ)).2).
  { intros k. rewrite done_snd. apply setStatusAndEmit_step. }
  unfold _handleStatusChange.
  destruct (call_heap σ !! this) as [call|] eqn:Hc; [|exact Hrefl].
  destruct (_isEventFromMe σ call event) as [fromMe|e]; [|exact Hrefl].
  cbv zeta.
  destruct (String.eqb (type event) "member:joined").
  { unfold on_member_joined. destruct (b_channel (body event)) as [c|]; [|exact Hrefl].
    destruct (truthy (ch_knocking_id c)); [|exact Hrefl].
    destruct (call_heap σ !! this ≫= conversation); [exact Hrefl|].
    pose proof (joined_catch_step this TypeError σ) as Hj.
    by destruct (joined_catch this TypeError σ). }
  destruct (String.eqb (type event) "member:invited").
  { unfold on_member_invited. destruct (strict_eq _ _); [|exact Hrefl].
    destruct (b_user (body event)) as [u|]; [|exact Hrefl].
    destruct (eu_media u ≫= audio_settings); [apply Hset | exact Hrefl]. }
  destruct (String.eqb (type event) "rtc:hangup").
  { unfold on_rtc_hangup. destruct (strict_eq _ _); apply Hset. }
  destruct (String.eqb (type event) "member:left").
  { unfold on_member_left. destruct (b_timestamp (body event)) as [ts|]; [|exact Hrefl].
    destruct (_ && _); [apply Hset | exact Hrefl]. }
  destruct (String.eqb (type event) "member:media").
  { unfold on_member_media. destruct (_ && b_audio (body event)); [|exact Hrefl].
    set (call1 := match b_channel (body event) with
                  | Some c => if fromMe then set_id (ch_id c) call else call
                  | None => call
                  end).
    assert (Hk : status_of (update_call this call1 σ) this = status_of σ this
                 ∧ app_emitted (update_call this call1 σ) = app_emitted σ
                 ∧ same_elsewhere this σ (update_call this call1 σ)).
    { unfold call1. destruct (b_channel (body event)) as [c|];
        [destruct fromMe|]; by (apply update_id_step || apply update_same_step). }
    destruct Hk as (Hk1 & Hk2 & Hk3).
    destruct (_ && truthy (id call1)).
    - rewrite done_snd.
      pose proof (setStatusAndEmit_step this ANSWERED
                    (update_call this call1 σ)) as [Hs Hf].
      split; [by apply (status_step_after_keep this σ (update_call this call1 σ))|].
      by apply (same_elsewhere_trans this σ (update_call this call1 σ)).
    - split; [|done]. by left. }
  destruct (String.eqb (type event) "sip:ringing").
  { unfold on_sip_ringing. destruct (negb _); [apply Hset | exact Hrefl]. }
  destruct (String.eqb (type event) "sip:hangup").
  { unfold on_sip_hangup. destruct (b_reason (body event)) as [r|]; [|exact Hrefl].
    destruct (sip_code r) as [z|]; [|exact Hrefl].
    repeat (case_match; try exact Hrefl); apply Hset. }
  destruct (String.eqb (type event) "knocking:delete:success");
    [apply Hset | exact Hrefl].
Qed.

(** A handler that waits can only be the [member:joined] one. *)
Lemma handleStatusChange_promise this event σ k σ1 :
  _handleStatusChange this event σ = (Normal (AwaitingMedia k), σ1) →
  k = joined_resume this ∧ σ1 = σ.
Proof.
  unfold _handleStatusChange.
  destruct (call_heap σ !! this) as [call|]; [|discriminate].
  destruct (_isEventFromMe σ call event) as [fromMe|e]; [|discriminate].
  cbv zeta.
  destruct (String.eqb (type event) "member:joined").
  { unfold on_member_joined. destruct (b_channel (body event)) as [c|]; [|discriminate].
    destruct (truthy (ch_knocking_id c)); [|discriminate].
    destruct (call_heap σ !! this ≫= conversation); [by intros [= <- <-]|].
    by destruct (joined_catch this TypeError σ). }
  assert (Hd : ∀ r, done_ r = (Normal (AwaitingMedia k), σ1) →
                    k = joined_resume this ∧ σ1 = σ).
  { intros [[[]|] ?]; discriminate. }
  destruct (String.eqb (type event) "member:invited").
  { unfold on_member_invited. destruct (strict_eq _ _); [|discriminate].
    destruct (b_user (body event)) as [u|]; [|discriminate].
    destruct (eu_media u ≫= audio_settings); [apply Hd | discriminate]. }
  destruct (String.eqb (type event) "rtc:hangup").
  { unfold on_rtc_hangup. destruct (strict_eq _ _); apply Hd. }
  destruct (String.eqb (type event) "member:left").
  { unfold on_member_left. destruct (b_timestamp (body event)) as [ts|]; [|discriminate].
    destruct (_ && _); [apply Hd | discriminate]. }
  destruct (String.eqb (type event) "member:media").
  { unfold on_member_media. destruct (_ && b_audio (body event)); [|discriminate].
    destruct (_ && truthy _); [apply Hd | discriminate]. }
  destruct (String.eqb (type event) "sip:ringing").
  { unfold on_sip_ringing. destruct (negb _); [apply Hd | discriminate]. }
  destruct (String.eqb (type event) "sip:hangup").
  { unfold on_sip_hangup. destruct (b_reason (body event)) as [r|]; [|discriminate].
    destruct (sip_code r) as [z|]; [|discriminate].
    repeat (case_match; try discriminate); apply Hd. }
  destruct (String.eqb (type event) "knocking:delete:success");
    [apply Hd | discriminate].
Qed.

(** X6: handling one event, for a call whose status is written in ASCII
    characters. Up to the point where the handler returns (or throws, or
    starts to wait for the media) the status and the application's
    emissions are as before, or the status has moved up in rank to one of
    the statuses of CALL_STATUS with exactly one call:status:changed; no
    other call object, none of the application's maps and no conversation
    object has changed, and no request was sent. A handler that waits has
    changed nothing of the store yet; when it is resumed, with whatever outcome of the
    enabling and on whatever store the enabling and the events handled
    meanwhile have produced, the same holds of what it then does. *)
Theorem handleStatusChange_one_step
    (this : nat) (event : Event) (σ : Store) (call : NXMCall) :
  call_heap σ !! this = Some call →
  ascii_only (status call) = true →
  let r := _handleStatusChange this event σ in
  status_step this σ r.2
  ∧ same_elsewhere this σ r.2
  ∧ ∀ k, r.1 = Normal (AwaitingMedia k) →
      r.2 = σ
      ∧ ∀ outcome σ3 call3,
          call_heap σ3 !! this = Some call3 →
          ascii_only (status call3) = true →
          status_step this σ3 (k outcome σ3).2
          ∧ same_elsewhere this σ3 (k outcome σ3).2.
Proof.
  intros _ _ r. subst r.
  destruct (handleStatusChange_sync_step this event σ) as [Hs Hf].
  split; [exact Hs|]. split; [exact Hf|].
  intros k Hk.
  destruct (_handleStatusChange this event σ) as [c σ1] eqn:Hrun. simpl in Hk.
  subst c. apply handleStatusChange_promise in Hrun as [Hk Hσ]. subst k σ1.
  split; [done|]. intros outcome σ3 call3 _ _. apply joined_resume_step.
Qed.

Lemma handleStatusChange_one_step_witness :
  status_step 0
    (Examples.store_ (Examples.call_ (JStr "answered") OUTBOUND (Some 1)))
    (_handleStatusChange 0 Examples.hangup_event
       (Examples.store_ (Examples.call_ (JStr "answered") OUTBOUND (Some 1)))).2.
Proof.
  exact (proj1 (handleStatusChange_one_step 0 Examples.hangup_event
                  (Examples.store_ (Examples.call_ (JStr "answered") OUTBOUND (Some 1)))
                  (Examples.call_ (JStr "answered") OUTBOUND (Some 1)) eq_refl eq_refl)).
Defined.

Lemma status_changes_snoc this l a :
  status_changes this (l ++ [call_status_changed this a]) = S (status_changes this l).
Proof.
  induction l as [|[r b|m r] l IH]; simpl.
  - by rewrite bool_decide_eq_true_2.
  - rewrite IH. by case_bool_decide.
  - exact IH.
Qed.

Lemma ascii_only_status (k : CALL_STATUS_key) : ascii_only (JStr (CALL_STATUS k)) = true.
Proof. by destruct k. Qed.

Lemma status_step_measure this σ σ' st :
  status_step this σ σ' →
  status_of σ this = Some st →
  ascii_only st = true →
  ∃ st', status_of σ' this = Some st'
    ∧ ascii_only st' = true
    ∧ status_changes this (app_emitted σ') + status_rank st
      ≤ status_changes this (app_emitted σ) + status_rank st'
    ∧ (status_rank st = 4 →
         st' = st
         ∧ status_changes this (app_emitted σ') = status_changes this (app_emitted σ)).
Proof.
  intros [[Hs He]|(old & k & H1 & H2 & H3 & H4)] Hst Hascii.
  - exists st. rewrite Hs, He. split; [done|]. split; [done|]. split; [lia|done].
  - exists (JStr (CALL_STATUS k)). rewrite H1 in Hst. injection Hst as ->.
    split; [done|]. split; [apply ascii_only_status|].
    rewrite H4, status_changes_snoc. split; [lia|].
    pose proof (status_rank_le (JStr (CALL_STATUS k))). lia.
Qed.

Lemma status_rank_terminal (k : CALL_STATUS_key) :
  terminal k = true → status_rank (JStr (CALL_STATUS k)) = 4.
Proof. by destruct k. Qed.

(** X7: over the whole life of a call whose status is written in ASCII
    characters, however the events it handles, the ends of its waits for
    the media and the other code that runs in between interleave, the
    application gets at most four call:status:changed events for the call
    (fewer the further along it is), and a call that is in a terminal status
    keeps that status and gets no such event any more. Other code is any
    step that neither sets the call's status nor emits a call:status:changed
    for it; [answer] and [createCall] setting FAILED when they fail are
    among the steps. *)
Theorem call_run_status_progress
    (this : nat) (σ σ' : Store) (call : NXMCall) :
  call_run this σ σ' →
  call_heap σ !! this = Some call →
  ascii_only (status call) = true →
  status_changes this (app_emitted σ') + status_rank (status call)
  ≤ status_changes this (app_emitted σ) + 4
  ∧ (∀ k, status call = JStr (CALL_STATUS k) → terminal k = true →
       status_of σ' this = Some (status call)
       ∧ status_changes this (app_emitted σ') = status_changes this (app_emitted σ)).
Proof.
  intros Hrun Hc Hascii.
  assert (Hst : status_of σ this = Some (status call))
    by (unfold status_of; by rewrite Hc).
  clear Hc. revert Hst Hascii. generalize (status call) as st.
  assert (Hmove : ∀ σ0 σ1 σ2 st,
            status_step this σ0 σ1 →
            (∀ st1, status_of σ1 this = Some st1 → ascii_only st1 = true →
               status_changes this (app_emitted σ2) + status_rank st1
               ≤ status_changes this (app_emitted σ1) + 4
               ∧ (∀ k, st1 = JStr (CALL_STATUS k) → terminal k = true →
                    status_of σ2 this = Some st1
                    ∧ status_changes this (app_emitted σ2)
                      = status_changes this (app_emitted σ1))) →
            status_of σ0 this = Some st → ascii_only st = true →
            status_changes this (app_emitted σ2) + status_rank st
            ≤ status_changes this (app_emitted σ0) + 4
            ∧ (∀ k, st = JStr (CALL_STATUS k) → terminal k = true →
                 status_of σ2 this = Some st
                 ∧ status_changes this (app_emitted σ2)
                   = status_changes this (app_emitted σ0))).
  { intros σ0 σ1 σ2 st Hstep IH Hst Hascii.
    destruct (status_step_measure this σ0 σ1 st Hstep Hst Hascii)
      as (st1 & Hst1 & Hascii1 & Hle & Hterm).
    destruct (IH st1 Hst1 Hascii1) as [IHle IHterm]. split; [lia|].
    intros k Hk Hk4.
    assert (Hr : status_rank st = 4) by (rewrite Hk; by apply status_rank_terminal).
    destruct (Hterm Hr) as [-> He].
    destruct (IHterm k Hk Hk4) as [Hs1 He1]. split; congruence. }
  induction Hrun as [σ|event σ σ' Hrun IH|outcome σ σ' Hrun IH|σ σ' Hrun IH
                     |σ σ1 σ' Hs He Hrun IH];
    intros st Hst Hascii.
  - pose proof (status_rank_le st). split; [lia|done].
  - apply (Hmove σ (_handleStatusChange this event σ).2 σ' st); try done.
    apply handleStatusChange_sync_step.
  - apply (Hmove σ (joined_resume this outcome σ).2 σ' st); try done.
    apply joined_resume_step.
  - apply (Hmove σ (_setStatusAndEmit this (JStr (CALL_STATUS FAILED)) σ).2 σ' st);
      try done.
    apply setStatusAndEmit_step.
  - rewrite <- Hs in Hst. destruct (IH st Hst Hascii) as [IHle IHterm].
    rewrite He in *. split; [lia|done].
Qed.

Lemma call_run_status_progress_witness :
  status_of
    (_handleStatusChange 0 Examples.media_event
       (joined_resume 0 (Normal tt)
          (_handleStatusChange 0 Examples.hangup_event
             (Examples.store_ (Examples.call_ (JStr "busy") OUTBOUND (Some 1)))).2).2).2 0
  = Some (JStr "busy").
Proof.
  exact (proj1 (proj2 (call_run_status_progress 0
                  (Examples.store_ (Examples.call_ (JStr "busy") OUTBOUND (Some 1))) _
                  (Examples.call_ (JStr "busy") OUTBOUND (Some 1))
                  (run_event 0 Examples.hangup_event _ _
                     (run_resume 0 (Normal tt) _ _
                        (run_event 0 Examples.media_event _ _ (run_end 0 _))))
                  eq_refl eq_refl)
                  BUSY eq_refl eq_refl)).
Defined.

(** ** SIP events *)

Lemma handleStatusChange_sip_hangup σ this call event fromMe :
  call_heap σ !! this = Some call →
  type event = "sip:hangup" →
  _isEventFromMe σ call event = Normal fromMe →
  _handleStatusChange this event σ = on_sip_hangup this event σ.
Proof.
  intros Hc Ht Hme. unfold _handleStatusChange. by rewrite Hc, Hme, Ht.
Qed.

Lemma handleStatusChange_sip_ringing σ this call event fromMe :
  call_heap σ !! this = Some call →
  type event = "sip:ringing" →
  _isEventFromMe σ call event = Normal fromMe →
  _handleStatusChange this event σ = on_sip_ringing this call σ.
Proof.
  intros Hc Ht Hme. unfold _handleStatusChange. by rewrite Hc, Hme, Ht.
Qed.

Lemma on_sip_hangup_code σ this event r code :
  b_reason (body event) = Some r →
  sip_code r = Some code →
  on_sip_hangup this event σ
  = match sip_code_status code with
    | Some k => done_ (_setStatusAndEmit this (JStr (CALL_STATUS k)) σ)
    | None => (Normal (Settled (Normal tt)), σ)
    end.
Proof.
  intros Hr Hcode. unfold on_sip_hangup, sip_code_status. rewrite Hr, Hcode.
  destruct (code =? 486)%Z eqn:H1; [apply Z.eqb_eq in H1; by subst|].
  destruct (code =? 487)%Z eqn:H2; [apply Z.eqb_eq in H2; by subst|].
  destruct (code =? 403)%Z eqn:H3; [apply Z.eqb_eq in H3; by subst|].
  apply Z.eqb_neq in H1, H2, H3.
  repeat (case_match; try done); lia.
Qed.

(** A SIP event for a conversation that has no call only logs a warning. *)
Lemma handleSipCallEvent_without_call (event : Event) (σ : Store) :
  calls σ !! cid event = None →
  _handleSipCallEvent event σ
  = (Normal tt, log (log_warn "There is no call object for this Conversation id.") σ).
Proof. intros H. unfold _handleSipCallEvent. by rewrite H. Qed.

(** X8: (for a call whose conversation, if it has one, knows the local
    member, so that the sender of the event can be compared with it) a
    sip:hangup event for a conversation with a call asks for BUSY on
    reason code 486, TIMEOUT on 487 and FAILED on 403, and the call takes
    that status (one call:status:changed) exactly when the permitted flow
    allows it from the current one; otherwise the call objects and the
    emissions stay. Any other code leaves the whole store as it is. An event
    without a reason makes the handler throw, the store untouched. *)
Theorem sip_hangup_by_reason_code
    (σ : Store) (event : Event) (this : nat) (call : NXMCall) (fromMe : bool)
    (from_status : option CALL_STATUS_key) :
  calls σ !! cid event = Some this →
  call_heap σ !! this = Some call →
  type event = "sip:hangup" →
  _isEventFromMe σ call event = Normal fromMe →
  status call = status_value from_status →
  (b_reason (body event) = None → _handleSipCallEvent event σ = (Abrupt TypeError, σ))
  ∧ ∀ r code, b_reason (body event) = Some r → sip_code r = Some code →
      ∃ σ', _handleSipCallEvent event σ = (Normal tt, σ')
        ∧ match sip_code_status code with
          | Some k =>
              if permitted_flow_table from_status k
              then status_of σ' this = Some (JStr (CALL_STATUS k))
                   ∧ app_emitted σ'
                     = app_emitted σ ++ [call_status_changed this (JStr (CALL_STATUS k))]
              else call_heap σ' = call_heap σ ∧ app_emitted σ' = app_emitted σ
          | None => σ' = σ
          end.
Proof.
  intros Hcalls Hc Ht Hme Hst.
  unfold _handleSipCallEvent, _processSipHangup. rewrite Hcalls, Ht. simpl.
  rewrite (handleStatusChange_sip_hangup σ this call event fromMe Hc Ht Hme).
  split.
  - intros Hr. unfold on_sip_hangup. by rewrite Hr.
  - intros r code Hr Hcode. rewrite (on_sip_hangup_code σ this event r code Hr Hcode).
    destruct (sip_code_status code) as [k|]; [|by exists σ].
    rewrite (setStatusAndEmit_by_table σ this call from_status k Hc Hst).
    destruct (permitted_flow_table from_status k); simpl.
    + eexists. split; [reflexivity|]. split; [apply status_of_accepted|done].
    + eexists. split; [reflexivity|]. done.
Qed.

Lemma sip_hangup_by_reason_code_witness :
  ∃ σ', _handleSipCallEvent sip_hangup_busy_event
          (Examples.store_ (Examples.call_ (JStr "ringing") OUTBOUND (Some 1)))
        = (Normal tt, σ')
    ∧ status_of σ' 0 = Some (JStr "busy").
Proof.
  destruct (proj2 (sip_hangup_by_reason_code
                     (Examples.store_ (Examples.call_ (JStr "ringing") OUTBOUND (Some 1)))
                     sip_hangup_busy_event 0
                     (Examples.call_ (JStr "ringing") OUTBOUND (Some 1)) false (Some RINGING)
                     eq_refl eq_refl eq_refl eq_refl eq_refl)
              _ 486%Z eq_refl eq_refl) as (σ' & Hrun & H).
  exists σ'. split; [exact Hrun|]. exact (proj1 H).
Defined.

(** X9: (for a call whose conversation, if it has one, knows the local
    member) a sip:ringing event for a conversation with a call moves a call
    that has no status yet, or is STARTED, to RINGING with one
    call:status:changed; a call already RINGING is left alone, without even
    a warning; from any later status the request is refused with a warning
    and nothing else changes. *)
Theorem sip_ringing_status
    (σ : Store) (event : Event) (this : nat) (call : NXMCall) (fromMe : bool)
    (from_status : option CALL_STATUS_key) :
  calls σ !! cid event = Some this →
  call_heap σ !! this = Some call →
  type event = "sip:ringing" →
  _isEventFromMe σ call event = Normal fromMe →
  status call = status_value from_status →
  ∃ σ', _handleSipCallEvent event σ = (Normal tt, σ')
    ∧ match from_status with
      | None | Some STARTED =>
          status_of σ' this = Some (JStr (CALL_STATUS RINGING))
          ∧ app_emitted σ'
            = app_emitted σ ++ [call_status_changed this (JStr (CALL_STATUS RINGING))]
      | Some RINGING => σ' = σ
      | Some _ =>
          call_heap σ' = call_heap σ ∧ app_emitted σ' = app_emitted σ
          ∧ ∃ msg, logged σ' = logged σ ++ [log_warn msg]
      end.
Proof.
  intros Hcalls Hc Ht Hme Hst.
  unfold _handleSipCallEvent, _processSipRinging. rewrite Hcalls, Ht. simpl.
  rewrite (handleStatusChange_sip_ringing σ this call event fromMe Hc Ht Hme).
  unfold on_sip_ringing. rewrite Hst, strict_eq_status.
  case_bool_decide as Hr.
  - subst from_status. by exists σ.
  - rewrite (setStatusAndEmit_by_table σ this call from_status RINGING Hc Hst).
    destruct from_status as [[]|]; try done; simpl;
      (eexists; split; [reflexivity|]);
      first [ split; [apply status_of_accepted|done]
            | split; [done|split; [done|by eexists]] ].
Qed.

Lemma sip_ringing_status_witness :
  ∃ σ', _handleSipCallEvent sip_ringing_event
          (Examples.store_ (Examples.call_ (JStr "started") OUTBOUND (Some 1)))
        = (Normal tt, σ')
    ∧ status_of σ' 0 = Some (JStr "ringing").
Proof.
  destruct (sip_ringing_status
              (Examples.store_ (Examples.call_ (JStr "started") OUTBOUND (Some 1)))
              sip_ringing_event 0
              (Examples.call_ (JStr "started") OUTBOUND (Some 1)) false (Some STARTED)
              eq_refl eq_refl eq_refl eq_refl eq_refl) as (σ' & Hrun & H).
  exists σ'. split; [exact Hrun|]. exact (proj1 H).
Defined.

(** ** The remaining handlers of the call's state machine *)

Lemma handleStatusChange_member_left σ this call event fromMe :
  call_heap σ !! this = Some call →
  type event = "member:left" →
  _isEventFromMe σ call event = Normal fromMe →
  _handleStatusChange this event σ
  = on_member_left this call event fromMe (bool_decide (direction call = OUTBOUND)) σ.
Proof.
  intros Hc Ht Hme. unfold _handleStatusChange. by rewrite Hc, Hme, Ht.
Qed.

Lemma handleStatusChange_member_invited σ this call event fromMe :
  call_heap σ !! this = Some call →
  type event = "member:invited" →
  _isEventFromMe σ call event = Normal fromMe →
  _handleStatusChange this event σ = on_member_invited this event σ.
Proof.
  intros Hc Ht Hme. unfold _handleStatusChange. by rewrite Hc, Hme, Ht.
Qed.

(** What a status request leaves behind, by the permitted flow. *)
Lemma done_setStatusAndEmit_by_table σ this call from_status k :
  call_heap σ !! this = Some call →
  status call = status_value from_status →
  ∃ σ', done_ (_setStatusAndEmit this (JStr (CALL_STATUS k)) σ)
        = (Normal (Settled (Normal tt)), σ')
    ∧ if permitted_flow_table from_status k
      then status_of σ' this = Some (JStr (CALL_STATUS k))
           ∧ app_emitted σ'
             = app_emitted σ ++ [call_status_changed this (JStr (CALL_STATUS k))]
      else call_heap σ' = call_heap σ ∧ app_emitted σ' = app_emitted σ.
Proof.
  intros Hc Hst. rewrite (setStatusAndEmit_by_table σ this call from_status k Hc Hst).
  destruct (permitted_flow_table from_status k); simpl.
  - eexists. split; [reflexivity|]. split; [apply status_of_accepted|done].
  - eexists. split; [reflexivity|]. done.
Qed.

(** X10: (for a call whose conversation, if it has one, knows the local
    member) a member:left event whose body timestamp has a [joined] key (the
    member had joined), or that reaches an ANSWERED call, changes nothing;
    so hanging up an answered call by leaving does not complete it. Without
    the [joined] key, a call that is not ANSWERED is asked to become
    UNANSWERED (event from me on an outbound call, or from the other side
    on an inbound one) or REJECTED, and takes that status only where the
    permitted flow allows. A body without timestamp makes the handler
    throw. *)
Theorem member_left_status
    (σ : Store) (this : nat) (call : NXMCall) (event : Event) (fromMe : bool)
    (from_status : option CALL_STATUS_key) :
  call_heap σ !! this = Some call →
  type event = "member:left" →
  _isEventFromMe σ call event = Normal fromMe →
  status call = status_value from_status →
  let outbound := bool_decide (direction call = OUTBOUND) in
  let k := if (fromMe && outbound) || (negb fromMe && negb outbound)
           then UNANSWERED else REJECTED in
  (b_timestamp (body event) = None →
     _handleStatusChange this event σ = (Abrupt TypeError, σ))
  ∧ ∀ ts, b_timestamp (body event) = Some ts →
      (is_Some (ts_joined ts) ∨ from_status = Some ANSWERED →
         _handleStatusChange this event σ = (Normal (Settled (Normal tt)), σ))
      ∧ (ts_joined ts = None → from_status ≠ Some ANSWERED →
           ∃ σ', _handleStatusChange this event σ = (Normal (Settled (Normal tt)), σ')
             ∧ if permitted_flow_table from_status k
               then status_of σ' this = Some (JStr (CALL_STATUS k))
                    ∧ app_emitted σ'
                      = app_emitted σ ++ [call_status_changed this (JStr (CALL_STATUS k))]
               else call_heap σ' = call_heap σ ∧ app_emitted σ' = app_emitted σ).
Proof.
  intros Hc Ht Hme Hst outbound k.
  rewrite (handleStatusChange_member_left σ this call event fromMe Hc Ht Hme).
  unfold on_member_left. split.
  - by intros ->.
  - intros ts ->. rewrite Hst, strict_eq_status. split.
    + intros [Hj | ->].
      * rewrite (bool_decide_eq_true_2 _ Hj). done.
      * rewrite (bool_decide_eq_true_2 (Some ANSWERED = Some ANSWERED) eq_refl).
        by rewrite andb_false_r.
    + intros Hj Hna.
      rewrite bool_decide_eq_false_2 by (rewrite Hj; by intros [? ?]).
      rewrite (bool_decide_eq_false_2 _ Hna). simpl negb. cbv iota. simpl andb. cbv iota.
      apply (done_setStatusAndEmit_by_table σ this call from_status _ Hc Hst).
Qed.

Lemma member_left_status_witness :
  ∃ σ', _handleStatusChange 0 left_event
          (Examples.store_ (Examples.call_ (JStr "ringing") OUTBOUND (Some 1)))
        = (Normal (Settled (Normal tt)), σ')
    ∧ status_of σ' 0 = Some (JStr "rejected").
Proof.
  destruct (proj2 (proj2 (member_left_status
                     (Examples.store_ (Examples.call_ (JStr "ringing") OUTBOUND (Some 1)))
                     0 (Examples.call_ (JStr "ringing") OUTBOUND (Some 1))
                     left_event false (Some RINGING)
                     eq_refl eq_refl eq_refl eq_refl)
              _ eq_refl) eq_refl ltac:(done)) as (σ' & Hrun & H).
  exists σ'. split; [exact Hrun|]. exact (proj1 H).
Defined.

(** X11: (for a call whose conversation, if it has one, knows the local
    member) a member:invited event starts the call only when [invited_by] is
    strictly null, the invited user carries audio settings (enabled or
    not), and the call has no status yet: STARTED is then set with one
    call:status:changed. On a call that already has a status the request is
    refused and call and emissions stay; with any other [invited_by], or
    without audio settings, the store is untouched. *)
Theorem member_invited_status
    (σ : Store) (this : nat) (call : NXMCall) (event : Event) (fromMe : bool)
    (from_status : option CALL_STATUS_key) :
  call_heap σ !! this = Some call →
  type event = "member:invited" →
  _isEventFromMe σ call event = Normal fromMe →
  status call = status_value from_status →
  (b_invited_by (body event) ≠ JNull →
     _handleStatusChange this event σ = (Normal (Settled (Normal tt)), σ))
  ∧ ∀ u, b_invited_by (body event) = JNull → b_user (body event) = Some u →
      (eu_media u ≫= audio_settings = None →
         _handleStatusChange this event σ = (Normal (Settled (Normal tt)), σ))
      ∧ (∀ a, eu_media u ≫= audio_settings = Some a →
           ∃ σ', _handleStatusChange this event σ = (Normal (Settled (Normal tt)), σ')
             ∧ match from_status with
               | None =>
                   status_of σ' this = Some (JStr (CALL_STATUS STARTED))
                   ∧ app_emitted σ'
                     = app_emitted σ ++ [call_status_changed this (JStr (CALL_STATUS STARTED))]
               | Some _ => call_heap σ' = call_heap σ ∧ app_emitted σ' = app_emitted σ
               end).
Proof.
  intros Hc Ht Hme Hst.
  rewrite (handleStatusChange_member_invited σ this call event fromMe Hc Ht Hme).
  unfold on_member_invited, strict_eq. split.
  - intros Hn. by rewrite (bool_decide_eq_false_2 _ Hn).
  - intros u Hn Hu. rewrite (bool_decide_eq_true_2 _ Hn), Hu. split.
    + by intros ->.
    + intros a ->.
      destruct (done_setStatusAndEmit_by_table σ this call from_status STARTED Hc Hst)
        as (σ' & Hrun & H).
      exists σ'. split; [exact Hrun|]. by destruct from_status as [[]|].
Qed.

Lemma member_invited_status_witness :
  ∃ σ', _handleStatusChange 0 invited_event
          (Examples.store_ (Examples.call_ JNull INBOUND (Some 1)))
        = (Normal (Settled (Normal tt)), σ')
    ∧ status_of σ' 0 = Some (JStr "started").
Proof.
  destruct (proj2 (proj2 (member_invited_status
                     (Examples.store_ (Examples.call_ JNull INBOUND (Some 1)))
                     0 (Examples.call_ JNull INBOUND (Some 1))
                     invited_event false None
                     eq_refl eq_refl eq_refl eq_refl)
              _ eq_refl eq_refl) _ eq_refl) as (σ' & Hrun & H).
  exists σ'. split; [exact Hrun|]. exact (proj1 H).
Defined.

(** X12: an event of a type the state machine has no handler for is
    ignored by the call: the store is untouched, whatever the event
    carries, as long as the sender can be compared with the local member. *)
Theorem handleStatusChange_unhandled_type
    (σ : Store) (this : nat) (call : NXMCall) (event : Event) (fromMe : bool) :
  call_heap σ !! this = Some call →
  _isEventFromMe σ call event = Normal fromMe →
  type event ∉ status_event_types →
  _handleStatusChange this event σ = (Normal (Settled (Normal tt)), σ).
Proof.
  intros Hc Hme Ht. unfold _handleStatusChange. rewrite Hc, Hme. simpl.
  repeat match goal with
         | |- context [String.eqb (type event) ?s] =>
             destruct (String.eqb_spec (type event) s) as [He|_];
             [exfalso; apply Ht; rewrite He; unfold status_event_types; set_solver|]
         end.
  done.
Qed.

Lemma handleStatusChange_unhandled_type_witness :
  _handleStatusChange 0 Examples.text_event
    (Examples.store_ (Examples.call_ (JStr "started") OUTBOUND (Some 1)))
  = (Normal (Settled (Normal tt)),
     Examples.store_ (Examples.call_ (JStr "started") OUTBOUND (Some 1))).
Proof.
  apply (handleStatusChange_unhandled_type
           (Examples.store_ (Examples.call_ (JStr "started") OUTBOUND (Some 1))) 0
           (Examples.call_ (JStr "started") OUTBOUND (Some 1)) Examples.text_event false
           eq_refl eq_refl).
  apply (bool_decide_unpack (type Examples.text_event ∉ status_event_types)).
  by vm_compute.
Defined.

(** ** RTC events *)

Lemma on_member_media_remote σ this call event outbound from_status :
  call_heap σ !! this = Some call →
  status call = status_value from_status →
  from_status ≠ Some ANSWERED →
  b_audio (body event) = true →
  truthy (id call) = true →
  ∃ σ', on_member_media this call event false outbound σ
        = (Normal (Settled (Normal tt)), σ')
    ∧ id_of σ' this = Some (id call)
    ∧ if permitted_flow_table from_status ANSWERED
      then status_of σ' this = Some (JStr (CALL_STATUS ANSWERED))
           ∧ app_emitted σ'
             = app_emitted σ ++ [call_status_changed this (JStr (CALL_STATUS ANSWERED))]
      else status_of σ' this = Some (status call) ∧ app_emitted σ' = app_emitted σ.
Proof.
  intros Hc Hst Hna Haudio Hid. unfold on_member_media.
  rewrite Hst, strict_eq_status, Haudio, bool_decide_eq_false_2 by done.
  replace (match b_channel (body event) with
           | Some c => if false then set_id (ch_id c) call else call
           | None => call
           end) with call by (by destruct (b_channel (body event))).
  rewrite Hid. cbn [negb orb andb].
  rewrite (setStatusAndEmit_by_table (update_call this call σ) this call
             from_status ANSWERED (call_heap_update_call σ this call) Hst).
  destruct (permitted_flow_table from_status ANSWERED); simpl;
    (eexists; split; [reflexivity|]); unfold id_of, status_of; simpl;
    rewrite !lookup_insert_eq; simpl; rewrite ?Hst; done.
Qed.

(** X13: (for a call whose conversation knows the local member) an
    rtc:answer event followed by the other party's member:media event with
    audio. The answer binds the call to the leg id it carries;
    the media event, not being from me, keeps that id, and since the id is
    now known the call is asked to become ANSWERED, which it does (with one
    call:status:changed) where the permitted flow allows. *)
Theorem rtc_answer_then_remote_media
    (σ : Store) (answer media_ev : Event) (this : nat) (call : NXMCall)
    (from_status : option CALL_STATUS_key) :
  calls σ !! cid answer = Some this →
  call_heap σ !! this = Some call →
  type answer = "rtc:answer" →
  truthy (b_rtc_id (body answer)) = true →
  type media_ev = "member:media" →
  b_audio (body media_ev) = true →
  _isEventFromMe σ call media_ev = Normal false →
  status call = status_value from_status →
  from_status ≠ Some ANSWERED →
  ∃ σ1 σ2,
    _handleRtcEvent answer σ = (Normal tt, σ1)
    ∧ app_emitted σ1 = app_emitted σ
    ∧ _handleStatusChange this media_ev σ1 = (Normal (Settled (Normal tt)), σ2)
    ∧ id_of σ2 this = Some (b_rtc_id (body answer))
    ∧ if permitted_flow_table from_status ANSWERED
      then status_of σ2 this = Some (JStr (CALL_STATUS ANSWERED))
           ∧ app_emitted σ2
             = app_emitted σ ++ [call_status_changed this (JStr (CALL_STATUS ANSWERED))]
      else status_of σ2 this = Some (status call) ∧ app_emitted σ2 = app_emitted σ.
Proof.
  intros Hcalls Hc Hta Hid Htm Haudio Hme Hst Hna.
  set (call1 := set_id (b_rtc_id (body answer)) call).
  exists (update_call this call1 σ).
  assert (Hc1 : call_heap (update_call this call1 σ) !! this = Some call1)
    by apply call_heap_update_call.
  assert (Hme1 : _isEventFromMe (update_call this call1 σ) call1 media_ev = Normal false)
    by exact Hme.
  destruct (on_member_media_remote (update_call this call1 σ) this call1 media_ev
              (bool_decide (direction call1 = OUTBOUND)) from_status
              Hc1 Hst Hna Haudio Hid) as (σ2 & Hrun & Hid2 & H).
  exists σ2. split.
  { unfold _handleRtcEvent, _processRtcAnswer. by rewrite Hta, Hcalls, Hc. }
  split; [done|]. split.
  { rewrite (handleStatusChange_member_media _ this call1 media_ev false Hc1 Htm Hme1).
    exact Hrun. }
  split; [exact Hid2|exact H].
Qed.

Lemma rtc_answer_then_remote_media_witness :
  ∃ σ1 σ2,
    _handleRtcEvent answer_event
      (Examples.store_ (Examples.call_ (JStr "ringing") OUTBOUND (Some 1)))
    = (Normal tt, σ1)
    ∧ _handleStatusChange 0 remote_media_event σ1 = (Normal (Settled (Normal tt)), σ2)
    ∧ id_of σ2 0 = Some (JStr "rtc-1")
    ∧ status_of σ2 0 = Some (JStr "answered").
Proof.
  destruct (rtc_answer_then_remote_media
              (Examples.store_ (Examples.call_ (JStr "ringing") OUTBOUND (Some 1)))
              answer_event remote_media_event 0
              (Examples.call_ (JStr "ringing") OUTBOUND (Some 1)) (Some RINGING)
              eq_refl eq_refl eq_refl eq_refl eq_refl eq_refl eq_refl eq_refl
              ltac:(done))
    as (σ1 & σ2 & H1 & _ & H2 & H3 & H4).
  exists σ1, σ2. split; [exact H1|]. split; [exact H2|]. split; [exact H3|].
  exact (proj1 H4).
Defined.

(** X14: an RTC event that is not a transfer touches nothing but the call
    registered under the event's conversation id: the three maps of the
    application, the conversation objects, the requests sent and every
    other call object stay as they are, and at most one call:status:changed
    is emitted. *)
Theorem handleRtcEvent_touches_one_call (event : Event) (σ : Store) :
  type event ≠ "rtc:transfer" →
  let σ' := (_handleRtcEvent event σ).2 in
  calls σ' = calls σ
  ∧ _call_draft_list σ' = _call_draft_list σ
  ∧ conversations σ' = conversations σ
  ∧ conv_heap σ' = conv_heap σ
  ∧ requests σ' = requests σ
  ∧ (∀ r, calls σ !! cid event ≠ Some r → call_heap σ' !! r = call_heap σ !! r)
  ∧ length (app_emitted σ') ≤ S (length (app_emitted σ)).
Proof.
  intros Ht. unfold _handleRtcEvent.
  destruct (String.eqb_spec (type event) "rtc:transfer") as [|_]; [done|].
  assert (Hframe : ∀ this σ', calls σ !! cid event = Some this →
            status_step this σ σ' → same_elsewhere this σ σ' →
            calls σ' = calls σ
            ∧ _call_draft_list σ' = _call_draft_list σ
            ∧ conversations σ' = conversations σ
            ∧ conv_heap σ' = conv_heap σ
            ∧ requests σ' = requests σ
            ∧ (∀ r, calls σ !! cid event ≠ Some r → call_heap σ' !! r = call_heap σ !! r)
            ∧ length (app_emitted σ') ≤ S (length (app_emitted σ))).
  { intros this σ' Hthis Hstep (H1 & H2 & H3 & H4 & H5 & H6).
    repeat (split; [done|]). split.
    - intros r Hr. apply H6. congruence.
    - destruct Hstep as [[_ ->]|(? & ? & _ & _ & _ & ->)]; [lia|].
      rewrite length_app. simpl. lia. }
  destruct (String.eqb (type event) "rtc:answer").
  { unfold _processRtcAnswer.
    destruct (calls σ !! cid event) as [this|] eqn:Hthis; [|simpl; repeat split; (done || lia)].
    destruct (call_heap σ !! this) as [call|] eqn:Hc; [|simpl; repeat split; (done || lia)].
    destruct (update_id_step this call (b_rtc_id (body event)) σ Hc) as (Hs & He & Hsame).
    apply (Hframe this); [done| |done]. by left. }
  destruct (String.eqb (type event) "rtc:hangup"); [|simpl; repeat split; (done || lia)].
  unfold _processRtcHangup.
  destruct (calls σ !! cid event) as [this|] eqn:Hthis; [|simpl; repeat split; (done || lia)].
  destruct (handleStatusChange_sync_step this event σ) as [Hstep Hsame].
  destruct (_handleStatusChange this event σ) as [[p|e] σ'];
    by apply (Hframe this).
Qed.

Lemma handleRtcEvent_touches_one_call_witness :
  calls (_handleRtcEvent Examples.hangup_event
           (Examples.store_ (Examples.call_ (JStr "answered") OUTBOUND (Some 1)))).2
  = calls (Examples.store_ (Examples.call_ (JStr "answered") OUTBOUND (Some 1))).
Proof.
  exact (proj1 (handleRtcEvent_touches_one_call Examples.hangup_event
                  (Examples.store_ (Examples.call_ (JStr "answered") OUTBOUND (Some 1)))
                  ltac:(discriminate))).
Defined.

(** ** Server calls: the draft list *)

(** X15: a member:joined event that was processed without throwing can be
    delivered again: the second delivery finds no draft under the client
    reference and changes nothing, so a server call is moved from the draft
    list to the calls at most once per knocking. *)
Theorem processMemberJoined_replay
    (conversation_ : option nat) (event raw_event : Event) (σ σ' : Store)
    (res : Event * option (Promise unit)) :
  _processMemberJoined conversation_ event raw_event σ = (Normal res, σ') →
  _processMemberJoined conversation_ event raw_event σ' = (Normal (event, None), σ').
Proof.
  intros H. unfold _processMemberJoined in *.
  destruct (b_channel (body event)) as [ch|]; [|by simplify_eq].
  destruct (client_ref raw_event) as [| |ref]; try by simplify_eq.
  destruct (truthy (JStr ref)); [|by simplify_eq].
  destruct (_call_draft_list σ !! ref) as [nxmCall|] eqn:Hd.
  2: { simplify_eq. by rewrite Hd. }
  destruct (conversation_ ≫= λ cr, conv_heap σ !! cr) as [conv|]; [|done].
  destruct (_setFrom nxmCall (me_member conv) σ) as [[[]|e1] σ1]; [|done].
  destruct (_setupConversationObject nxmCall conversation_ σ1) as [[[]|e2] σ2]; [|done].
  match type of H with
  | context [_handleStatusChange nxmCall event ?s] => set (σ5 := s) in *
  end.
  pose proof (handleStatusChange_sync_step nxmCall event σ5) as [_ (_ & Hdraft & _)].
  destruct (_handleStatusChange nxmCall event σ5) as [[promise|e3] σ6]; [|done].
  simpl in Hdraft.
  destruct (conversations σ6 !! cid event ≫= λ cr, conv_heap σ6 !! cr); [|done].
  injection H as _ <-. simpl.
  replace (_call_draft_list σ6 !! ref) with (@None nat); [done|].
  rewrite Hdraft. subst σ5.
  destruct (call_heap _ !! nxmCall); simpl; by rewrite lookup_delete_eq.
Qed.

Lemma processMemberJoined_replay_witness :
  ∃ res σ2,
    _processMemberJoined (Some 1) (new_NXMEvent (Examples.joined_event "uuid-1"))
      (Examples.joined_event "uuid-1") store_draft = (Normal res, σ2)
    ∧ _processMemberJoined (Some 1) (new_NXMEvent (Examples.joined_event "uuid-1"))
        (Examples.joined_event "uuid-1") σ2
      = (Normal (new_NXMEvent (Examples.joined_event "uuid-1"), None), σ2).
Proof.
  destruct (processMemberJoined_draft store_draft (Examples.joined_event "uuid-1")
              "uuid-1" 0 draft_call 1 (Examples.conv_ "CON-1")
              Examples.knocking_channel (Examples.member_ "alice")
              eq_refl eq_refl ltac:(discriminate) eq_refl eq_refl eq_refl eq_refl
              eq_refl eq_refl eq_refl) as (σ2 & call2 & Hjoin & _).
  eexists _, σ2. split; [exact Hjoin|].
  exact (processMemberJoined_replay _ _ _ _ _ _ Hjoin).
Defined.

(** X16: when the knocking request of [callServer] fails, the promise is
    rejected with the failure wrapped in a NexmoApiError, and the new call
    object, outbound and without a status, stays registered in the draft
    list under its client reference; it is in no way announced: the calls
    stay as they were and nothing is emitted. Exactly one request was sent,
    the POST to knocking (whose data has no type of its own). *)
Theorem callServer_request_failure
    (user type_ uuid : string) (error_ : error) (σ : Store) :
  let nxmCall := fresh (dom (call_heap σ)) in
  ∃ σ', callServer user type_ uuid (Abrupt error_) σ = (Abrupt (NexmoApiError error_), σ')
    ∧ _call_draft_list σ' = <[uuid := nxmCall]> (_call_draft_list σ)
    ∧ call_heap σ !! nxmCall = None
    ∧ call_heap σ' !! nxmCall
      = Some (set_client_ref (JStr uuid) (set_direction OUTBOUND new_NXMCall))
    ∧ calls σ' = calls σ
    ∧ app_emitted σ' = app_emitted σ
    ∧ requests σ'
      = requests σ ++ [{| req_method := "POST"; req_path := "knocking";
                          req_data_type := JUndefined |}].
Proof.
  intros nxmCall. unfold callServer, createServerCall. fold nxmCall.
  rewrite call_heap_update_call. simpl.
  eexists. split; [reflexivity|]. simpl. rewrite !lookup_insert_eq. simpl.
  repeat split; try done.
  apply not_elem_of_dom. apply is_fresh.
Qed.

(** ** Media: DTMF and mute *)

Lemma events_get_set_ne k k0 v l :
  k0 ≠ k → events_get k0 (events_set k v l) = events_get k0 l.
Proof.
  intros Hne.
  assert (Hf : strict_eq k k0 = false).
  { destruct (strict_eq k k0) eqn:H; [|done]. apply strict_eq_true in H. congruence. }
  induction l as [|[k' v'] l IH]; simpl.
  - by rewrite Hf.
  - destruct (strict_eq k' k) eqn:Hk; simpl.
    + apply strict_eq_true in Hk. subst k'. by rewrite Hf.
    + by rewrite IH.
Qed.

(** X17: [sendDTMF] with a valid digit in a conversation that knows the
    local member sends exactly one request. When the service answers, the
    promise resolves to an audio:dtmf event from the local member under the
    id of the answer; that event is then what the conversation's events
    hold under that id, every other event, the members and the sequence
    number being as before. When the request fails, the promise is rejected
    with the failure wrapped in a NexmoApiError and the conversation is
    unchanged. *)
Theorem sendDTMF_valid_digit
    (digit : jsval) (conv : Conversation) (sent : list Request) (me_ : Member) :
  validateDTMF digit = true →
  me_member conv = Some me_ →
  (∀ id_ timestamp,
     ∃ ev conv',
       sendDTMF digit (Normal (id_, timestamp)) (conv, sent)
       = (Normal ev, (conv', sent ++ [dtmf_request conv]))
       ∧ type ev = "audio:dtmf" ∧ from ev = m_id me_ ∧ ev_id ev = id_
       ∧ events_get id_ (events conv') = Some ev
       ∧ (∀ k, k ≠ id_ → events_get k (events conv') = events_get k (events conv))
       ∧ members conv' = members conv
       ∧ sequence_number conv' = sequence_number conv)
  ∧ (∀ error_,
       sendDTMF digit (Abrupt error_) (conv, sent)
       = (Abrupt (NexmoApiError error_), (conv, sent ++ [dtmf_request conv]))).
Proof.
  intros Hv Hme. unfold sendDTMF. rewrite Hv, Hme. simpl. split; [|done].
  intros id_ timestamp. eexists. eexists. split; [reflexivity|]. simpl.
  repeat split; try done.
  - apply events_get_set_eq.
  - intros k Hk. by apply events_get_set_ne.
Qed.

Lemma sendDTMF_valid_digit_witness :
  ∃ ev conv',
    sendDTMF (JStr "12#") (Normal (JStr "9", JStr "t")) (Examples.conv_ "CON-1", [])
    = (Normal ev, (conv', [dtmf_request (Examples.conv_ "CON-1")]))
    ∧ events_get (JStr "9") (events conv') = Some ev.
Proof.
  destruct (proj1 (sendDTMF_valid_digit (JStr "12#") (Examples.conv_ "CON-1") []
                     (Examples.member_ "alice") eq_refl eq_refl) (JStr "9") (JStr "t"))
    as (ev & conv' & Hrun & _ & _ & _ & Hget & _).
  exists ev, conv'. split; [exact Hrun|exact Hget].
Defined.

(** X18: whatever the tracks were before, after [_setMediaTracksAndMute]
    they are the same tracks in the same order, all enabled alike: enabled
    exactly when [mute] is false if the request went through, and exactly
    when [mute] is true if it did not, so a failure does not bring back what
    was there before. With the local member known exactly one request is
    sent, whether it then succeeds or fails, and the promise settles as the
    request does (a failure wrapped in a NexmoApiError); without the local
    member nothing is sent and the promise is rejected. *)
Theorem setMediaTracksAndMute_tracks
    (conversation_id : string) (me_id : option jsval) (rtc_id : jsval) (mute : bool)
    (mediaType : string) (reply : completion unit)
    (tracks : list MediaTrack) (sent : list Request) :
  let r := _setMediaTracksAndMute conversation_id me_id rtc_id mute mediaType reply
             (tracks, sent) in
  track_id <$> r.2.1 = track_id <$> tracks
  ∧ Forall (λ t, enabled t = if is_abrupt r.1 then mute else negb mute) r.2.1
  ∧ (is_Some me_id →
       r.1 = match reply with
             | Normal response => Normal response
             | Abrupt error_ => Abrupt (NexmoApiError error_)
             end
       ∧ r.2.2 = sent ++ [{| req_method := "POST";
            req_path := "conversations/" +:+ conversation_id +:+ "/events";
            req_data_type := JStr mediaType |}])
  ∧ (me_id = None → r.1 = Abrupt (NexmoApiError TypeError) ∧ r.2.2 = sent).
Proof.
  assert (Hids : ∀ l b, track_id <$> _enableMediaTracks l b = track_id <$> l).
  { intros l b. unfold _enableMediaTracks. rewrite <- list_fmap_compose.
    by apply list_fmap_ext. }
  assert (Hen : ∀ l b, Forall (λ t, enabled t = b) (_enableMediaTracks l b)).
  { intros l b. unfold _enableMediaTracks. apply Forall_fmap. by apply Forall_true. }
  unfold _setMediaTracksAndMute, sendNetworkRequest.
  destruct me_id as [i|], reply as [[]|e]; simpl;
    rewrite ?enableMediaTracks_twice, ?Hids;
    repeat split; try done; try apply Hen; by intros [? ?].
Qed.

(** ** Member *)

(** X19: whatever the event and whatever the member, [Member._handleEvent]
    emits at most one member:call:status, and when it does, that is its
    last step: the member the notification carries is the member as the
    handler leaves it. A handler that throws has emitted nothing. *)
Theorem member_handleEvent_emits_last
    (event : Event) (m : Member) (l : list ConvEmission) :
  let r := Member._handleEvent event (m, l) in
  (r.2.2 = l ∨ r.2.2 = l ++ [member_call_status r.2.1])
  ∧ (is_abrupt r.1 = true → r.2.2 = l).
Proof.
  unfold Member._handleEvent.
  repeat case_match; simpl; rewrite ?setCallStatusAndEmit_eq;
    repeat case_match; simpl; repeat split; auto; discriminate.
Qed.

(** ** The call's listeners on its conversation *)

Lemma filter_filter_neg {A} (P : A → Prop) `{∀ x, Decision (P x)} (l : list A) :
  filter P (filter (λ x, ¬ P x) l) = [].
Proof.
  induction l as [|x l IH]; [done|].
  rewrite (filter_cons (λ x, ¬ P x)). destruct (decide (¬ P x)) as [Hn|Hn]; [|done].
  rewrite filter_cons. by destruct (decide (P x)).
Qed.

(** X20: after [_attachCallListeners] the conversation has exactly one
    listener in the group call_module, the one for member:media, whatever
    was registered before; the listeners of every other group are as
    before, in order; and attaching again changes nothing. So a call that
    is set up again on its conversation does not pile up listeners. *)
Theorem attachCallListeners_once (conv : Conversation) :
  group_listeners "call_module" (_attachCallListeners conv)
  = [("member:media", "call_module")]
  ∧ (∀ g, g ≠ "call_module" →
       group_listeners g (_attachCallListeners conv) = group_listeners g conv)
  ∧ _attachCallListeners (_attachCallListeners conv) = _attachCallListeners conv.
Proof.
  unfold group_listeners, _attachCallListeners, on_, releaseGroup. simpl.
  split; [|split].
  - rewrite filter_app.
    rewrite (filter_filter_neg (λ l : string * string, l.2 = "call_module")). done.
  - intros g Hg. rewrite filter_app.
    rewrite (filter_cons _ ("member:media", "call_module")). simpl.
    destruct (decide ("call_module" = g)) as [|_]; [congruence|].
    rewrite filter_nil, app_nil_r.
    induction (listeners conv) as [|x l IH]; [done|].
    rewrite !filter_cons.
    destruct (decide (x.2 ≠ "call_module")) as [Hx|Hx].
    + rewrite filter_cons. destruct (decide (x.2 = g)); by rewrite IH.
    + destruct (decide (x.2 = g)) as [He|]; [|done].
      exfalso. apply Hx. congruence.
  - unfold set_listeners. simpl. f_equal.
    rewrite filter_app, filter_cons. simpl.
    destruct (decide ("call_module" ≠ "call_module")) as [|_]; [done|].
    rewrite filter_nil, app_nil_r. f_equal.
    induction (listeners conv) as [|x l IH]; [done|].
    rewrite filter_cons. destruct (decide (x.2 ≠ "call_module")); [|done].
    rewrite filter_cons. destruct (decide (x.2 ≠ "call_module")); [|done].
    by rewrite IH.
Qed.

(** ** Hanging up *)

Lemma handleStatusChange_knocking_delete σ this call event fromMe :
  call_heap σ !! this = Some call →
  type event = "knocking:delete:success" →
  _isEventFromMe σ call event = Normal fromMe →
  _handleStatusChange this event σ = on_knocking_delete_success this σ.
Proof.
  intros Hc Ht Hme. unfold _handleStatusChange. by rewrite Hc, Hme, Ht.
Qed.

(** X21: hanging up a server call that is still a draft (no conversation
    yet; it waits in the draft list under its client reference) sends one
    DELETE for its knocking and never touches the media. When the service
    answers with knocking:delete:success, the call leaves the draft list
    and is asked to become UNANSWERED, which it does, with one
    call:status:changed, where the permitted flow allows. When the request
    fails, the promise still resolves (to undefined): the status is not
    changed and the call stays in the draft list. *)
Theorem hangUp_draft_call
    (media_disable : nat → Store → completion unit * Store)
    (σ : Store) (this : nat) (call : NXMCall) (ref : string) (reason : option string)
    (leave_reply : completion jsval) (from_status : option CALL_STATUS_key) :
  call_heap σ !! this = Some call →
  conversation call = None →
  call_client_ref call = JStr ref →
  _call_draft_list σ !! ref = Some this →
  status call = status_value from_status →
  let request := {| req_method := "DELETE";
                    req_path := with_reason ("knocking/" +:+ String_ (knocking_id call))
                                  reason;
                    req_data_type := JUndefined |} in
  (∀ response, type response = "knocking:delete:success" →
     ∃ σ', hangUp media_disable this reason (Normal response) leave_reply σ
           = (Normal (knocking_deleted response (Settled (Normal tt))), σ')
       ∧ requests σ' = requests σ ++ [request]
       ∧ _call_draft_list σ' = delete ref (_call_draft_list σ)
       ∧ calls σ' = calls σ
       ∧ if permitted_flow_table from_status UNANSWERED
         then status_of σ' this = Some (JStr (CALL_STATUS UNANSWERED))
              ∧ app_emitted σ'
                = app_emitted σ ++ [call_status_changed this (JStr (CALL_STATUS UNANSWERED))]
         else call_heap σ' = call_heap σ ∧ app_emitted σ' = app_emitted σ)
  ∧ (∀ error_,
       hangUp media_disable this reason (Abrupt error_) leave_reply σ
       = (Normal nothing_done, set_requests (requests σ ++ [request]) σ)).
Proof.
  intros Hc Hconv Href Hdraft Hst request.
  unfold hangUp. rewrite Hc, Hconv, Hc, Hconv. unfold hangUp_knocking. simpl.
  fold request. split.
  - intros response Ht. rewrite Href. simpl. rewrite Hdraft.
    set (σ2 := set_requests (requests σ ++ [request]) σ).
    assert (Hc2 : call_heap σ2 !! this = Some call) by exact Hc.
    rewrite (handleStatusChange_knocking_delete σ2 this call response true Hc2 Ht
               (isEventFromMe_without_conversation σ2 call response Hconv)).
    unfold on_knocking_delete_success.
    rewrite (setStatusAndEmit_by_table σ2 this call from_status UNANSWERED Hc2 Hst).
    destruct (permitted_flow_table from_status UNANSWERED); simpl.
    + rewrite lookup_insert_eq. simpl. rewrite Href.
      eexists. split; [reflexivity|]. simpl. repeat split; try done.
      unfold status_of. simpl. by rewrite lookup_insert_eq.
    + rewrite Hc. simpl. rewrite Href.
      eexists. split; [reflexivity|]. simpl. done.
  - intros error_. unfold hangUp_catch. simpl. by rewrite Hc, Hconv.
Qed.

Lemma hangUp_draft_call_witness :
  ∃ σ', hangUp (λ _ σ, (Normal tt, σ)) 0 None (Normal knocking_deleted_event)
          (Normal JUndefined) store_draft
        = (Normal (knocking_deleted knocking_deleted_event (Settled (Normal tt))), σ')
    ∧ _call_draft_list σ' = delete "uuid-1" (_call_draft_list store_draft)
    ∧ status_of σ' 0 = Some (JStr "unanswered").
Proof.
  destruct (proj1 (hangUp_draft_call (λ _ σ, (Normal tt, σ)) store_draft 0 draft_call
                     "uuid-1" None (Normal JUndefined) None
                     eq_refl eq_refl eq_refl eq_refl eq_refl)
              knocking_deleted_event eq_refl)
    as (σ' & Hrun & _ & Hd & _ & H).
  exists σ'. split; [exact Hrun|]. split; [exact Hd|]. exact (proj1 H).
Defined.

(** X22: hanging up a call that has a conversation and no knocking id
    leaves the conversation: whatever disabling the media did to the
    conversation and to the requests, and whether it resolved or rejected,
    exactly one DELETE for the local member is sent after it, and the
    promise settles as that request does, a failure wrapped in a
    NexmoApiError. The call, the conversation and the local member are read
    after the disabling. Rejecting a call that has a conversation sends the
    same request at once. *)
Theorem hangUp_leaves_conversation
    (media_disable : nat → Store → completion unit * Store)
    (σ : Store) (this cr : nat) (call call1 : NXMCall) (conv conv1 : Conversation)
    (me_ me1 : Member)
    (reason : option string) (knocking_reply : completion Event)
    (leave_reply : completion jsval) :
  call_heap σ !! this = Some call →
  conversation call = Some cr →
  conv_heap σ !! cr = Some conv →
  me_member conv = Some me_ →
  call_heap (media_disable cr σ).2 !! this = Some call1 →
  conversation call1 = Some cr →
  truthy (knocking_id call1) = false →
  conv_heap (media_disable cr σ).2 !! cr = Some conv1 →
  me_member conv1 = Some me1 →
  let request (c : Conversation) (m : Member) :=
    {| req_method := "DELETE";
       req_path := with_reason ("conversations/" +:+ c_id c +:+ "/members/"
                                +:+ String_ (m_id m)) reason;
       req_data_type := JUndefined |} in
  let σ1 := (media_disable cr σ).2 in
  hangUp media_disable this reason knocking_reply leave_reply σ
  = (match leave_reply with
     | Normal response => Normal (left_conversation response)
     | Abrupt error_ => Abrupt (NexmoApiError error_)
     end, set_requests (requests σ1 ++ [request conv1 me1]) σ1)
  ∧ reject this reason leave_reply σ
    = (match leave_reply with
       | Normal response => Normal response
       | Abrupt error_ => Abrupt (NexmoApiError error_)
       end, set_requests (requests σ ++ [request conv me_]) σ).
Proof.
  intros Hc Hconv Hconv0 Hme Hc1 Hconv1 Hk Hconvh1 Hme1 request σ1. subst σ1 request.
  unfold hangUp, reject. rewrite Hc, Hconv, Hc1, Hconv1, Hk. simpl.
  unfold leave. rewrite Hconvh1, Hconv0, Hme, Hme1.
  unfold kick, sendNetworkRequest.
  by destruct leave_reply.
Qed.

Lemma hangUp_leaves_conversation_witness :
  hangUp disable_refused 0 None (Normal knocking_deleted_event) (Normal JUndefined)
    (store_with_media (Examples.call_ (JStr "answered") OUTBOUND (Some 1)))
  = (Normal (left_conversation JUndefined),
     set_requests
       [{| req_method := "DELETE"; req_path := "conversations/CON-1/rtc/leg-1";
           req_data_type := JUndefined |};
        {| req_method := "DELETE"; req_path := "conversations/CON-1/members/alice";
           req_data_type := JUndefined |}]
       (set_conv_heap
          {[ 1 := set_media {| rtcObjects := {[ "leg-1" := 7 ]}; pc := None |}
                    (Examples.conv_ "CON-1");
             2 := Examples.conv_ "CON-2" ]}
          (Examples.store_ (Examples.call_ (JStr "answered") OUTBOUND (Some 1))))).
Proof.
  exact (proj1 (hangUp_leaves_conversation disable_refused
                  (store_with_media (Examples.call_ (JStr "answered") OUTBOUND (Some 1)))
                  0 1 (Examples.call_ (JStr "answered") OUTBOUND (Some 1))
                  (Examples.call_ (JStr "answered") OUTBOUND (Some 1))
                  (set_media {| rtcObjects := {[ "leg-1" := 7 ]}; pc := Some 7 |}
                     (Examples.conv_ "CON-1"))
                  (set_media {| rtcObjects := {[ "leg-1" := 7 ]}; pc := None |}
                     (Examples.conv_ "CON-1"))
                  (Examples.member_ "alice") (Examples.member_ "alice") None
                  (Normal knocking_deleted_event) (Normal JUndefined)
                  eq_refl eq_refl eq_refl eq_refl eq_refl eq_refl eq_refl eq_refl eq_refl)).
Defined.




(** ** Custom events *)

Lemma substring_all (s : string) : String.substring 0 (String.length s) s = s.
Proof. induction s as [|a s IH]; [done|]. simpl. by rewrite IH. Qed.

Lemma strip_custom_prefixed (t : string) : strip_custom ("custom:" +:+ t) = t.
Proof.
  unfold strip_custom, startsWith.
  cbv beta iota fix delta [String.app]. simpl.
  replace (String.prefix EmptyString t) with true by (by destruct t).
  rewrite Nat.sub_0_r. apply substring_all.
Qed.

(** X24: [sendCustomEvent] with a non-empty string as type, in a
    conversation that knows the local member, sends the event under the
    type prefixed with custom: and resolves to an event that carries the
    type as the caller gave it, the local member as sender and the id of
    the service's answer; the conversation, its events included, is left as
    it was. A failed request is rejected with the failure wrapped in a
    NexmoApiError. A type that is not a non-empty string sends nothing, and
    neither does a conversation without local member, which is reported
    first. *)
Theorem sendCustomEvent_round_trip
    (conv : Conversation) (sent : list Request) (body_ : Body) :
  (∀ me_ t, me_member conv = Some me_ → t ≠ EmptyString →
     (∀ id_ timestamp,
        ∃ ev, sendCustomEvent (JStr t) body_ (Normal (id_, timestamp)) (conv, sent)
              = (Normal ev, (conv, sent ++ [event_request conv ("custom:" +:+ t)]))
          ∧ type ev = t ∧ from ev = m_id me_ ∧ ev_id ev = id_ ∧ cid ev = c_id conv)
     ∧ (∀ error_,
          sendCustomEvent (JStr t) body_ (Abrupt error_) (conv, sent)
          = (Abrupt (NexmoApiError error_),
             (conv, sent ++ [event_request conv ("custom:" +:+ t)]))))
  ∧ (∀ type_ reply, is_Some (me_member conv) → truthy type_ = false →
       sendCustomEvent type_ body_ reply (conv, sent)
       = (Abrupt (NexmoApiError (NexmoClientError "error:custom-event:invalid")),
          (conv, sent)))
  ∧ (∀ type_ reply, me_member conv = None →
       sendCustomEvent type_ body_ reply (conv, sent)
       = (Abrupt (NexmoApiError (NexmoClientError "error:self")), (conv, sent))).
Proof.
  split; [|split].
  - intros me_ t Hme Ht. unfold sendCustomEvent. rewrite Hme.
    assert (Htr : truthy (JStr t) = true).
    { simpl. by apply negb_true_iff, String.eqb_neq. }
    rewrite Htr. simpl negb. cbv iota. unfold sendNetworkRequest. split; [|done].
    intros id_ timestamp. eexists. split; [reflexivity|].
    unfold new_NXMEvent. cbn [type from ev_id cid]. by rewrite strip_custom_prefixed.
  - intros type_ reply [me_ Hme] Htr. unfold sendCustomEvent. rewrite Hme.
    destruct type_ as [| |t]; try done. by rewrite Htr.
  - intros type_ reply Hme. unfold sendCustomEvent. by rewrite Hme.
Qed.

Lemma sendCustomEvent_round_trip_witness :
  ∃ ev, sendCustomEvent (JStr "my-event") empty_body (Normal (JStr "9", JStr "t"))
          (Examples.conv_ "CON-1", [])
        = (Normal ev, (Examples.conv_ "CON-1",
                       [event_request (Examples.conv_ "CON-1") "custom:my-event"]))
    ∧ type ev = "my-event".
Proof.
  destruct (proj1 (proj1 (sendCustomEvent_round_trip (Examples.conv_ "CON-1") [] empty_body)
                     (Examples.member_ "alice") "my-event" eq_refl ltac:(discriminate))
              (JStr "9") (JStr "t")) as (ev & Hrun & Ht & _).
  exists ev. split; [exact Hrun|exact Ht].
Defined.

(** ** Receipts *)

Lemma receipt_type_kind (this : Event) :
  type (receipt_type this) ∈ ["text"; "image"; "event"]
  ∧ receipt_type this = set_type (type (receipt_type this)) this
  ∧ receipt_type (receipt_type this) = receipt_type this.
Proof.
  unfold receipt_type.
  destruct (String.eqb_spec (type this) "text") as [Ht|_]; simpl.
  { rewrite Ht. split; [set_solver|]. split; [|done]. rewrite <- Ht. by destruct this. }
  destruct (String.eqb_spec (type this) "image") as [Hi|_]; simpl.
  { rewrite Hi. split; [set_solver|]. split; [|done]. rewrite <- Hi. by destruct this. }
  split; [set_solver|]. done.
Qed.

(** X25: marking an event as delivered first rewrites its type: a text
    stays a text and an image an image, anything else becomes an 'event',
    and this also when the promise is then rejected; nothing else of the
    event changes. At most one request is sent, of the rewritten type
    followed by :delivered. Marking one's own message is refused with a
    plain NexmoClientError (not wrapped in a NexmoApiError) and sends
    nothing. Marking the event as seen afterwards leaves it as [delivered]
    left it. *)
Theorem delivered_rewrites_type
    (conv : Conversation) (state : option EventState) (reply reply' : completion unit)
    (this : Event) (sent : list Request) :
  let r := delivered conv state reply (this, sent) in
  type r.2.1 ∈ ["text"; "image"; "event"]
  ∧ r.2.1 = set_type (type r.2.1) this
  ∧ (type this ∈ ["text"; "image"] → r.2.1 = this)
  ∧ (r.2.2 = sent
     ∨ is_abrupt r.1 = is_abrupt reply
       ∧ r.2.2 = sent ++ [event_request conv (type r.2.1 +:+ ":delivered")])
  ∧ (∀ me_, me_member conv = Some me_ → m_id me_ = from this →
       r.1 = Abrupt (NexmoClientError "error:delivered:own-message") ∧ r.2.2 = sent)
  ∧ (seen conv state reply' r.2).2.1 = r.2.1.
Proof.
  destruct (receipt_type_kind this) as (Hkind & Hset & Hidem).
  assert (H1 : (delivered conv state reply (this, sent)).2.1 = receipt_type this).
  { unfold delivered. repeat case_match; done. }
  assert (H2 : ∀ st, (seen conv state reply' st).2.1 = receipt_type st.1).
  { intros [e s]. unfold seen. repeat case_match; done. }
  intros r. subst r. rewrite H2, H1, Hidem.
  split; [done|]. split; [done|]. split.
  { intros Ht. unfold receipt_type.
    destruct (String.eqb_spec (type this) "text"); [done|].
    destruct (String.eqb_spec (type this) "image"); [done|].
    apply elem_of_cons in Ht as [?|Ht]; [done|].
    apply elem_of_cons in Ht as [?|Ht]; [done|]. by apply elem_of_nil in Ht. }
  split.
  { unfold delivered, sendNetworkRequest.
    repeat case_match; simplify_eq; simpl; auto. }
  split; [|done].
  intros me_ Hme Hfrom. unfold delivered. rewrite Hme.
  replace (from (receipt_type this)) with (from this)
    by (unfold receipt_type; by case_match).
  by rewrite Hfrom, strict_eq_refl.
Qed.

(** ** Events of a conversation: the sender *)

(** X26: the sender of an event that is not an RTC event, when it is a
    non-empty string under which the conversation holds no member, is
    registered before anything else is done: a fresh member built from
    the raw event (which has a type) is put under the sender's id, and from
    there on the event is handled exactly as it would be by a conversation
    that already held that member. So the event handler runs on a
    conversation that holds the new member (and whose counter has been
    incremented), and when it throws, the conversation is left as the
    handler left it. *)
Theorem handleEvent_registers_sender
    (handleEvent : Event → Conversation → completion Event * Conversation)
    (parse : string → jsnum) (event : Event) (this : Conversation) (f : string) :
  startsWith (type event) "rtc" = false →
  type event ≠ EmptyString →
  from event = JStr f →
  f ≠ EmptyString →
  members this !! f = None →
  let registered := set_members (<[f := new_Member_of_event event]> (members this)) this in
  Conversation._handleEvent handleEvent parse event this
  = Conversation._handleEvent handleEvent parse event registered
  ∧ members registered !! f = Some (new_Member_of_event event)
  ∧ (∀ k m, members this !! k = Some m → members registered !! k = Some m)
  ∧ (∀ e this3,
       handleEvent (numeric_event_id parse event)
         (set_sequence_number (js_incr (sequence_number this)) registered)
       = (Abrupt e, this3) →
       Conversation._handleEvent handleEvent parse event this = (Abrupt e, this3)).
Proof.
  intros Hrtc _ Hfrom Hf Hnone registered.
  assert (Htr : truthy (JStr f) = true).
  { simpl. by apply negb_true_iff, String.eqb_neq. }
  assert (Hreg : members registered !! f = Some (new_Member_of_event event))
    by apply lookup_insert_eq.
  assert (Hno : bool_decide (is_Some (@None Member)) = false)
    by (apply bool_decide_eq_false_2; by intros [? ?]).
  assert (Hyes : bool_decide (is_Some (Some (new_Member_of_event event))) = true)
    by (apply bool_decide_eq_true_2; by eexists).
  assert (Hthis : ∀ this3,
            (if truthy (JStr f)
                && negb (bool_decide
                           (is_Some (members (set_sequence_number
                                                (js_incr (sequence_number this)) this) !! f)))
             then set_members (<[f := new_Member_of_event event]>
                                 (members (set_sequence_number
                                             (js_incr (sequence_number this)) this)))
                    (set_sequence_number (js_incr (sequence_number this)) this)
             else this3)
            = set_sequence_number (js_incr (sequence_number this)) registered).
  { intros this3. rewrite Htr. simpl members. by rewrite Hnone, Hno. }
  assert (Hregd : ∀ this3,
            (if truthy (JStr f)
                && negb (bool_decide
                           (is_Some (members (set_sequence_number
                                                (js_incr (sequence_number this)) registered)
                                     !! f)))
             then this3
             else set_sequence_number (js_incr (sequence_number this)) registered)
            = set_sequence_number (js_incr (sequence_number this)) registered).
  { intros this3. rewrite Htr.
    change (members (set_sequence_number _ registered)) with (members registered).
    by rewrite Hreg, Hyes. }
  assert (Hrun : Conversation._handleEvent handleEvent parse event this
                 = match handleEvent (numeric_event_id parse event)
                           (set_sequence_number (js_incr (sequence_number this)) registered)
                   with
                   | (Abrupt e, this3) => (Abrupt e, this3)
                   | (Normal constructed_event, this3) =>
                       let this4 :=
                         if negb (is_typing (type event))
                         then set_events (events_set (ev_id constructed_event)
                                            constructed_event (events this3)) this3
                         else this3 in
                       if startsWith (type event) "custom:"
                       then (Normal tt,
                             emit (conv_event (type constructed_event)
                                     (get_by (members this3) (from event))
                                     constructed_event) this4)
                       else (Normal tt,
                             emit (conv_event (type event)
                                     (get_by (members this3) (from event))
                                     constructed_event) this4)
                   end).
  { unfold Conversation._handleEvent. rewrite Hrtc, Hfrom. cbv zeta.
    by rewrite Hthis. }
  split; [|split; [exact Hreg|split]].
  - rewrite Hrun. unfold Conversation._handleEvent. rewrite Hrtc, Hfrom. cbv zeta.
    change (sequence_number registered) with (sequence_number this).
    by rewrite Hregd.
  - intros k m Hk. subst registered. simpl. rewrite lookup_insert_ne; [done|]. congruence.
  - intros e this3 He. by rewrite Hrun, He.
Qed.

Lemma handleEvent_registers_sender_witness :
  Conversation._handleEvent plain_handleEvent parseInt
    (Examples.event_ "text" "CON-1" (JStr "carol") empty_body) (Examples.conv_ "CON-1")
  = Conversation._handleEvent plain_handleEvent parseInt
      (Examples.event_ "text" "CON-1" (JStr "carol") empty_body)
      (set_members
         (<["carol" := new_Member_of_event
                         (Examples.event_ "text" "CON-1" (JStr "carol") empty_body)]>
            (members (Examples.conv_ "CON-1")))
         (Examples.conv_ "CON-1")).
Proof.
  exact (proj1 (handleEvent_registers_sender plain_handleEvent parseInt
                  (Examples.event_ "text" "CON-1" (JStr "carol") empty_body)
                  (Examples.conv_ "CON-1") "carol"
                  eq_refl ltac:(discriminate) eq_refl ltac:(discriminate) eq_refl)).
Defined.
